(** * Analysis-with-PySpark: a Rocq model of the notebooks

    The repository consists of three notebooks ([lowLevelAPI.ipynb],
    [main.ipynb] and its exercise copy [student-main.ipynb]).  Every cell is
    a straight-line call into PySpark.  The notebooks' own code (the lambdas,
    the constants, the order of the calls and what each call is applied to)
    is transcribed below; the PySpark operations the cells call are modelled
    after the behaviour PySpark 3.4 documents for them, and each such model
    says so in its comment.

    - [Py]         Python values and the string methods the lambdas use
    - [Unicode]    [str.lower] and [str.split] on sequences of code points
    - [RDD]        partitioned collections and their transformations
    - [LowLevel]   the cells of lowLevelAPI.ipynb (word count)
    - [Lineage]    the SparkContext as a store of immutable RDD nodes
    - [SQL]        DataFrames, the CSV reader, the temp-view catalog
    - [Schema]     the types [inferSchema] gives the columns of a CSV file
    - [Main]       the data-frame cells of main.ipynb
    - [ML]         random split, vector assembler, grid search
    - [Values]     cells with exact numbers, to run the cells on examples
    - [Ordered]    [takeOrdered] and the top-10 cell
    - [Checks]     the null check
    - [Actions]    [take] *)

From Stdlib Require Import ZArith QArith Qabs Qround Ascii String.
From stdpp Require Import gmap strings list fin_maps pretty sorting.

Open Scope string_scope.
Open Scope list_scope.
Open Scope Z_scope.

(** ** Python values and string methods *)

Module Py.

(** [str.lower()] and [str.split()] on ASCII text, used to run the cells
    on the lines the notebook prints.  The methods on arbitrary text are
    in [Unicode]; the word count below takes the two methods as
    parameters.

    On ASCII text [lower] moves the letters A-Z to a-z and leaves all other
    characters. *)
Definition ascii_lower (c : ascii) : ascii :=
  let n := nat_of_ascii c in
  if ((65 <=? n) && (n <=? 90))%nat then ascii_of_nat (n + 32) else c.

Fixpoint lower (s : string) : string :=
  match s with
  | EmptyString => EmptyString
  | String c s' => String (ascii_lower c) (lower s')
  end.

(** [str.isspace()] for one ASCII character: tab, line feed, vertical tab,
    form feed, carriage return, the separators 28-31 and the blank. *)
Definition isspace (c : ascii) : bool :=
  let n := nat_of_ascii c in
  (((9 <=? n) && (n <=? 13)) || ((28 <=? n) && (n <=? 32)))%nat.

(** [str.split()] with no argument: runs of whitespace separate the words
    and no empty word is produced.  [w] is the word read so far. *)
Fixpoint split_from (w : string) (s : string) : list string :=
  match s with
  | EmptyString => match w with EmptyString => [] | _ => [w] end
  | String c s' =>
      if isspace c
      then match w with
           | EmptyString => split_from EmptyString s'
           | _ => w :: split_from EmptyString s'
           end
      else split_from (w +:+ String c EmptyString) s'
  end.

Definition split (s : string) : list string := split_from EmptyString s.

(** [str(x)] for an integer [x]. *)
Definition str (x : Z) : string := pretty x.

(** The values that occur in the RDD cells: integers, strings and the
    2-tuples built by the lambdas. *)
Inductive PyVal :=
| PyInt (z : Z)
| PyStr (s : string)
| PyPair (a b : PyVal).

#[global] Instance PyVal_eq_dec : EqDecision PyVal.
Proof. solve_decision. Defined.

(** Iterating a value, as [flatMap] does with what its function returns:
    a tuple yields its components, a string its characters; an integer is
    not iterable. *)
Fixpoint chars (s : string) : list PyVal :=
  match s with
  | EmptyString => []
  | String c s' => PyStr (String c EmptyString) :: chars s'
  end.

Definition iter (v : PyVal) : option (list PyVal) :=
  match v with
  | PyInt _ => None
  | PyStr s => Some (chars s)
  | PyPair a b => Some [a; b]
  end.

(** Unpacking [k, v = x], as the shuffle does with each element. *)
Definition unpack (v : PyVal) : option (PyVal * PyVal) :=
  match iter v with
  | Some [a; b] => Some (a, b)
  | _ => None
  end.

End Py.

(** ** [str.lower()] and [str.split()] on code points

    A Python [str] is a sequence of code points.  What CPython reads from
    the Unicode character database is a parameter: the whitespace test
    ([Py_UNICODE_ISSPACE]), the full lower-case mapping of a character
    ([_PyUnicode_ToLowerFull], one character or several), the properties
    Cased and Case_Ignorable, and the three sigmas. *)

Module Unicode.
Section str.
Context {Char : Type}.
Variable isspace : Char -> bool.
Variable tolower_full : Char -> list Char.
Variable cased : Char -> bool.
Variable case_ignorable : Char -> bool.
Variable capital_sigma : Char -> bool.     (* c == 0x3A3 *)
Variable final_sigma small_sigma : Char.   (* 0x3C2, 0x3C3 *)

(** [split_whitespace]: skip whitespace, take the run of other characters
    as a word, repeat.  [w] is the word read so far. *)
Fixpoint split_from (w : list Char) (s : list Char) : list (list Char) :=
  match s with
  | [] => match w with [] => [] | _ => [w] end
  | c :: s' =>
      if isspace c
      then match w with
           | [] => split_from [] s'
           | _ => w :: split_from [] s'
           end
      else split_from (w ++ [c]) s'
  end.

Definition split (s : list Char) : list (list Char) := split_from [] s.

(** [handle_capital_sigma]: a capital sigma is final when a cased
    character comes before it and none after it, case-ignorable characters
    between not counted.  [before] holds the characters before the sigma,
    the nearest first. *)
Fixpoint skip_ignorable (s : list Char) : list Char :=
  match s with
  | [] => []
  | c :: s' => if case_ignorable c then skip_ignorable s' else s
  end.

Definition is_final_sigma (before after : list Char) : bool :=
  match skip_ignorable before with
  | [] => false
  | c :: _ =>
      cased c && match skip_ignorable after with
                 | [] => true
                 | c' :: _ => negb (cased c')
                 end
  end.

(** [do_lower]: every character gives its full lower-case mapping, a
    capital sigma the final or the small sigma. *)
Fixpoint lower_from (before : list Char) (s : list Char) : list Char :=
  match s with
  | [] => []
  | c :: s' =>
      (if capital_sigma c
       then [if is_final_sigma before s' then final_sigma else small_sigma]
       else tolower_full c)
      ++ lower_from (c :: before) s'
  end.

Definition lower (s : list Char) : list Char := lower_from [] s.

(** What the tables say of whitespace: a whitespace character is no
    capital sigma, is its own lower case, and is neither cased nor
    case-ignorable; the lower case of another character is not empty and
    holds no whitespace, and the sigmas are no whitespace. *)
Definition whitespace_is_caseless : Prop :=
  (forall c, isspace c = true ->
     capital_sigma c = false /\ tolower_full c = [c] /\
     cased c = false /\ case_ignorable c = false) /\
  (forall c, isspace c = false ->
     tolower_full c ≠ [] /\
     Forall (fun x => isspace x = false) (tolower_full c)) /\
  isspace final_sigma = false /\ isspace small_sigma = false.
End str.

(** A fragment of the tables, on code points as integers, to run the two
    methods on examples: the whitespace of [str.isspace], and of the
    letters the ASCII ones, the capital I with a dot (whose lower case is
    two characters) and the Greek capitals and small letters with the
    sigmas.  On these code points the functions are CPython's; every other
    code point counts here as a character without case. *)
Module Fragment.
Definition isspace (c : Z) : bool :=
  ((9 <=? c) && (c <=? 13)) || ((28 <=? c) && (c <=? 32))
  || (c =? 133) || (c =? 160) || (c =? 5760)
  || ((8192 <=? c) && (c <=? 8202)) || (c =? 8232) || (c =? 8233)
  || (c =? 8239) || (c =? 8287) || (c =? 12288).

Definition greek_capital (c : Z) : bool :=
  (913 <=? c) && (c <=? 937) && negb (c =? 930).

Definition tolower_full (c : Z) : list Z :=
  if ((65 <=? c) && (c <=? 90)) || greek_capital c
  then [c + 32]
  else if c =? 304 then [105; 775] else [c].

Definition cased (c : Z) : bool :=
  ((65 <=? c) && (c <=? 90)) || ((97 <=? c) && (c <=? 122))
  || (c =? 304) || greek_capital c
  || ((945 <=? c) && (c <=? 969)).

Definition case_ignorable (c : Z) : bool :=
  (c =? 39) || (c =? 46) || (c =? 58) || (c =? 94) || (c =? 96)
  || (c =? 173) || (c =? 775).

Definition capital_sigma (c : Z) : bool := c =? 931.
Definition final_sigma : Z := 962.
Definition small_sigma : Z := 963.

Definition lower : list Z -> list Z :=
  Unicode.lower tolower_full cased case_ignorable capital_sigma
    final_sigma small_sigma.
Definition split : list Z -> list (list Z) := Unicode.split isspace.
End Fragment.
End Unicode.

(** ** Resilient distributed collections

    An RDD is a list of partitions; [collect] returns the elements of the
    partitions in order.  The narrow transformations ([map], [flatMap],
    [filter], [sample]) work partition by partition; [reduceByKey] follows
    [pyspark.rdd.RDD.combineByKey]: combine inside each partition, route
    every key to the partition its hash selects, merge the combiners there. *)

Abbreviation rdd A := (list (list A)).

(** The random source of the samplers: [uniform seed split i] is the draw
    (in [0,1)) made for the [i]-th element of partition [split], and
    [poisson seed split i mean] the number of copies drawn for it when
    sampling with replacement. *)
Record Rng := {
  uniform : Z -> nat -> nat -> Q;
  poisson : Z -> nat -> nat -> Q -> nat
}.

Definition Qltb (x y : Q) : bool := negb (Qle_bool y x).

Module RDD.

Section narrow.
Context {A B : Type}.

Definition collect (r : rdd A) : list A := concat r.

Definition take (n : nat) (r : rdd A) : list A := firstn n (collect r).

Definition map (f : A -> B) (r : rdd A) : rdd B := List.map (List.map f) r.

Definition flatMap (f : A -> list B) (r : rdd A) : rdd B :=
  List.map (flat_map f) r.

Definition filter (f : A -> bool) (r : rdd A) : rdd A :=
  List.map (List.filter f) r.

(** [RDDSampler.func]: without replacement an element is kept when its
    draw is below [fraction]; with replacement it is repeated as often
    as its Poisson draw says. *)
Definition sample_partition (g : Rng) (withReplacement : bool)
    (fraction : Q) (seed : Z) (split : nat) (part : list A) : list A :=
  concat (imap (fun i x =>
            if withReplacement
            then replicate (poisson g seed split i fraction) x
            else if Qltb (uniform g seed split i) fraction then [x] else [])
          part).

Definition sample (g : Rng) (withReplacement : bool) (fraction : Q)
    (seed : Z) (r : rdd A) : rdd A :=
  imap (sample_partition g withReplacement fraction seed) r.
End narrow.

Section by_key.
Context {K V C : Type} `{EqDecision K}.

(** The merger's dictionary, in insertion order:
    [d[k] = upd(d[k]) if k in d else new]. *)
Fixpoint upsert (d : list (K * C)) (k : K) (new : C) (upd : C -> C)
    : list (K * C) :=
  match d with
  | [] => [(k, new)]
  | (k', c) :: d' =>
      if decide (k' = k) then (k', upd c) :: d'
      else (k', c) :: upsert d' k new upd
  end.

Definition mergeValues (createCombiner : V -> C) (mergeValue : C -> V -> C)
    (it : list (K * V)) : list (K * C) :=
  foldl (fun d kv => upsert d kv.1 (createCombiner kv.2)
                       (fun c => mergeValue c kv.2)) [] it.

Definition mergeCombiners (mergeComb : C -> C -> C) (it : list (K * C))
    : list (K * C) :=
  foldl (fun d kc => upsert d kc.1 kc.2 (fun c => mergeComb c kc.2)) [] it.

(** The bucket of a key: [partitionFunc(k) % numPartitions]. *)
Definition bucket (numPartitions : nat) (partitionFunc : K -> Z) (k : K)
    : nat :=
  Z.to_nat (partitionFunc k `mod` Z.of_nat numPartitions).

Definition partitionBy (numPartitions : nat) (partitionFunc : K -> Z)
    (r : rdd (K * C)) : rdd (K * C) :=
  List.map
    (fun j => List.filter
                (fun kc => Nat.eqb (bucket numPartitions partitionFunc kc.1) j)
                (concat r))
    (seq 0 numPartitions).

Definition combineByKey (createCombiner : V -> C)
    (mergeValue : C -> V -> C) (mergeComb : C -> C -> C)
    (numPartitions : nat) (partitionFunc : K -> Z)
    (r : rdd (K * V)) : rdd (K * C) :=
  let locally_combined := List.map (mergeValues createCombiner mergeValue) r in
  let shuffled := partitionBy numPartitions partitionFunc locally_combined in
  List.map (mergeCombiners mergeComb) shuffled.
End by_key.

(** [reduceByKey(func)] is [combineByKey(lambda x: x, func, func)]. *)
Definition reduceByKey {K V : Type} `{EqDecision K} (func : V -> V -> V)
    (numPartitions : nat) (partitionFunc : K -> Z) (r : rdd (K * V))
    : rdd (K * V) :=
  combineByKey (fun x => x) func func numPartitions partitionFunc r.

(** The values a list of pairs holds for key [k], in order, and their
    sum. *)
Definition values_of {K V : Type} `{EqDecision K} (k : K) (l : list (K * V))
    : list V :=
  List.map snd (List.filter (fun kv => bool_decide (kv.1 = k)) l).

Definition total {K : Type} `{EqDecision K} (k : K) (l : list (K * Z)) : Z :=
  foldr Z.add 0 (values_of k l).

(** The number of reduce partitions when the call names none:
    [spark.default.parallelism] if it is set, else the number of
    partitions of the collection itself. *)
Definition defaultReducePartitions {A : Type} (parallelism : option nat)
    (r : rdd A) : nat :=
  match parallelism with
  | Some n => n
  | None => length r
  end.

End RDD.

(** ** lowLevelAPI.ipynb *)

Module LowLevel.

(** [rdd = sc.parallelize([1,2,3,4,5,6,7,8,9,10])]; with [master="local"]
    the list makes one partition. *)
Definition parallelize {A : Type} (c : list A) : rdd A := [c].

Definition rdd0 : rdd Z := parallelize [1; 2; 3; 4; 5; 6; 7; 8; 9; 10].

(** [lambda x: x%2 == 0] *)
Definition is_even (x : Z) : bool := x `mod` 2 =? 0.

(** [lambda x: (x, str(x))], as a tuple for [map] ... *)
Definition with_str (x : Z) : Z * string := (x, Py.str x).

(** ... and iterated by [flatMap]. *)
Definition with_str_items (x : Z) : list Py.PyVal :=
  [Py.PyInt x; Py.PyStr (Py.str x)].

(** [lambda x,y: x+y] *)
Definition add (x y : Z) : Z := x + y.

(** One step of the merger under [add]: [d[k] = d[k] + v if k in d else v]. *)
Definition add_pair {K : Type} `{EqDecision K} (d : list (K * Z))
    (kv : K * Z) : list (K * Z) :=
  RDD.upsert d kv.1 kv.2 (fun c => add c kv.2).

(** The word count.  Each cell rebinds the name [lyrics]; the stages are
    numbered here.  [Str] is Python's [str] and [lower] and [split] are its
    methods [str.lower] and [str.split] (without arguments). *)
Section words.
Context {Str : Type} `{EqDecision Str}.
Variable lower : Str -> Str.
Variable split : Str -> list Str.

(** [lyrics = lyrics.map(lambda x: x.lower())] *)
Definition lyrics1 (lyrics : rdd Str) : rdd Str :=
  RDD.map lower lyrics.

(** [lyrics = lyrics.flatMap(lambda x: x.split())] *)
Definition lyrics2 (lyrics : rdd Str) : rdd Str :=
  RDD.flatMap split (lyrics1 lyrics).

(** [lyrics = lyrics.map(lambda x: (x, 1))] *)
Definition lyrics3 (lyrics : rdd Str) : rdd (Str * Z) :=
  RDD.map (fun x => (x, 1)) (lyrics2 lyrics).

(** [wordCount = lyrics.reduceByKey(lambda x,y: x+y)] *)
Definition wordCount (parallelism : option nat) (portable_hash : Str -> Z)
    (lyrics : rdd Str) : rdd (Str * Z) :=
  let pairs := lyrics3 lyrics in
  RDD.reduceByKey add (RDD.defaultReducePartitions parallelism pairs)
    portable_hash pairs.

(** The tokens of the corpus: the words of the lower-cased lines. *)
Definition tokens (lyrics : rdd Str) : list Str :=
  flat_map split (List.map lower (RDD.collect lyrics)).

(** How often [t] occurs in [l]. *)
Fixpoint occurrences (t : Str) (l : list Str) : Z :=
  match l with
  | [] => 0
  | x :: l' => (if decide (x = t) then 1 else 0) + occurrences t l'
  end.
End words.

(** One way of combining the values of a key: any order, any grouping. *)
Inductive grouping :=
| One (v : Z)
| Both (l r : grouping).

Fixpoint combine (func : Z -> Z -> Z) (g : grouping) : Z :=
  match g with
  | One v => v
  | Both l r => func (combine func l) (combine func r)
  end.

Fixpoint leaves (g : grouping) : list Z :=
  match g with
  | One v => [v]
  | Both l r => leaves l ++ leaves r
  end.

End LowLevel.

(** ** The SparkContext as a store of RDD nodes

    An RDD object is never updated: a transformation makes a new object that
    remembers its parent, and an action computes a collection from its
    lineage.  The context is the list of the objects made so far; the
    identifier of an RDD is its position ([sc._next_rdd_id]). *)

Module Lineage.
Import Py.

(** The transformations the notebook calls.  The function of each is a
    Python callable on arbitrary values; [None] is a call that raises. *)
Inductive Transformation :=
| Filter (f : PyVal -> option bool)
| Sample (withReplacement : bool) (fraction : Q) (seed : Z)
| Map (f : PyVal -> option PyVal)
| FlatMap (f : PyVal -> option (list PyVal))
| ReduceByKey (func : PyVal -> PyVal -> option PyVal).

Inductive Node :=
| Source (partitions : rdd PyVal)        (* sc.parallelize, sc.textFile *)
| Derived (t : Transformation) (parent : nat).

(** What the session fixes: [spark.default.parallelism], the hash that
    routes keys, the random source. *)
Record Env := {
  parallelism : option nat;
  portable_hash : PyVal -> Z;
  rng : Rng
}.

(** One transformation on a computed parent.  The callable is run on every
    element first; the collection operation is the one of [RDD]. *)
Definition apply (e : Env) (t : Transformation) (r : rdd PyVal)
    : option (rdd PyVal) :=
  match t with
  | Filter f =>
      tagged ← mapM (mapM (fun x => b ← f x; Some (x, b))) r;
      Some (RDD.map fst (RDD.filter snd tagged))
  | Sample withReplacement fraction seed =>
      Some (RDD.sample (rng e) withReplacement fraction seed r)
  | Map f => mapM (mapM f) r
  | FlatMap f =>
      lists ← mapM (mapM f) r;
      Some (RDD.flatMap (fun l => l) lists)
  | ReduceByKey func =>
      pairs ← mapM (mapM unpack) r;
      let combined :=
        RDD.combineByKey Some
          (fun c v => c ≫= fun c' => func c' v)
          (fun a b => a ≫= fun a' => b ≫= fun b' => func a' b')
          (RDD.defaultReducePartitions (parallelism e) pairs)
          (portable_hash e) pairs in
      mapM (mapM (fun kc : PyVal * option PyVal => PyPair kc.1 <$> kc.2))
        combined
  end.

Definition eval_node (e : Env) (computed : list (option (rdd PyVal)))
    (nd : Node) : option (rdd PyVal) :=
  match nd with
  | Source partitions => Some partitions
  | Derived t parent => r ← mjoin (computed !! parent); apply e t r
  end.

Definition eval_all (e : Env) (nodes : list Node)
    : list (option (rdd PyVal)) :=
  foldl (fun computed nd => computed ++ [eval_node e computed nd]) [] nodes.


(** [rdd.collect()] for the RDD with identifier [id]; [None] when the job
    fails or no such RDD exists. *)
Definition collect (e : Env) (nodes : list Node) (id : nat)
    : option (list PyVal) :=
  RDD.collect <$> mjoin (eval_all e nodes !! id).

(** Calling a transformation on the RDD [src]: the new RDD's identifier
    and the context afterwards. *)
Definition transform (t : Transformation) (src : nat) (nodes : list Node)
    : nat * list Node :=
  (length nodes, nodes ++ [Derived t src]).

(** A chain of transformation calls, each on any RDD made so far. *)
Definition chain (steps : list (Transformation * nat)) (nodes : list Node)
    : list Node :=
  foldl (fun ns step => (transform step.1 step.2 ns).2) nodes steps.


(** A lambda of the notebook on the integers it is applied to. *)
Definition on_int {B : Type} (f : Z -> B) (v : PyVal) : option B :=
  match v with
  | PyInt x => Some (f x)
  | _ => None
  end.

(** The cells on [rdd], as calls on a context that holds [rdd] alone. *)
Definition sc0 : list Node := [Source (RDD.map PyInt LowLevel.rdd0)].

Definition rdd_cells : list (Transformation * nat) :=
  [ (Filter (on_int LowLevel.is_even), 0%nat);
    (Sample false (4 # 10) 23, 0%nat);
    (Map (on_int (fun x => PyPair (PyInt x) (PyStr (Py.str x)))), 0%nat);
    (FlatMap (on_int LowLevel.with_str_items), 0%nat) ].

(** A session for running the cells: one reduce partition per parent
    partition, a constant hash, and a random source whose [i]-th draw is
    [i/10]. *)
Definition env0 : Env :=
  {| parallelism := None;
     portable_hash := fun _ => 0;
     rng := {| uniform := fun _ _ i => Z.of_nat i # 10;
               poisson := fun _ _ _ _ => 1%nat |} |}.

End Lineage.

(** ** Python exceptions *)

Inductive PyError :=
| AssertionError
| ValueError
| AnalysisException
| IllegalArgumentException
| SparkException.

Inductive result (A : Type) :=
| Ok (a : A)
| Raise (e : PyError).
Arguments Ok {A} a.
Arguments Raise {A} e.

#[global] Instance result_ret : MRet result := fun A a => Ok a.
#[global] Instance result_bind : MBind result := fun A B f m =>
  match m with
  | Ok a => f a
  | Raise e => Raise e
  end.
#[global] Instance result_fmap : FMap result := fun A B f m =>
  match m with
  | Ok a => Ok (f a)
  | Raise e => Raise e
  end.

(** [assert b] *)
Definition py_assert (b : bool) : result unit :=
  if b then Ok tt else Raise AssertionError.

(** ** DataFrames

    A DataFrame is its column names and its rows, each row a list of cells.
    The cell type stands for Spark's SQL values under the equality Spark
    groups and de-duplicates by; [null] is the SQL null. *)

Module SQL.
Section frames.
Context {Cell : Type} `{EqDecision Cell}.
Variable null : Cell.

Record DataFrame := {
  columns : list string;
  rows : list (list Cell)
}.

(** [df.count()] *)
Definition count (df : DataFrame) : nat := length (rows df).

(** [df.dropDuplicates()]: one row of each group of equal rows. *)
Definition dropDuplicates (df : DataFrame) : DataFrame :=
  {| columns := columns df; rows := remove_dups (rows df) |}.

(** *** Reading a CSV file

    The file is given as its records, each the list of its fields.
    [parse_field data i s] is the value Spark reads from field [s] of
    column [i] once [inferSchema] has fixed the column's type from
    [data].  The number of columns is that of the first record; a shorter
    record is filled with nulls and a longer one is cut. *)
Variable parse_field : list (list string) -> nat -> string -> Cell.

Definition default_names (n : nat) : list string :=
  (fun i : nat => "_c" +:+ pretty i) <$> seq 0 n.

Definition parse_record (data : list (list string)) (width : nat)
    (record : list string) : list Cell :=
  imap (parse_field data) (take width record)
    ++ replicate (width - length record) null.

Definition csv (header : bool) (records : list (list string)) : DataFrame :=
  match records with
  | [] => {| columns := []; rows := [] |}
  | first :: rest =>
      let width := length first in
      let data := if header then rest else records in
      {| columns := if header then first else default_names width;
         rows := parse_record data width <$> data |}
  end.

(** [df.toDF] called on the unpacked list of names. *)
Definition toDF (names : list string) (df : DataFrame) : result DataFrame :=
  if decide (length names = length (columns df))
  then Ok {| columns := names; rows := rows df |}
  else Raise IllegalArgumentException.

(** *** Column resolution

    [spark.sql.caseSensitive] decides how a name matches a column; it is
    false unless configured. *)
Definition resolver (caseSensitive : bool) (a b : string) : bool :=
  if caseSensitive then String.eqb a b
  else String.eqb (Py.lower a) (Py.lower b).

Fixpoint matching (caseSensitive : bool) (name : string)
    (cols : list string) (i : nat) : list nat :=
  match cols with
  | [] => []
  | c :: cols' =>
      if resolver caseSensitive c name
      then i :: matching caseSensitive name cols' (S i)
      else matching caseSensitive name cols' (S i)
  end.

(** The position of the one column that [name] denotes; a missing or an
    ambiguous name is an analysis error. *)
Definition resolve (caseSensitive : bool) (name : string)
    (cols : list string) : result nat :=
  match matching caseSensitive name cols 0 with
  | [i] => Ok i
  | _ => Raise AnalysisException
  end.

(** [df.withColumnRenamed(existing, new)]: every column that [existing]
    matches gets the new name; no match is a no-op. *)
Definition withColumnRenamed (caseSensitive : bool) (existing new : string)
    (df : DataFrame) : DataFrame :=
  {| columns := (fun c => if resolver caseSensitive c existing then new else c)
                  <$> columns df;
     rows := rows df |}.

(** [df.select(names)] *)
Definition select (caseSensitive : bool) (names : list string)
    (df : DataFrame) : result DataFrame :=
  idxs ← mapM (fun name => resolve caseSensitive name (columns df)) names;
  Ok {| columns := names;
        rows := (fun r => (fun i => nth i r null) <$> idxs) <$> rows df |}.

(** *** Grouped aggregation

    [avg] and [round] are Spark's AVG and ROUND on cells, [cell_leb] the
    ascending order of ORDER BY. *)
Variable avg : list Cell -> Cell.
Variable round : Cell -> Z -> Cell.
Variable cell_leb : Cell -> Cell -> bool.

Definition group_keys (ikey : nat) (rs : list (list Cell)) : list Cell :=
  remove_dups ((fun r => nth ikey r null) <$> rs).

Definition group_rows (ikey : nat) (k : Cell) (rs : list (list Cell))
    : list (list Cell) :=
  List.filter (fun r => bool_decide (nth ikey r null = k)) rs.

(** One row [key, ROUND(AVG(value), scale)] per group. *)
Definition aggregate_round_avg (ikey ival : nat) (scale : Z)
    (rs : list (list Cell)) : list (list Cell) :=
  (fun k => [k; round (avg ((fun r => nth ival r null)
                               <$> group_rows ikey k rs)) scale])
    <$> group_keys ikey rs.

(** One row [key, COUNT( * )] per group; [count_cell n] is the cell of the
    count [n]. *)
Variable count_cell : nat -> Cell.

Definition aggregate_count (ikey : nat) (rs : list (list Cell))
    : list (list Cell) :=
  (fun k => [k; count_cell (length (group_rows ikey k rs))])
    <$> group_keys ikey rs.

Fixpoint insert_row (i : nat) (r : list Cell) (sorted : list (list Cell))
    : list (list Cell) :=
  match sorted with
  | [] => [r]
  | r' :: s =>
      if cell_leb (nth i r null) (nth i r' null) then r :: sorted
      else r' :: insert_row i r s
  end.

Definition sort_rows (i : nat) (rs : list (list Cell)) : list (list Cell) :=
  foldr (insert_row i) [] rs.

(** [df.orderBy(name)] *)
Definition orderBy (caseSensitive : bool) (name : string) (df : DataFrame)
    : result DataFrame :=
  i ← resolve caseSensitive name (columns df);
  Ok {| columns := columns df; rows := sort_rows i (rows df) |}.

(** [df.groupBy(name)] *)
Record GroupedData := {
  grouping : string;
  grouping_index : nat;
  grouped : DataFrame
}.

Definition groupBy (caseSensitive : bool) (name : string) (df : DataFrame)
    : result GroupedData :=
  i ← resolve caseSensitive name (columns df);
  Ok {| grouping := name; grouping_index := i; grouped := df |}.

(** [g.agg(F.round(F.avg(col), scale).alias(alias))] *)
Definition agg_round_avg (caseSensitive : bool) (col : string) (scale : Z)
    (alias : string) (g : GroupedData) : result DataFrame :=
  ival ← resolve caseSensitive col (columns (grouped g));
  Ok {| columns := [grouping g; alias];
        rows := aggregate_round_avg (grouping_index g) ival scale
                  (rows (grouped g)) |}.

(** *** The catalog of temporary views *)
Definition view_key (caseSensitive : bool) (name : string) : string :=
  if caseSensitive then name else Py.lower name.

Definition createOrReplaceTempView (caseSensitive : bool) (name : string)
    (df : DataFrame) (catalog : gmap string DataFrame)
    : gmap string DataFrame :=
  <[view_key caseSensitive name := df]> catalog.

Definition table (caseSensitive : bool) (catalog : gmap string DataFrame)
    (name : string) : result DataFrame :=
  match catalog !! view_key caseSensitive name with
  | Some df => Ok df
  | None => Raise AnalysisException
  end.

(** The plan of
    [SELECT key, ROUND(AVG(value), scale) AS alias FROM tbl
     GROUP BY key ORDER BY key]:
    scan the view, aggregate by [key], sort the result by [key]. *)
Definition sql_round_avg_by (caseSensitive : bool)
    (catalog : gmap string DataFrame) (key value : string) (scale : Z)
    (alias tbl : string) : result DataFrame :=
  df ← table caseSensitive catalog tbl;
  ikey ← resolve caseSensitive key (columns df);
  ival ← resolve caseSensitive value (columns df);
  orderBy caseSensitive key
    {| columns := [key; alias];
       rows := aggregate_round_avg ikey ival scale (rows df) |}.

(** The plan of
    [SELECT key, COUNT( * ) AS alias FROM tbl GROUP BY key ORDER BY key]. *)
Definition sql_count_by (caseSensitive : bool)
    (catalog : gmap string DataFrame) (key alias tbl : string)
    : result DataFrame :=
  df ← table caseSensitive catalog tbl;
  ikey ← resolve caseSensitive key (columns df);
  orderBy caseSensitive key
    {| columns := [key; alias];
       rows := aggregate_count ikey (rows df) |}.

End frames.
End SQL.

Arguments SQL.DataFrame Cell : clear implicits.
Arguments SQL.GroupedData Cell : clear implicits.

(** ** Inferring the schema of a CSV file

    With [inferSchema=True] Spark reads the file once to type its columns
    ([CSVInferSchema]).  Every column starts at [NullType]; each field
    moves the type of its column along the chain integer, long, decimal,
    double and then on to timestamps, booleans and strings, and the type
    so far is merged with the type of the field.  An empty field says
    nothing.  A column that stays at [NullType] becomes a string column. *)

Module Schema.

Inductive DataType :=
| NullType
| IntegerType
| LongType
| DecimalType (precision scale : nat)
| DoubleType
| DateType
| TimestampNTZType
| TimestampType
| BooleanType
| StringType.

#[global] Instance DataType_eq_dec : EqDecision DataType.
Proof. solve_decision. Defined.

Definition numeric (t : DataType) : bool :=
  match t with
  | IntegerType | LongType | DecimalType _ _ | DoubleType => true
  | _ => false
  end.

Section infer.

(** What the JVM accepts: [field.toInt], [field.toLong], a decimal without
    fraction digits that [DecimalType] can hold (with its precision and
    scale), and [field.toDouble] (also the names of the infinities and
    NaN).  What inference does with a field that is no number, and with a
    field of a column typed as a date, a timestamp or a boolean so far,
    depends on the formats the session is configured with. *)
Variable toInt : string -> bool.
Variable toLong : string -> bool.
Variable toDecimal : string -> option (nat * nat).
Variable toDouble : string -> bool.
Variable notNumber : string -> DataType.
Variable tryParseOther : DataType -> string -> DataType.
Variable compatibleOther : DataType -> DataType -> option DataType.

Definition tryParseDouble (field : string) : DataType :=
  if toDouble field then DoubleType else notNumber field.

Definition tryParseDecimal (field : string) : DataType :=
  match toDecimal field with
  | Some (precision, scale) => DecimalType precision scale
  | None => tryParseDouble field
  end.

Definition tryParseLong (field : string) : DataType :=
  if toLong field then LongType else tryParseDecimal field.

Definition tryParseInteger (field : string) : DataType :=
  if toInt field then IntegerType else tryParseLong field.

(** [DecimalType.forType] of an integral type. *)
Definition forType (t : DataType) : nat * nat :=
  match t with
  | IntegerType => (10, 0)
  | _ => (20, 0)
  end%nat.

(** The merge of two decimals in [findCompatibleTypeForCSV]. *)
Definition mergeDecimals (p1 s1 p2 s2 : nat) : DataType :=
  let scale := Nat.max s1 s2 in
  let range := Nat.max (p1 - s1) (p2 - s2) in
  if (38 <? range + scale)%nat then DoubleType
  else DecimalType (range + scale) scale.

(** A decimal is wider than an integral type when it holds all its
    values. *)
Definition isWiderThan (p s : nat) (t : DataType) : bool :=
  ((fst (forType t) <=? p - s) && (snd (forType t) <=? s))%nat.

Definition mergeIntegralDecimal (t : DataType) (p s : nat) : DataType :=
  if isWiderThan p s t then DecimalType p s
  else if decide (forType t = (p, s)) then DecimalType p s
  else mergeDecimals (fst (forType t)) (snd (forType t)) p s.

(** [compatibleType]: the tightest common type, or the one CSV adds. *)
Definition compatibleType (t1 t2 : DataType) : option DataType :=
  if decide (t1 = t2) then Some t1
  else
    match t1, t2 with
    | NullType, t | t, NullType => Some t
    | StringType, _ | _, StringType => Some StringType
    | IntegerType, LongType | LongType, IntegerType => Some LongType
    | (IntegerType | LongType), DoubleType
    | DoubleType, (IntegerType | LongType) => Some DoubleType
    | (IntegerType | LongType) as t, DecimalType p s
    | DecimalType p s, (IntegerType | LongType) as t =>
        Some (mergeIntegralDecimal t p s)
    | DoubleType, DecimalType _ _ | DecimalType _ _, DoubleType =>
        Some DoubleType
    | DecimalType p1 s1, DecimalType p2 s2 =>
        Some (mergeDecimals p1 s1 p2 s2)
    | _, _ => compatibleOther t1 t2
    end.

(** [inferField] *)
Definition inferField (typeSoFar : DataType) (field : string) : DataType :=
  if String.eqb field "" then typeSoFar
  else
    let typeElemInfer :=
      match typeSoFar with
      | NullType | IntegerType => tryParseInteger field
      | LongType => tryParseLong field
      | DecimalType _ _ => tryParseDecimal field
      | DoubleType => tryParseDouble field
      | StringType => StringType
      | t => tryParseOther t field
      end in
    default StringType (compatibleType typeSoFar typeElemInfer).

(** The fields of column [j], record by record; a record that ends before
    the column has none. *)
Definition column (records : list (list string)) (j : nat) : list string :=
  omap (fun record => record !! j) records.

Definition inferColumn (records : list (list string)) (j : nat) : DataType :=
  foldl inferField NullType (column records j).

Definition finish (t : DataType) : DataType :=
  match t with
  | NullType => StringType
  | _ => t
  end.

(** The types of the columns; as for the rows, the first record fixes
    the number of columns. *)
Definition infer (records : list (list string)) : list DataType :=
  match records with
  | [] => []
  | first :: _ =>
      (fun j => finish (inferColumn records j)) <$> seq 0 (length first)
  end.
End infer.
End Schema.

(** ** main.ipynb: the data-frame cells *)

Module Main.

(** [colNames] *)
Definition colNames : list string :=
  [ "target"; "alcohol"; "malic_acid"; "ash"; "alcalinity_of_ash";
    "magnesium"; "total_phenols"; "flavanoids"; "nonflavanoid_phenols";
    "proanthocyanins"; "color_intensity"; "hue";
    "od280_od315_of_diluted_wines"; "proline" ].

(** The output recorded for [wine.printSchema()]. *)
Definition printSchema_output : list (string * Schema.DataType) :=
  [ ("target", Schema.IntegerType); ("alcohol", Schema.DoubleType);
    ("malic_acid", Schema.DoubleType); ("ash", Schema.DoubleType);
    ("alcalinity_of_ash", Schema.DoubleType);
    ("magnesium", Schema.IntegerType);
    ("total_phenols", Schema.DoubleType); ("flavanoids", Schema.DoubleType);
    ("nonflavanoid_phenols", Schema.DoubleType);
    ("proanthocyanins", Schema.DoubleType);
    ("color_intensity", Schema.DoubleType); ("hue", Schema.DoubleType);
    ("od280_od315_of_diluted_wines", Schema.DoubleType);
    ("proline", Schema.IntegerType) ].

(** [wine.printSchema()]: the names [toDF] gave with the types inferred
    from the file. *)
Section schema.
Variable toInt : string -> bool.
Variable toLong : string -> bool.
Variable toDecimal : string -> option (nat * nat).
Variable toDouble : string -> bool.
Variable notNumber : string -> Schema.DataType.
Variable tryParseOther : Schema.DataType -> string -> Schema.DataType.
Variable compatibleOther :
  Schema.DataType -> Schema.DataType -> option Schema.DataType.

Definition printSchema (records : list (list string))
    : list (string * Schema.DataType) :=
  zip colNames
    (Schema.infer toInt toLong toDecimal toDouble notNumber tryParseOther
       compatibleOther records).
End schema.

Section cells.
Context {Cell : Type} `{EqDecision Cell}.
Variable null : Cell.
Variable parse_field : list (list string) -> nat -> string -> Cell.
Variable avg : list Cell -> Cell.
Variable round : Cell -> Z -> Cell.
Variable cell_leb : Cell -> Cell -> bool.
Variable count_cell : nat -> Cell.
Variable caseSensitive : bool.

(** [wine = spark.read.csv('./data/wine.data', header=False,
                           inferSchema=True).toDF(...colNames)] *)
Definition read_wine (records : list (list string))
    : result (SQL.DataFrame Cell) :=
  SQL.toDF colNames (SQL.csv null parse_field false records).

(** [assert wine.count() == wine.dropDuplicates().count()]; the cell
    assigns nothing, so [wine] afterwards is [wine] before. *)
Definition check_duplicates (wine : SQL.DataFrame Cell)
    : result (SQL.DataFrame Cell) :=
  _ ← py_assert (Nat.eqb (SQL.count wine)
                    (SQL.count (SQL.dropDuplicates wine)));
  Ok wine.

(** [wine = wine.withColumnRenamed('od280_od315_of_diluted_wines', 'od280')] *)
Definition rename_od280 (wine : SQL.DataFrame Cell) : SQL.DataFrame Cell :=
  SQL.withColumnRenamed caseSensitive
    "od280_od315_of_diluted_wines" "od280" wine.

(** [wine.createOrReplaceTempView('wine')] *)
Definition register_wine (wine : SQL.DataFrame Cell)
    (catalog : gmap string (SQL.DataFrame Cell))
    : gmap string (SQL.DataFrame Cell) :=
  SQL.createOrReplaceTempView caseSensitive "wine" wine catalog.

(** [spark.sql("SELECT target, COUNT( * ) AS valueCounts FROM wine
                GROUP BY target ORDER BY target")] *)
Definition sql_valueCounts (catalog : gmap string (SQL.DataFrame Cell))
    : result (SQL.DataFrame Cell) :=
  SQL.sql_count_by null cell_leb count_cell caseSensitive catalog
    "target" "valueCounts" "wine".

(** [spark.sql("SELECT target, ROUND(AVG(alcohol), 2) AS avgAlcohol
                FROM wine GROUP BY target ORDER BY target")] *)
Definition sql_avgAlcohol (catalog : gmap string (SQL.DataFrame Cell))
    : result (SQL.DataFrame Cell) :=
  SQL.sql_round_avg_by null avg round cell_leb caseSensitive catalog
    "target" "alcohol" 2 "avgAlcohol" "wine".

(** [wine.select(['target', 'alcohol']).groupBy('target')
        .agg(F.round(F.avg('alcohol'), 2).alias('avgAlcohol'))
        .orderBy('target')] *)
Definition api_avgAlcohol (wine : SQL.DataFrame Cell)
    : result (SQL.DataFrame Cell) :=
  selected ← SQL.select null caseSensitive ["target"; "alcohol"] wine;
  g ← SQL.groupBy caseSensitive "target" selected;
  aggregated ← SQL.agg_round_avg null avg round caseSensitive
                 "alcohol" 2 "avgAlcohol" g;
  SQL.orderBy null cell_leb caseSensitive "target" aggregated.

(** The cells in notebook order, from reading the file to the two
    queries (the cells that only print are left out). *)
Record Outputs := {
  wine_frame : SQL.DataFrame Cell;
  valueCounts : SQL.DataFrame Cell;
  avgAlcohol_sql : SQL.DataFrame Cell;
  avgAlcohol_api : SQL.DataFrame Cell
}.

Definition data_cells (records : list (list string)) : result Outputs :=
  wine ← read_wine records;
  wine ← check_duplicates wine;
  let wine := rename_od280 wine in
  let catalog := register_wine wine ∅ in
  counts ← sql_valueCounts catalog;
  by_sql ← sql_avgAlcohol catalog;
  by_api ← api_avgAlcohol wine;
  Ok {| wine_frame := wine; valueCounts := counts;
        avgAlcohol_sql := by_sql; avgAlcohol_api := by_api |}.
End cells.

End Main.

(** ** main.ipynb: the machine-learning cells *)

Module ML.

(** The two parameters the grid ranges over: [rfModel.numTrees] and
    [rfModel.maxDepth]. *)
Inductive Param :=
| numTrees
| maxDepth.

#[global] Instance Param_eq_dec : EqDecision Param.
Proof. solve_decision. Defined.

Record VectorAssembler := {
  inputCols : list string;
  outputCol : string;
  handleInvalid : string
}.

Record RandomForestClassifier := {
  featuresCol : string;
  labelCol : string;
  predictionCol : string;
  rf_numTrees : Z;
  rf_maxDepth : Z;
  rf_seed : Z
}.

(** [Pipeline(stages=[assembler, rfModel])] *)
Record Pipeline := {
  assembler_stage : VectorAssembler;
  classifier_stage : RandomForestClassifier
}.

(** *** The parameter grid *)

(** [ParamGridBuilder.addGrid]: [self._param_grid[param] = values]. *)
Fixpoint addGrid (param : Param) (values : list Z)
    (grid : list (Param * list Z)) : list (Param * list Z) :=
  match grid with
  | [] => [(param, values)]
  | (p, vs) :: g =>
      if decide (p = param) then (p, values) :: g
      else (p, vs) :: addGrid param values g
  end.

(** [ParamGridBuilder.build]: one map per element of the product of the
    value lists, the first parameter varying slowest. *)
Fixpoint build (grid : list (Param * list Z)) : list (list (Param * Z)) :=
  match grid with
  | [] => [[]]
  | (p, vs) :: g => flat_map (fun v => List.map (cons (p, v)) (build g)) vs
  end.

(** [params = ParamGridBuilder().addGrid(rfModel.numTrees, [50, 100, 150])
                .addGrid(rfModel.maxDepth, [5, 10, 15]).build()] *)
Definition params : list (list (Param * Z)) :=
  build (addGrid maxDepth [5; 10; 15] (addGrid numTrees [50; 100; 150] [])).

(** [numFolds=5] *)
Definition numFolds : nat := 5.

(** The estimator with a parameter map applied ([est.copy(paramMap)]). *)
Definition set_param (rf : RandomForestClassifier) (pv : Param * Z)
    : RandomForestClassifier :=
  match pv.1 with
  | numTrees =>
      {| featuresCol := featuresCol rf; labelCol := labelCol rf;
         predictionCol := predictionCol rf; rf_numTrees := pv.2;
         rf_maxDepth := rf_maxDepth rf; rf_seed := rf_seed rf |}
  | maxDepth =>
      {| featuresCol := featuresCol rf; labelCol := labelCol rf;
         predictionCol := predictionCol rf; rf_numTrees := rf_numTrees rf;
         rf_maxDepth := pv.2; rf_seed := rf_seed rf |}
  end.

Definition with_params (pm : list (Param * Z)) (p : Pipeline) : Pipeline :=
  {| assembler_stage := assembler_stage p;
     classifier_stage := foldl set_param (classifier_stage p) pm |}.

(** The outputs recorded for [cvModel.avgMetrics] (the decimals as
    printed) and for the best [(numTrees, maxDepth)]. *)
Definition avgMetrics_output : list Q :=
  [ 9710135566188198 # 10000000000000000;
    962531413761677 # 1000000000000000;
    962531413761677 # 1000000000000000;
    9691582325720256 # 10000000000000000;
    9691582325720256 # 10000000000000000;
    9691582325720256 # 10000000000000000;
    939889764928558 # 1000000000000000;
    939889764928558 # 1000000000000000;
    939889764928558 # 1000000000000000 ]%Q.

Definition best_output : Z * Z := (50, 5).

(** *** Random split

    [DataFrame.randomSplit] sorts the rows inside each partition, turns
    the weights into cumulative bounds and makes one sample per pair of
    neighbouring bounds; all samples use the same seed, so a row gets the
    same draw [x] in each and is kept where [lb <= x < ub].  The frame is
    one local partition; [draw seed i] is the draw for the [i]-th row of
    the sorted partition.  Weights and draws are doubles in Spark and
    rationals here. *)
Section split.
Context {Cell : Type}.
Variable sort_within_partitions : list (list Cell) -> list (list Cell).
Variable draw : Z -> nat -> Q.

Fixpoint scan_left (acc : Q) (ws : list Q) : list Q :=
  acc :: match ws with
         | [] => []
         | w :: ws' => scan_left (acc + w)%Q ws'
         end.

Definition normalized_cum_weights (weights : list Q) : list Q :=
  let sum := foldr Qplus 0%Q weights in
  scan_left 0%Q ((fun w => w / sum)%Q <$> weights).

Definition in_range (lb ub : Q) (seed : Z) (i : nat) : bool :=
  Qle_bool lb (draw seed i) && Qltb (draw seed i) ub.

Definition sample_range (lb ub : Q) (seed : Z) (rs : list (list Cell))
    : list (list Cell) :=
  concat (imap (fun i r => if in_range lb ub seed i then [r] else []) rs).

(** pyspark raises [ValueError] for a negative weight before calling the
    JVM, whose [Dataset.randomSplit] requires a positive sum of weights. *)
Definition randomSplit (weights : list Q) (seed : Z)
    (df : SQL.DataFrame Cell) : result (list (SQL.DataFrame Cell)) :=
  if existsb (fun w => Qltb w 0%Q) weights then Raise ValueError
  else if Qle_bool (foldr Qplus 0%Q weights) 0 then Raise IllegalArgumentException
  else
    let sorted := sort_within_partitions (SQL.rows df) in
    let bounds := normalized_cum_weights weights in
    Ok ((fun b : Q * Q =>
           {| SQL.columns := SQL.columns df;
              SQL.rows := sample_range b.1 b.2 seed sorted |})
          <$> zip bounds (tail bounds)).

(** [train, test = wine.randomSplit([0.7, 0.3], seed=23)] *)
Definition split_wine (wine : SQL.DataFrame Cell)
    : result (SQL.DataFrame Cell * SQL.DataFrame Cell) :=
  splits ← randomSplit [7 # 10; 3 # 10]%Q 23 wine;
  match splits with
  | [train; test] => Ok (train, test)
  | _ => Raise ValueError
  end.
End split.

(** *** Assembler, classifier, pipeline *)
Section learning.
Context {Cell : Type} `{EqDecision Cell}.
Variable null : Cell.
Variable caseSensitive : bool.

(** What [VectorAssembler] needs of cells: which are invalid (null or
    NaN), the cast to double, and the vector cell of a list. *)
Variable invalid : Cell -> bool.
Variable as_double : Cell -> Cell.
Variable vector : list Cell -> Cell.

(** The values of the input columns of one row, in [inputCols] order. *)
Definition input_values (idxs : list nat) (r : list Cell) : list Cell :=
  (fun i => nth i r null) <$> idxs.

(** [assembler.transform(df)]: a new last column holding the vector of
    the input columns.  With ['error'] an invalid value fails the job,
    with ['skip'] its row is dropped, with ['keep'] it stays. *)
Definition assembler_transform (va : VectorAssembler)
    (df : SQL.DataFrame Cell) : result (SQL.DataFrame Cell) :=
  idxs ← mapM (fun name => SQL.resolve caseSensitive name (SQL.columns df))
              (inputCols va);
  let bad r := existsb invalid (input_values idxs r) in
  let out r := r ++ [vector (as_double <$> input_values idxs r)] in
  if String.eqb (handleInvalid va) "error" then
    if existsb bad (SQL.rows df) then Raise SparkException
    else Ok {| SQL.columns := SQL.columns df ++ [outputCol va];
               SQL.rows := out <$> SQL.rows df |}
  else if String.eqb (handleInvalid va) "skip" then
    Ok {| SQL.columns := SQL.columns df ++ [outputCol va];
          SQL.rows := out <$> List.filter (fun r => negb (bad r)) (SQL.rows df) |}
  else
    Ok {| SQL.columns := SQL.columns df ++ [outputCol va];
          SQL.rows := out <$> SQL.rows df |}.

(** [assembler = VectorAssembler(inputCols=wine.columns[1:],
                                 outputCol='features',
                                 handleInvalid='error')] *)
Definition assembler (wine : SQL.DataFrame Cell) : VectorAssembler :=
  {| inputCols := drop 1 (SQL.columns wine);
     outputCol := "features";
     handleInvalid := "error" |}.

(** [rfModel = RandomForestClassifier(featuresCol='features',
      labelCol='target', predictionCol='prediction',
      numTrees=50, maxDepth=5, seed=23)] *)
Definition rfModel : RandomForestClassifier :=
  {| featuresCol := "features"; labelCol := "target";
     predictionCol := "prediction";
     rf_numTrees := 50; rf_maxDepth := 5; rf_seed := 23 |}.

(** [pipe = Pipeline(stages=[assembler, rfModel])] *)
Definition pipe (wine : SQL.DataFrame Cell) : Pipeline :=
  {| assembler_stage := assembler wine; classifier_stage := rfModel |}.

(** The learner and the metric are Spark's: the forest fitted to an
    assembled frame, what the fitted forest adds to a frame, and the F1
    score of a frame of predictions. *)
Variable Forest : Type.
Variable forest_fit : RandomForestClassifier -> SQL.DataFrame Cell -> Forest.
Variable forest_transform : Forest -> SQL.DataFrame Cell -> SQL.DataFrame Cell.
Variable evaluate : SQL.DataFrame Cell -> Q.

Record PipelineModel := {
  fitted_assembler : VectorAssembler;
  fitted_forest : Forest
}.

(** [Pipeline.fit]: transform with the assembler, fit the forest on the
    result. *)
Definition pipeline_fit (p : Pipeline) (df : SQL.DataFrame Cell)
    : result PipelineModel :=
  assembled ← assembler_transform (assembler_stage p) df;
  Ok {| fitted_assembler := assembler_stage p;
        fitted_forest := forest_fit (classifier_stage p) assembled |}.

(** [PipelineModel.transform] *)
Definition pipeline_transform (m : PipelineModel) (df : SQL.DataFrame Cell)
    : result (SQL.DataFrame Cell) :=
  assembled ← assembler_transform (fitted_assembler m) df;
  Ok (forest_transform (fitted_forest m) assembled).



(** *** Cross-validation

    [CrossValidator._kFold]: a random column [rand seed i] in [0,1) per
    row; fold [i] validates on the rows with [i*h <= rand < (i+1)*h],
    [h = 1/nFolds], and trains on the others. *)
Variable rand : Z -> nat -> Q.
Variable cv_seed : Z.

Definition in_fold (nFolds i : nat) (x : Q) : bool :=
  let h := (1 / inject_Z (Z.of_nat nFolds))%Q in
  Qle_bool (inject_Z (Z.of_nat i) * h) x
  && Qltb x (inject_Z (Z.of_nat (i + 1)) * h).

Definition kFold (nFolds : nat) (df : SQL.DataFrame Cell)
    : list (SQL.DataFrame Cell * SQL.DataFrame Cell) :=
  (fun i =>
     let pick (keep : bool) :=
       concat (imap (fun j r =>
                 if bool_decide (in_fold nFolds i (rand cv_seed j) = keep)
                 then [r] else []) (SQL.rows df)) in
     ({| SQL.columns := SQL.columns df; SQL.rows := pick false |},
      {| SQL.columns := SQL.columns df; SQL.rows := pick true |}))
  <$> seq 0 nFolds.

(** [metrics_all[i][j]]: fit with parameter map [j] on the training part
    of fold [i], score on its validation part. *)
Definition fold_metrics (est : Pipeline) (epm : list (list (Param * Z)))
    (fold : SQL.DataFrame Cell * SQL.DataFrame Cell) : result (list Q) :=
  mapM (fun pm =>
          model ← pipeline_fit (with_params pm est) fold.1;
          predictions ← pipeline_transform model fold.2;
          Ok (evaluate predictions)) epm.

Definition metrics_all (est : Pipeline) (epm : list (list (Param * Z)))
    (nFolds : nat) (df : SQL.DataFrame Cell) : result (list (list Q)) :=
  mapM (fold_metrics est epm) (kFold nFolds df).

(** [np.mean(metrics_all, axis=0)]: [mean] is the average numpy takes of
    the fold metrics of one parameter map (a sum and a division in double
    arithmetic). *)
Variable mean : list Q -> Q.

Definition column_mean (m : list (list Q)) (j : nat) : Q :=
  mean ((fun row => nth j row 0%Q) <$> m).

Definition mean_metrics (m : list (list Q)) (numModels : nat) : list Q :=
  column_mean m <$> seq 0 numModels.

(** [np.argmax]: the first position of the largest metric. *)
Fixpoint argmax_from (best : nat) (bestv : Q) (i : nat) (l : list Q) : nat :=
  match l with
  | [] => best
  | x :: l' =>
      if Qltb bestv x then argmax_from i x (S i) l'
      else argmax_from best bestv (S i) l'
  end.

Definition argmax (l : list Q) : nat :=
  match l with
  | [] => 0%nat
  | x :: l' => argmax_from 0 x 1 l'
  end.

Record CrossValidatorModel := {
  bestModel : PipelineModel;
  avgMetrics : list Q
}.

(** [CrossValidator(estimator, estimatorParamMaps, evaluator,
                    numFolds).fit(df)]; F1 is larger-is-better. *)
Definition cross_validate (est : Pipeline) (epm : list (list (Param * Z)))
    (nFolds : nat) (df : SQL.DataFrame Cell) : result CrossValidatorModel :=
  metrics ← metrics_all est epm nFolds df;
  let avgs := mean_metrics metrics (length epm) in
  best ← pipeline_fit (with_params (nth (argmax avgs) epm []) est) df;
  Ok {| bestModel := best; avgMetrics := avgs |}.

End learning.

End ML.

(** ** An exact instance of the cell type

    Integers, decimal numbers as reduced rationals, and vectors.  Spark's
    doubles are binary floating-point numbers; this instance computes AVG
    and ROUND exactly and serves to run the model on the rows the notebook
    prints. *)

Module Values.

Inductive Value :=
| VNull
| VInt (z : Z)
| VDouble (q : Q)
| VVector (l : list Q).

#[global] Instance Q_eq_dec : EqDecision Q.
Proof. solve_decision. Defined.

#[global] Instance Value_eq_dec : EqDecision Value.
Proof. solve_decision. Defined.

Definition digit (c : ascii) : option Z :=
  let n := nat_of_ascii c in
  if ((48 <=? n) && (n <=? 57))%nat then Some (Z.of_nat (n - 48)) else None.

(** Decimal literals: a sign, digits with at most one point, and an
    exponent.  [digits] returns the number without its point, the count of
    digits after the point when there is one, and the count of digits. *)
Fixpoint digits (s : string) (acc : Z) (scale : option nat) (count : nat)
    : option (Z * option nat * nat) :=
  match s with
  | EmptyString => Some (acc, scale, count)
  | String c s' =>
      if Ascii.eqb c "."
      then match scale with
           | None => digits s' acc (Some 0%nat) count
           | Some _ => None
           end
      else match digit c with
           | Some d => digits s' (10 * acc + d) (S <$> scale) (S count)
           | None => None
           end
  end.

Definition unsigned (s : string) : option (Z * option nat) :=
  match digits s 0 None 0 with
  | Some (n, k, S _) => Some (n, k)
  | _ => None
  end.

Definition signed (s : string) : option (Z * option nat) :=
  match s with
  | EmptyString => None
  | String c s' =>
      if Ascii.eqb c "-"
      then (fun nk : Z * option nat => (- nk.1, nk.2)) <$> unsigned s'
      else if Ascii.eqb c "+" then unsigned s'
      else unsigned s
  end.

Fixpoint split_exponent (s : string) : string * option string :=
  match s with
  | EmptyString => (EmptyString, None)
  | String c s' =>
      if Ascii.eqb c "e" || Ascii.eqb c "E" then (EmptyString, Some s')
      else (String c (split_exponent s').1, (split_exponent s').2)
  end.

(** The value of a literal, as a reduced fraction. *)
Definition scaled (n e : Z) : Q :=
  if 0 <=? e then inject_Z (n * 10 ^ e)
  else Qred (n # Z.to_pos (10 ^ (- e))).

Definition literal (s : string) : option Q :=
  let (mantissa, exponent) := split_exponent s in
  match signed mantissa, exponent with
  | Some (n, k), None => Some (scaled n (- Z.of_nat (default 0%nat k)))
  | Some (n, k), Some e =>
      match signed e with
      | Some (x, None) => Some (scaled n (x - Z.of_nat (default 0%nat k)))
      | _ => None
      end
  | None, _ => None
  end.

Definition integer_in (lo hi : Z) (s : string) : bool :=
  match signed s with
  | Some (n, None) => (lo <=? n) && (n <=? hi)
  | _ => false
  end.

(** The parsers of this instance.  It has no decimal, date, timestamp or
    boolean cells: an integer too large for a long is read as a double
    here (Spark makes it a decimal), and a field that is no number makes
    the column a string column. *)
Definition toInt : string -> bool := integer_in (- 2 ^ 31) (2 ^ 31 - 1).
Definition toLong : string -> bool := integer_in (- 2 ^ 63) (2 ^ 63 - 1).
Definition toDecimal (s : string) : option (nat * nat) := None.
Definition toDouble (s : string) : bool := bool_decide (is_Some (literal s)).
Definition notNumber (s : string) : Schema.DataType := Schema.StringType.
Definition tryParseOther (t : Schema.DataType) (s : string)
    : Schema.DataType := Schema.StringType.
Definition compatibleOther (t1 t2 : Schema.DataType)
    : option Schema.DataType := None.

Definition inferColumn : list (list string) -> nat -> Schema.DataType :=
  Schema.inferColumn toInt toLong toDecimal toDouble notNumber tryParseOther
    compatibleOther.

(** The cell of a field under the type inferred for its column; an empty
    field is null.  (Strings are not among the cells of this instance.) *)
Definition parse_field (data : list (list string)) (i : nat) (s : string)
    : Value :=
  if String.eqb s "" then VNull
  else
    match inferColumn data i with
    | Schema.IntegerType | Schema.LongType =>
        match signed s with
        | Some (n, None) => VInt n
        | _ => VNull
        end
    | Schema.DoubleType =>
        match literal s with
        | Some q => VDouble q
        | None => VNull
        end
    | _ => VNull
    end.

Definition number (v : Value) : option Q :=
  match v with
  | VInt z => Some (inject_Z z)
  | VDouble q => Some q
  | _ => None
  end.

(** AVG skips nulls and is null on no values. *)
Definition avg (l : list Value) : Value :=
  let xs := omap number l in
  match xs with
  | [] => VNull
  | _ :: _ =>
      VDouble (Qred (foldr Qplus 0%Q xs / inject_Z (Z.of_nat (length xs))))
  end.

(** ROUND with a non-negative scale, ties away from zero. *)
Definition round_half_up (q : Q) (scale : Z) : Q :=
  let p := inject_Z (10 ^ scale) in
  let n := Qfloor (Qabs q * p + (1 # 2))%Q in
  Qred (inject_Z (if Qle_bool 0%Q q then n else - n) / p).

Definition round (v : Value) (scale : Z) : Value :=
  match v with
  | VDouble q => VDouble (round_half_up q scale)
  | _ => v
  end.

(** Ascending order with nulls first. *)
Definition count_cell (n : nat) : Value := VInt (Z.of_nat n).

Definition leb (a b : Value) : bool :=
  match number a, number b with
  | None, _ => true
  | Some _, None => false
  | Some x, Some y => Qle_bool x y
  end.

Definition invalid (v : Value) : bool := bool_decide (v = VNull).

Definition as_double (v : Value) : Value :=
  match v with
  | VInt z => VDouble (inject_Z z)
  | _ => v
  end.

Definition vector (l : list Value) : Value := VVector (omap number l).

(** The five rows printed by [wine.show(5)], as records of the file. *)
Definition first_rows : list (list string) :=
  [ ["1"; "14.23"; "1.71"; "2.43"; "15.6"; "127"; "2.8"; "3.06"; "0.28";
     "2.29"; "5.64"; "1.04"; "3.92"; "1065"];
    ["1"; "13.2"; "1.78"; "2.14"; "11.2"; "100"; "2.65"; "2.76"; "0.26";
     "1.28"; "4.38"; "1.05"; "3.4"; "1050"];
    ["1"; "13.16"; "2.36"; "2.67"; "18.6"; "101"; "2.8"; "3.24"; "0.3";
     "2.81"; "5.68"; "1.03"; "3.17"; "1185"];
    ["1"; "14.37"; "1.95"; "2.5"; "16.8"; "113"; "3.85"; "3.49"; "0.24";
     "2.18"; "7.8"; "0.86"; "3.45"; "1480"];
    ["1"; "13.24"; "2.59"; "2.87"; "21.0"; "118"; "2.8"; "2.69"; "0.39";
     "1.82"; "4.32"; "1.04"; "2.93"; "735"] ].

(** The frame of these five rows. *)
Definition wine5 : SQL.DataFrame Value :=
  {| SQL.columns := Main.colNames;
     SQL.rows :=
       [ [VInt 1; VDouble (1423 # 100); VDouble (171 # 100); VDouble (243 # 100);
          VDouble (78 # 5); VInt 127; VDouble (14 # 5); VDouble (153 # 50);
          VDouble (7 # 25); VDouble (229 # 100); VDouble (141 # 25);
          VDouble (26 # 25); VDouble (98 # 25); VInt 1065];
         [VInt 1; VDouble (66 # 5); VDouble (89 # 50); VDouble (107 # 50);
          VDouble (56 # 5); VInt 100; VDouble (53 # 20); VDouble (69 # 25);
          VDouble (13 # 50); VDouble (32 # 25); VDouble (219 # 50);
          VDouble (21 # 20); VDouble (17 # 5); VInt 1050];
         [VInt 1; VDouble (329 # 25); VDouble (59 # 25); VDouble (267 # 100);
          VDouble (93 # 5); VInt 101; VDouble (14 # 5); VDouble (81 # 25);
          VDouble (3 # 10); VDouble (281 # 100); VDouble (142 # 25);
          VDouble (103 # 100); VDouble (317 # 100); VInt 1185];
         [VInt 1; VDouble (1437 # 100); VDouble (39 # 20); VDouble (5 # 2);
          VDouble (84 # 5); VInt 113; VDouble (77 # 20); VDouble (349 # 100);
          VDouble (6 # 25); VDouble (109 # 50); VDouble (39 # 5);
          VDouble (43 # 50); VDouble (69 # 20); VInt 1480];
         [VInt 1; VDouble (331 # 25); VDouble (259 # 100); VDouble (287 # 100);
          VDouble (21 # 1); VInt 118; VDouble (14 # 5); VDouble (269 # 100);
          VDouble (39 # 100); VDouble (91 # 50); VDouble (108 # 25);
          VDouble (26 # 25); VDouble (293 # 100); VInt 735] ] |}.

(** The exact average. *)
Definition mean (l : list Q) : Q :=
  (foldr Qplus 0 l / inject_Z (Z.of_nat (length l)))%Q.

(** Draws for a split of the five rows: 0.5 at even and 0.9 at odd
    positions. *)
Definition draw5 (seed : Z) (i : nat) : Q :=
  if Nat.even i then (1 # 2)%Q else (9 # 10)%Q.

End Values.

(** ** lowLevelAPI.ipynb: the ordered action

    [rdd.takeOrdered(num, key)] takes [heapq.nsmallest(num, it, key)] of
    every partition and reduces the lists with
    [merge(a, b) = heapq.nsmallest(num, a + b, key)].  Python documents
    [heapq.nsmallest(n, l, key)] as [sorted(l, key=key)[:n]]; [sorted] is
    stable. *)

Module Ordered.
Section ordered.
Context {A : Type}.
Variable key : A -> Z.

Fixpoint insert_by (x : A) (l : list A) : list A :=
  match l with
  | [] => [x]
  | y :: l' => if key x <=? key y then x :: l else y :: insert_by x l'
  end.

(** [sorted(l, key=key)] *)
Definition sorted_by (l : list A) : list A := foldr insert_by [] l.

(** [heapq.nsmallest(n, l, key)] *)
Definition nsmallest (n : nat) (l : list A) : list A := take n (sorted_by l).

(** [RDD.reduce(f)] on the per-partition lists: [functools.reduce] from
    the left; no value at all is an error. *)
Definition reduce (f : list A -> list A -> list A) (vals : list (list A))
    : result (list A) :=
  match vals with
  | [] => Raise ValueError
  | v :: vs => Ok (foldl f v vs)
  end.

Definition takeOrdered (num : Z) (r : rdd A) : result (list A) :=
  if num <? 0 then Raise ValueError
  else if (num =? 0) || Nat.eqb (length r) 0 then Ok []
  else reduce (fun a b => nsmallest (Z.to_nat num) (a ++ b))
         (nsmallest (Z.to_nat num) <$> r).
End ordered.

(** [lambda x: -x[1]] *)
Definition by_count_desc {Str : Type} (x : Str * Z) : Z := - x.2.

(** [lyrics.reduceByKey(lambda x,y: x+y).takeOrdered(10, key=lambda x: -x[1])] *)
Definition top10 {Str : Type} `{EqDecision Str}
    (lower : Str -> Str) (split : Str -> list Str)
    (parallelism : option nat) (portable_hash : Str -> Z)
    (lyrics : rdd Str) : result (list (Str * Z)) :=
  takeOrdered by_count_desc 10
    (LowLevel.wordCount lower split parallelism portable_hash lyrics).

End Ordered.

(** ** main.ipynb: the null check

    [wine.select([F.count(F.when(F.isnull(c), c)).alias(c)
                  for c in wine.columns])]:
    one row; under the name of each column the number of rows in which the
    column is null ([F.when] yields the literal [c] where the column is null
    and null elsewhere, and [F.count] counts what is not null). *)

Module Checks.
Section checks.
Context {Cell : Type} `{EqDecision Cell}.
Variable null : Cell.
Variable count_cell : nat -> Cell.
Variable caseSensitive : bool.

Definition null_count (i : nat) (rs : list (list Cell)) : nat :=
  length (List.filter (fun r => bool_decide (nth i r null = null)) rs).

Definition null_counts (df : SQL.DataFrame Cell) : result (SQL.DataFrame Cell) :=
  idxs ← mapM (fun c => SQL.resolve caseSensitive c (SQL.columns df))
              (SQL.columns df);
  Ok {| SQL.columns := SQL.columns df;
        SQL.rows := [(fun i => count_cell (null_count i (SQL.rows df))) <$> idxs] |}.
End checks.
End Checks.

(** ** lowLevelAPI.ipynb: [take]

    [rdd.take(num)] scans the partitions in batches until it has [num]
    elements or no partition is left.  The first batch is one partition;
    later batches are [partsScanned * 4] partitions when nothing was found
    and otherwise an estimate, kept between 1 and [partsScanned * 4].
    Every partition of a batch gives at most [num - len(items)] elements,
    and the result is [items[:num]]. *)

Module Actions.
Section take.
Context {A : Type}.

(** [estimate num partsScanned found] stands for
    [int(1.5 * num * partsScanned / len(items)) - partsScanned]. *)
Variable estimate : nat -> nat -> nat -> Z.

Definition numPartsToTry (num partsScanned found : nat) : nat :=
  if Nat.eqb partsScanned 0 then 1%nat
  else if Nat.eqb found 0 then (partsScanned * 4)%nat
  else Z.to_nat (Z.min (Z.max (estimate num partsScanned found) 1)
                       (Z.of_nat (partsScanned * 4))).

(** [runJob(self, takeUpToNumLeft, range(first, last))] *)
Definition takeUpToNumLeft (left first last : nat) (r : rdd A) : list A :=
  concat (firstn left <$> firstn (last - first) (skipn first r)).

(** The [while] loop; it runs at most once per partition. *)
Fixpoint take_loop (fuel num : nat) (r : rdd A) (items : list A)
    (partsScanned : nat) : list A :=
  match fuel with
  | O => items
  | S fuel' =>
      if (length items <? num)%nat && (partsScanned <? length r)%nat then
        let n := numPartsToTry num partsScanned (length items) in
        let left := (num - length items)%nat in
        let res := takeUpToNumLeft left partsScanned
                     (Nat.min (partsScanned + n) (length r)) r in
        take_loop fuel' num r (items ++ res) (partsScanned + n)
      else items
  end.

Definition take (num : nat) (r : rdd A) : list A :=
  firstn num (take_loop (length r) num r [] 0).
End take.
End Actions.

(** * Properties *)

(** ** Recorded notebook outputs replayed on the model *)

Example lower_line :
  Py.lower "Heroes in a Half-shell Turtle Power" = "heroes in a half-shell turtle power".
Proof. reflexivity. Qed.

Example split_line :
  Py.split "heroes in a  half-shell turtle power " =
  ["heroes"; "in"; "a"; "half-shell"; "turtle"; "power"].
Proof. reflexivity. Qed.

Example str_int : Py.str 10 = "10" /\ Py.str (-3) = "-3".
Proof. split; vm_compute; reflexivity. Qed.

(** [rdd.take(5)] *)
Example take_5 : RDD.take 5 LowLevel.rdd0 = [1; 2; 3; 4; 5].
Proof. reflexivity. Qed.

(** [rdd.filter(lambda x: x%2 == 0).collect()] *)
Example filter_even :
  RDD.collect (RDD.filter LowLevel.is_even LowLevel.rdd0) = [2; 4; 6; 8; 10].
Proof. reflexivity. Qed.

(** [rdd.map(lambda x: (x, str(x))).take(5)] *)
Example map_with_str :
  RDD.take 5 (RDD.map LowLevel.with_str LowLevel.rdd0) =
  [(1, "1"); (2, "2"); (3, "3"); (4, "4"); (5, "5")].
Proof. vm_compute. reflexivity. Qed.

(** [rdd.flatMap(lambda x: (x, str(x))).take(6)] *)
Example flatMap_with_str :
  RDD.take 6 (RDD.flatMap LowLevel.with_str_items LowLevel.rdd0) =
  [Py.PyInt 1; Py.PyStr "1"; Py.PyInt 2; Py.PyStr "2"; Py.PyInt 3; Py.PyStr "3"].
Proof. vm_compute. reflexivity. Qed.

(** ** Key-wise reduction *)

Module ByKey.
Section totals.
Context {K : Type} `{EqDecision K}.
Implicit Types (k : K) (d l : list (K * Z)).

Lemma total_nil k : RDD.total k [] = 0.
Proof. reflexivity. Qed.

Lemma total_cons k k' v l :
  RDD.total k ((k', v) :: l) = (if decide (k' = k) then v else 0) + RDD.total k l.
Proof.
  unfold RDD.total, RDD.values_of. simpl.
  destruct (decide (k' = k)) as [Heq|Hne].
  - rewrite bool_decide_eq_true_2 by done. reflexivity.
  - rewrite bool_decide_eq_false_2 by done. reflexivity.
Qed.

Lemma total_app k l1 l2 :
  RDD.total k (l1 ++ l2) = RDD.total k l1 + RDD.total k l2.
Proof.
  induction l1 as [|[k' v] l1 IH]; simpl.
  - rewrite total_nil. lia.
  - rewrite !total_cons, IH. lia.
Qed.

Lemma total_absent k l : k ∉ l.*1 -> RDD.total k l = 0.
Proof.
  induction l as [|[k' v] l IH]; intros Hk; [done|].
  rewrite total_cons. simpl in Hk.
  apply not_elem_of_cons in Hk as [Hne Hk].
  rewrite decide_False by congruence. rewrite IH by done. lia.
Qed.

Lemma total_unique k v d : NoDup d.*1 -> (k, v) ∈ d -> RDD.total k d = v.
Proof.
  induction d as [|[k' v'] d IH]; intros Hnd Hin.
  - by apply elem_of_nil in Hin.
  - simpl in Hnd. apply NoDup_cons in Hnd as [Hfresh Hnd].
    rewrite total_cons. apply elem_of_cons in Hin as [Heq|Hin].
    + injection Heq as -> ->. rewrite decide_True by done.
      rewrite total_absent by done. lia.
    + rewrite decide_False.
      * rewrite IH by done. lia.
      * intros ->. apply Hfresh. by apply (list_elem_of_fmap_2 fst) in Hin.
Qed.

Lemma total_bucket n (pf : K -> Z) j k l :
  RDD.total k (List.filter (fun kc => Nat.eqb (RDD.bucket n pf kc.1) j) l) =
  if decide (RDD.bucket n pf k = j) then RDD.total k l else 0.
Proof.
  induction l as [|[k' v] l IH]; simpl.
  - by case_decide.
  - destruct (Nat.eqb_spec (RDD.bucket n pf k') j) as [Hb|Hb];
      rewrite ?total_cons, IH; simpl;
      repeat case_decide; subst; try lia; congruence.
Qed.

(** The dictionary update. *)
Lemma upsert_keys {C} (d : list (K * C)) k new upd :
  (RDD.upsert d k new upd).*1 =
  if decide (k ∈ d.*1) then d.*1 else d.*1 ++ [k].
Proof.
  induction d as [|[k' c] d IH]; csimpl; [done|].
  destruct (decide (k' = k)) as [->|Hne]; csimpl.
  - rewrite decide_True; [done|]. apply elem_of_cons. by left.
  - rewrite IH. destruct (decide (k ∈ d.*1)) as [Hin|Hnin].
    + rewrite decide_True; [done|]. apply elem_of_cons. by right.
    + rewrite decide_False; [done|].
      intros [?|?]%elem_of_cons; [congruence|done].
Qed.

Lemma upsert_NoDup {C} (d : list (K * C)) k new upd :
  NoDup d.*1 -> NoDup (RDD.upsert d k new upd).*1.
Proof.
  intros Hnd. rewrite upsert_keys. case_decide; [done|].
  apply NoDup_app. split; [done|]. split.
  - intros x Hx Hx'. apply list_elem_of_singleton in Hx'. by subst.
  - apply NoDup_singleton.
Qed.

Lemma upsert_elem_of_keys {C} (d : list (K * C)) k new upd k' :
  k' ∈ (RDD.upsert d k new upd).*1 <-> k' ∈ d.*1 \/ k' = k.
Proof.
  rewrite upsert_keys. case_decide.
  - split; [by left|]. intros [? | ->]; done.
  - rewrite elem_of_app, list_elem_of_singleton. done.
Qed.

Lemma total_upsert d k v k' :
  RDD.total k' (RDD.upsert d k v (fun c => LowLevel.add c v)) =
  RDD.total k' d + (if decide (k = k') then v else 0).
Proof.
  unfold LowLevel.add.
  induction d as [|[k0 c] d IH]; simpl.
  - rewrite total_cons, total_nil. lia.
  - destruct (decide (k0 = k)) as [->|Hne].
    + rewrite !total_cons. case_decide; lia.
    + rewrite !total_cons, IH. lia.
Qed.

(** Merging a run of pairs into a dictionary. *)
Lemma merge_total d l k :
  RDD.total k (foldl LowLevel.add_pair d l) = RDD.total k d + RDD.total k l.
Proof.
  revert d. induction l as [|[k' v] l IH]; intros d; simpl.
  - rewrite total_nil. lia.
  - rewrite IH. unfold LowLevel.add_pair. simpl. rewrite total_upsert, total_cons. lia.
Qed.

Lemma merge_NoDup d l : NoDup d.*1 -> NoDup (foldl LowLevel.add_pair d l).*1.
Proof.
  revert d. induction l as [|kv l IH]; intros d Hd; simpl; [done|].
  apply IH. by apply upsert_NoDup.
Qed.

Lemma merge_keys d l k : k ∈ (foldl LowLevel.add_pair d l).*1 <-> k ∈ d.*1 \/ k ∈ l.*1.
Proof.
  revert d. induction l as [|[k' v] l IH]; intros d; simpl.
  - split; [by left|]. intros [?|Hk]; [done|]. by apply elem_of_nil in Hk.
  - rewrite IH. unfold LowLevel.add_pair. rewrite upsert_elem_of_keys, elem_of_cons.
    simpl. tauto.
Qed.

Lemma mergeValues_add l : RDD.mergeValues (fun x => x) LowLevel.add l = foldl LowLevel.add_pair [] l.
Proof. reflexivity. Qed.

Lemma mergeCombiners_add l : RDD.mergeCombiners LowLevel.add l = foldl LowLevel.add_pair [] l.
Proof. reflexivity. Qed.

Lemma locally_combined_total k (r : rdd (K * Z)) :
  RDD.total k (concat (List.map (foldl LowLevel.add_pair []) r)) = RDD.total k (concat r).
Proof.
  induction r as [|p r IH]; simpl; [done|].
  rewrite !total_app, merge_total, total_nil, IH. lia.
Qed.

Lemma locally_combined_keys k (r : rdd (K * Z)) :
  k ∈ (concat (List.map (foldl LowLevel.add_pair []) r)).*1 <-> k ∈ (concat r).*1.
Proof.
  induction r as [|p r IH]; simpl; [done|].
  rewrite !fmap_app, !elem_of_app, merge_keys, IH. simpl.
  rewrite elem_of_nil. tauto.
Qed.

Lemma bucket_keys n (pf : K -> Z) j k l :
  k ∈ (List.filter (fun kc => Nat.eqb (RDD.bucket n pf kc.1) j) l).*1 <->
  RDD.bucket n pf k = j /\ k ∈ l.*1.
Proof.
  induction l as [|[k' v] l IH]; csimpl.
  - rewrite elem_of_nil. tauto.
  - destruct (Nat.eqb_spec (RDD.bucket n pf k') j) as [Hb|Hb]; csimpl;
      rewrite ?elem_of_cons, IH; intuition congruence.
Qed.

Lemma bucket_lt n (pf : K -> Z) k : n ≠ 0%nat -> (RDD.bucket n pf k < n)%nat.
Proof.
  intros Hn. unfold RDD.bucket.
  pose proof (Z.mod_pos_bound (pf k) (Z.of_nat n)). lia.
Qed.

(** Partitions that hold disjoint keys collect to distinct keys. *)
Lemma NoDup_tagged (f : nat -> list (K * Z)) (tag : K -> nat) js :
  NoDup js ->
  (forall j, NoDup (f j).*1) ->
  (forall j k, k ∈ (f j).*1 -> tag k = j) ->
  NoDup (concat (List.map f js)).*1.
Proof.
  intros Hjs Hnd Htag. induction Hjs as [|j js Hj Hjs IH]; simpl.
  - apply NoDup_nil_2.
  - rewrite fmap_app. apply NoDup_app. split; [apply Hnd|]. split; [|done].
    intros k Hk Hk'. apply Htag in Hk.
    apply list_elem_of_fmap_1 in Hk' as [[k0 v] [-> Hin]].
    apply list_elem_of_In, in_concat in Hin as [p [Hp Hin]].
    apply in_map_iff in Hp as [j' [<- Hj']].
    apply list_elem_of_In in Hin, Hj'.
    apply (list_elem_of_fmap_2 fst) in Hin. apply Htag in Hin.
    simpl in *. congruence.
Qed.

(** What [reduceByKey(lambda x,y: x+y)] collects: every key once, with
    the sum of its values. *)
Lemma reduceByKey_add_spec n (pf : K -> Z) (r : rdd (K * Z)) :
  n ≠ 0%nat ->
  NoDup (RDD.collect (RDD.reduceByKey LowLevel.add n pf r)).*1 /\
  forall k v,
    (k, v) ∈ RDD.collect (RDD.reduceByKey LowLevel.add n pf r) <->
    k ∈ (RDD.collect r).*1 /\ v = RDD.total k (RDD.collect r).
Proof.
  intros Hn.
  set (L := concat (List.map (foldl LowLevel.add_pair []) r)).
  set (f := fun j => foldl LowLevel.add_pair []
              (List.filter (fun kc : K * Z => Nat.eqb (RDD.bucket n pf kc.1) j) L)).
  assert (Hout : RDD.collect (RDD.reduceByKey LowLevel.add n pf r)
                 = concat (List.map f (seq 0 n))).
  { unfold RDD.collect, RDD.reduceByKey, RDD.combineByKey, RDD.partitionBy.
    rewrite List.map_map. reflexivity. }
  rewrite Hout. unfold RDD.collect.
  assert (Hfk : forall j k, k ∈ (f j).*1 <-> RDD.bucket n pf k = j /\ k ∈ (concat r).*1).
  { intros j k. unfold f. rewrite merge_keys, bucket_keys. unfold L.
    rewrite locally_combined_keys. simpl. rewrite elem_of_nil. tauto. }
  assert (Hfnd : forall j, NoDup (f j).*1).
  { intros j. apply merge_NoDup. apply NoDup_nil_2. }
  assert (Hft : forall j k, RDD.bucket n pf k = j -> RDD.total k (f j) = RDD.total k (concat r)).
  { intros j k Hb. unfold f. rewrite merge_total, total_nil, total_bucket.
    rewrite decide_True by done. unfold L. rewrite locally_combined_total. lia. }
  split.
  - apply (NoDup_tagged f (RDD.bucket n pf)); [apply NoDup_seq|done|].
    intros j k Hk. by apply Hfk in Hk as [? _].
  - intros k v. split.
    + intros Hin. apply list_elem_of_In, in_concat in Hin as [p [Hp Hin]].
      apply in_map_iff in Hp as [j [<- Hj]]. apply list_elem_of_In in Hin.
      pose proof (list_elem_of_fmap_2 fst _ _ Hin) as Hk. simpl in Hk.
      apply Hfk in Hk as [Hb Hk]. split; [done|].
      rewrite <- (Hft j k Hb). symmetry. by apply total_unique.
    + intros [Hk ->].
      assert (Hkj : k ∈ (f (RDD.bucket n pf k)).*1) by (apply Hfk; done).
      apply list_elem_of_fmap_1 in Hkj as [[k0 v] [Heq Hin]]. simpl in Heq. subst k0.
      assert (v = RDD.total k (concat r)) as <-.
      { rewrite <- (Hft _ k eq_refl). symmetry. by apply total_unique. }
      apply list_elem_of_In, in_concat. exists (f (RDD.bucket n pf k)). split.
      * apply in_map_iff. exists (RDD.bucket n pf k). split; [done|].
        apply in_seq. pose proof (bucket_lt n pf k Hn). lia.
      * by apply list_elem_of_In.
Qed.

End totals.
End ByKey.

(** ** The word count of lowLevelAPI.ipynb *)

Module WordCount.

Lemma collect_map {A B} (f : A -> B) (r : rdd A) :
  RDD.collect (RDD.map f r) = List.map f (RDD.collect r).
Proof. unfold RDD.collect, RDD.map. symmetry. apply concat_map. Qed.

Lemma collect_flatMap {A B} (f : A -> list B) (r : rdd A) :
  RDD.collect (RDD.flatMap f r) = flat_map f (RDD.collect r).
Proof.
  unfold RDD.collect, RDD.flatMap.
  induction r as [|p r IH]; simpl; [done|].
  by rewrite flat_map_app, IH.
Qed.

Lemma collect_filter {A} (f : A -> bool) (r : rdd A) :
  RDD.collect (RDD.filter f r) = List.filter f (RDD.collect r).
Proof.
  unfold RDD.collect, RDD.filter.
  induction r as [|p r IH]; simpl; [done|].
  by rewrite List.filter_app, IH.
Qed.

Lemma sum_Permutation (l1 l2 : list Z) :
  l1 ≡ₚ l2 -> foldr Z.add 0 l1 = foldr Z.add 0 l2.
Proof. induction 1; simpl; lia. Qed.

Lemma values_of_Permutation {K V} `{EqDecision K} (k : K) (l1 l2 : list (K * V)) :
  l1 ≡ₚ l2 -> RDD.values_of k l1 ≡ₚ RDD.values_of k l2.
Proof.
  unfold RDD.values_of.
  induction 1 as [|x l1 l2 Hp IH|x y l|l1 l2 l3 _ IH1 _ IH2]; simpl.
  - done.
  - destruct (bool_decide _); simpl; [by constructor|done].
  - destruct (bool_decide (y.1 = k)), (bool_decide (x.1 = k)); simpl;
      try done. apply perm_swap.
  - by etrans.
Qed.

Lemma sum_app (a b : list Z) :
  foldr Z.add 0 (a ++ b) = foldr Z.add 0 a + foldr Z.add 0 b.
Proof. induction a as [|x a IH]; simpl; lia. Qed.

Lemma combine_add_sum (g : LowLevel.grouping) :
  LowLevel.combine LowLevel.add g = foldr Z.add 0 (LowLevel.leaves g).
Proof.
  induction g as [v|l IHl r IHr]; simpl.
  - lia.
  - rewrite sum_app, IHl, IHr. reflexivity.
Qed.

Section pipeline.
Context {Str : Type} `{EqDecision Str}.
Variable lower : Str -> Str.
Variable split : Str -> list Str.

(** The pairs that reach [reduceByKey] are the tokens, each with a 1. *)
Lemma collect_lyrics3 (lyrics : rdd Str) :
  RDD.collect (LowLevel.lyrics3 lower split lyrics) =
  List.map (fun x => (x, 1)) (LowLevel.tokens lower split lyrics).
Proof.
  unfold LowLevel.lyrics3, LowLevel.lyrics2, LowLevel.lyrics1, LowLevel.tokens.
  by rewrite collect_map, collect_flatMap, collect_map.
Qed.

Lemma keys_pair_one (l : list Str) : (List.map (fun x => (x, 1)) l).*1 = l.
Proof. induction l as [|x l IH]; csimpl; [done|]. by rewrite IH. Qed.

Lemma total_pair_one (t : Str) (l : list Str) :
  RDD.total t (List.map (fun x => (x, 1)) l) = LowLevel.occurrences t l.
Proof.
  induction l as [|x l IH]; simpl; [done|].
  by rewrite ByKey.total_cons, IH.
Qed.

(** C1.  For every corpus, however it is partitioned, the collected
    [wordCount] has no token twice, holds the pair (t, n) for every token
    [t] of the lower-cased, whitespace-split corpus with [n] the number of
    occurrences of [t], and holds no other pair.  (A configured
    [spark.default.parallelism] must not be zero.) *)
Theorem C1_wordCount_counts_every_token
    (parallelism : option nat) (portable_hash : Str -> Z)
    (lyrics : rdd Str) :
  parallelism ≠ Some 0%nat ->
  NoDup (RDD.collect (LowLevel.wordCount lower split parallelism portable_hash lyrics)).*1 /\
  (forall t, t ∈ LowLevel.tokens lower split lyrics ->
     (t, LowLevel.occurrences t (LowLevel.tokens lower split lyrics))
       ∈ RDD.collect (LowLevel.wordCount lower split parallelism portable_hash lyrics)) /\
  (forall t n,
     (t, n) ∈ RDD.collect (LowLevel.wordCount lower split parallelism portable_hash lyrics) ->
     t ∈ LowLevel.tokens lower split lyrics /\
     n = LowLevel.occurrences t (LowLevel.tokens lower split lyrics)).
Proof.
  intros Hpar. unfold LowLevel.wordCount.
  set (n := RDD.defaultReducePartitions parallelism (LowLevel.lyrics3 lower split lyrics)).
  destruct (decide (n = 0%nat)) as [Hz|Hnz].
  - (* no partition at all: nothing to count and nothing counted *)
    assert (Hnil : lyrics = []).
    { unfold n, RDD.defaultReducePartitions in Hz.
      destruct parallelism as [m|]; [congruence|].
      unfold LowLevel.lyrics3, LowLevel.lyrics2, LowLevel.lyrics1,
        RDD.map, RDD.flatMap in Hz.
      rewrite !length_map in Hz. by destruct lyrics. }
    rewrite Hz. subst lyrics. cbn. split; [apply NoDup_nil_2|].
    split; intros t; [intros Ht|intros m Ht]; by apply elem_of_nil in Ht.
  - destruct (ByKey.reduceByKey_add_spec n portable_hash
                (LowLevel.lyrics3 lower split lyrics) Hnz) as [Hnd Hin].
    split; [done|].
    split.
    + intros t Ht. apply Hin. rewrite collect_lyrics3, keys_pair_one.
      split; [done|]. by rewrite total_pair_one.
    + intros t m Htm. apply Hin in Htm as [Ht ->].
      rewrite collect_lyrics3, keys_pair_one in Ht.
      split; [done|]. by rewrite collect_lyrics3, total_pair_one.
Qed.

End pipeline.

(** The five lines printed by [lyrics.take(5)], counted. *)
Example wordCount_first_lines :
  RDD.collect
    (LowLevel.wordCount Py.lower Py.split None
       (fun s => Z.of_nat (String.length s))
       [[ "Teenage Mutant Ninja Turtles"; "Teenage Mutant Ninja Turtles";
          "Teenage Mutant Ninja Turtles";
          "Heroes in a Half-shell Turtle Power"; "Here we go" ]])
  = [ ("teenage", 3); ("mutant", 3); ("ninja", 3); ("turtles", 3);
      ("heroes", 1); ("in", 1); ("a", 1); ("half-shell", 1); ("turtle", 1);
      ("power", 1); ("here", 1); ("we", 1); ("go", 1) ].
Proof. vm_compute. reflexivity. Qed.

Lemma C1_wordCount_witness :
  None ≠ Some 0%nat /\
  (("ninja", 2) ∈ RDD.collect
     (LowLevel.wordCount Py.lower Py.split None
        (fun s => Z.of_nat (String.length s))
        [["Teenage Mutant Ninja Turtles"]; ["Ninja team"]])).
Proof.
  split; [done|].
  apply (proj1 (proj2 (C1_wordCount_counts_every_token Py.lower Py.split None
           (fun s => Z.of_nat (String.length s))
           [["Teenage Mutant Ninja Turtles"]; ["Ninja team"]] ltac:(done)))
           "ninja").
  vm_compute. repeat first [apply list_elem_of_here | apply list_elem_of_further].
Defined.

(** C10.  [lambda x,y: x+y] is commutative and associative; hence
    [reduceByKey] collects the same pairs whatever the partitioning, the
    number of reduce partitions, the hash and the order of the elements,
    and the value of a key is what any order and any grouping of its
    values combines to. *)
Theorem C10_reduceByKey_add_order_independent
    (x y z : Z) (n1 n2 : nat) (pf1 pf2 : string -> Z)
    (r1 r2 : rdd (string * Z)) (k : string) (v : Z) (g : LowLevel.grouping) :
  n1 ≠ 0%nat -> n2 ≠ 0%nat ->
  RDD.collect r1 ≡ₚ RDD.collect r2 ->
  LowLevel.add x y = LowLevel.add y x /\
  LowLevel.add x (LowLevel.add y z) = LowLevel.add (LowLevel.add x y) z /\
  RDD.collect (RDD.reduceByKey LowLevel.add n1 pf1 r1)
    ≡ₚ RDD.collect (RDD.reduceByKey LowLevel.add n2 pf2 r2) /\
  ((k, v) ∈ RDD.collect (RDD.reduceByKey LowLevel.add n1 pf1 r1) ->
   LowLevel.leaves g ≡ₚ RDD.values_of k (RDD.collect r2) ->
   LowLevel.combine LowLevel.add g = v).
Proof.
  intros Hn1 Hn2 Hperm.
  destruct (ByKey.reduceByKey_add_spec n1 pf1 r1 Hn1) as [Hnd1 Hin1].
  destruct (ByKey.reduceByKey_add_spec n2 pf2 r2 Hn2) as [Hnd2 Hin2].
  assert (Htot : forall k', RDD.total k' (RDD.collect r1) = RDD.total k' (RDD.collect r2)).
  { intros k'. unfold RDD.total. apply sum_Permutation.
    by apply values_of_Permutation. }
  split; [unfold LowLevel.add; lia|].
  split; [unfold LowLevel.add; lia|].
  split.
  - apply NoDup_Permutation.
    + by apply (NoDup_fmap_1 fst).
    + by apply (NoDup_fmap_1 fst).
    + intros [k' v']. rewrite Hin1, Hin2, Htot.
      assert ((RDD.collect r1).*1 ≡ₚ (RDD.collect r2).*1) as -> by by rewrite Hperm.
      done.
  - intros Hkv Hg. apply Hin1 in Hkv as [_ ->].
    rewrite combine_add_sum, Htot. unfold RDD.total. by apply sum_Permutation.
Qed.

Lemma C10_reduceByKey_witness :
  RDD.collect
    (RDD.reduceByKey LowLevel.add 2 (fun s => Z.of_nat (String.length s))
       [[("a", 1); ("the", 1)]; [("the", 1); ("a", 1); ("the", 1)]])
  ≡ₚ RDD.collect
    (RDD.reduceByKey LowLevel.add 3 (fun _ => 7)
       [[("the", 1); ("a", 1); ("the", 1); ("a", 1); ("the", 1)]]).
Proof.
  refine (proj1 (proj2 (proj2
    (C10_reduceByKey_add_order_independent 1 2 3 2 3
       (fun s => Z.of_nat (String.length s)) (fun _ => 7)
       [[("a", 1); ("the", 1)]; [("the", 1); ("a", 1); ("the", 1)]]
       [[("the", 1); ("a", 1); ("the", 1); ("a", 1); ("the", 1)]]
       "the" 3 (LowLevel.Both (LowLevel.One 1)
                  (LowLevel.Both (LowLevel.One 1) (LowLevel.One 1)))
       _ _ _)))); [done|done|].
  cbn. apply (Permutation_app_comm [("a", 1); ("the", 1)] [("the", 1); ("a", 1); ("the", 1)]).
Defined.

End WordCount.

(** ** Transformations leave their source alone *)

Module Immutable.
Import Lineage.

Lemma eval_all_snoc e nodes nd :
  eval_all e (nodes ++ [nd]) =
  eval_all e nodes ++ [eval_node e (eval_all e nodes) nd].
Proof. unfold eval_all. by rewrite foldl_app. Qed.

Lemma eval_all_length e nodes : length (eval_all e nodes) = length nodes.
Proof.
  induction nodes as [|nd nodes IH] using rev_ind; [done|].
  rewrite eval_all_snoc, !length_app, IH. done.
Qed.



Lemma mapM_total {A B} (f : A -> B) (l : list A) :
  mapM (fun x => Some (f x)) l = Some (List.map f l).
Proof. apply mapM_Some_2. induction l; simpl; by constructor. Qed.

Lemma mapM_raises {A B} (f : A -> option B) (l : list A) x :
  x ∈ l -> f x = None -> mapM f l = None.
Proof. intros Hx Hf. apply mapM_None_2, Exists_exists. eauto. Qed.

Lemma mapM_partitions_total {A B} (f : A -> B) (r : rdd A) :
  mapM (mapM (fun x => Some (f x))) r = Some (RDD.map f r).
Proof.
  apply mapM_Some_2. unfold RDD.map.
  induction r; simpl; constructor; [apply mapM_total|done].
Qed.

Lemma mapM_partitions_raises {A B} (f : A -> option B) (r : rdd A) x :
  x ∈ concat r -> f x = None -> mapM (mapM f) r = None.
Proof.
  intros Hx Hf. apply mapM_None_2, Exists_exists.
  apply list_elem_of_In, in_concat in Hx as [p [Hp Hx]].
  exists p. split; [by apply list_elem_of_In|].
  apply (mapM_raises f p x); [by apply list_elem_of_In|done].
Qed.

Lemma filter_tagged {A} (p : A -> bool) (l : list A) :
  List.map fst (List.filter snd (List.map (fun x => (x, p x)) l)) = List.filter p l.
Proof.
  induction l as [|x l IH]; simpl; [done|].
  destruct (p x); simpl; by rewrite IH.
Qed.

(** *** What a transformation call adds to the context *)






(** *** The shuffle on Python values

    The combiners of [reduceByKey] are results of calls of the function;
    with a function that does not raise they are the combiners of the
    plain reduction. *)

Section shuffle.
Context {K V C C' : Type} `{EqDecision K}.
Variable h : C -> C'.





End shuffle.






(** The derived collections of the cells, computed from the lineage. *)
Example filter_cell :
  collect env0 (chain rdd_cells sc0) 1 = Some (Py.PyInt <$> [2; 4; 6; 8; 10]).
Proof. vm_compute. reflexivity. Qed.

Example flatMap_cell :
  firstn 6 <$> collect env0 (chain rdd_cells sc0) 4 =
  Some [Py.PyInt 1; Py.PyStr "1"; Py.PyInt 2; Py.PyStr "2"; Py.PyInt 3; Py.PyStr "3"].
Proof. vm_compute. reflexivity. Qed.

End Immutable.

(** ** The data-frame cells of main.ipynb *)

Module Frames.
Section frames.
Context {Cell : Type} `{EqDecision Cell}.
Variable null : Cell.
Variable parse_field : list (list string) -> nat -> string -> Cell.
Variable avg : list Cell -> Cell.
Variable round : Cell -> Z -> Cell.
Variable cell_leb : Cell -> Cell -> bool.
Variable count_cell : nat -> Cell.

(** *** Duplicate rows *)

Lemma remove_dups_length_le {A} `{EqDecision A} (l : list A) :
  (length (remove_dups l) <= length l)%nat.
Proof.
  induction l as [|x l IH]; simpl; [done|].
  case_decide; simpl; lia.
Qed.

Lemma remove_dups_NoDup_id {A} `{EqDecision A} (l : list A) :
  NoDup l -> remove_dups l = l.
Proof.
  induction 1 as [|x l Hx Hl IH]; simpl; [done|].
  case_decide; [done|]. by rewrite IH.
Qed.

Lemma remove_dups_same_length {A} `{EqDecision A} (l : list A) :
  length (remove_dups l) = length l <-> NoDup l.
Proof.
  split; [|intros Hl; by rewrite remove_dups_NoDup_id].
  induction l as [|x l IH]; simpl; [intros; apply NoDup_nil_2|].
  case_decide as Hx; simpl; intros Hlen.
  - pose proof (remove_dups_length_le l). lia.
  - apply NoDup_cons. split; [done|]. apply IH. lia.
Qed.

(** C2.  The duplicate check raises [AssertionError] exactly when the
    frame has a duplicate row, that is when the count before and after
    [dropDuplicates] differ; otherwise it passes and [wine] is what it
    was.  In the run of the data cells an [AssertionError] comes from this
    check and from nowhere else. *)
Theorem C2_duplicate_check_raises_iff_duplicates
    (caseSensitive : bool) (wine : SQL.DataFrame Cell)
    (records : list (list string)) :
  Main.check_duplicates wine =
    (if decide (NoDup (SQL.rows wine)) then Ok wine else Raise AssertionError) /\
  (SQL.count wine ≠ SQL.count (SQL.dropDuplicates wine) <->
   ¬ NoDup (SQL.rows wine)) /\
  (Main.data_cells null parse_field avg round cell_leb count_cell
     caseSensitive records = Raise AssertionError <->
   exists w, Main.read_wine null parse_field records = Ok w /\
             ¬ NoDup (SQL.rows w)).
Proof.
  assert (Hcheck : forall w : SQL.DataFrame Cell, Main.check_duplicates w =
    (if decide (NoDup (SQL.rows w)) then Ok w else Raise AssertionError)).
  { intros w. unfold Main.check_duplicates, SQL.count, SQL.dropDuplicates. simpl.
    destruct (decide (NoDup (SQL.rows w))) as [Hnd|Hnd].
    - rewrite remove_dups_NoDup_id by done. by rewrite Nat.eqb_refl.
    - destruct (Nat.eqb_spec (length (SQL.rows w))
                  (length (remove_dups (SQL.rows w)))) as [Heq|Hne]; [|done].
      exfalso. apply Hnd. by apply remove_dups_same_length. }
  split; [apply Hcheck|]. split.
  - unfold SQL.count, SQL.dropDuplicates. simpl.
    rewrite <- remove_dups_same_length. split; intros Hne Heq; by apply Hne.
  - unfold Main.data_cells.
    destruct (Main.read_wine null parse_field records) as [w|e] eqn:Hread.
    + cbn [mbind result_bind]. rewrite Hcheck.
      destruct (decide (NoDup (SQL.rows w))) as [Hnd|Hnd].
      * cbn [mbind result_bind]. split.
        -- intros Hraise. exfalso.
           unfold Main.sql_valueCounts, SQL.sql_count_by,
             Main.sql_avgAlcohol, SQL.sql_round_avg_by, Main.api_avgAlcohol,
             SQL.select, SQL.groupBy, SQL.agg_round_avg, SQL.orderBy, SQL.table,
             SQL.resolve in Hraise.
           repeat (match type of Hraise with
                   | context [match ?x with _ => _ end] => destruct x
                   end; cbn in Hraise; try discriminate).
        -- intros (w' & Hw' & Hdup). by injection Hw' as <-.
      * split; [|done]. intros _. by exists w.
    + cbn [mbind result_bind]. split.
      * intros Hraise. exfalso. injection Hraise as ->.
        unfold Main.read_wine, SQL.toDF in Hread. by case_decide.
      * intros (w' & Hw' & _). done.
Qed.

(** *** Reading the file *)

Lemma parse_record_exact data (record : list string) :
  SQL.parse_record null parse_field data (length record) record =
  imap (parse_field data) record.
Proof.
  unfold SQL.parse_record.
  rewrite firstn_all, Nat.sub_diag. simpl. by rewrite app_nil_r.
Qed.

Lemma read_wine_succeeds (first : list string) (rest : list (list string)) :
  length first = 14%nat ->
  Main.read_wine null parse_field (first :: rest) =
    Ok {| SQL.columns := Main.colNames;
          SQL.rows := SQL.parse_record null parse_field (first :: rest) 14
                        <$> (first :: rest) |}.
Proof.
  intros Hlen. unfold Main.read_wine, SQL.toDF, SQL.csv.
  cbn [SQL.columns SQL.rows].
  unfold SQL.default_names. rewrite length_fmap, length_seq, Hlen.
  rewrite decide_True by done. reflexivity.
Qed.

Lemma read_wine_inv (records : list (list string)) (wine : SQL.DataFrame Cell) :
  Main.read_wine null parse_field records = Ok wine ->
  exists first rest,
    records = first :: rest /\ length first = 14%nat /\
    wine = {| SQL.columns := Main.colNames;
              SQL.rows := SQL.parse_record null parse_field records 14
                            <$> records |}.
Proof.
  intros Hread. destruct records as [|first rest].
  - unfold Main.read_wine, SQL.toDF in Hread. by case_decide.
  - assert (Hlen : length first = 14%nat).
    { unfold Main.read_wine, SQL.toDF, SQL.csv in Hread.
      cbn [SQL.columns] in Hread. case_decide as Hl; [|done].
      unfold SQL.default_names in Hl. rewrite length_fmap, length_seq in Hl.
      by rewrite <- Hl. }
    exists first, rest. split; [done|]. split; [done|].
    rewrite read_wine_succeeds in Hread by done. by injection Hread as <-.
Qed.

Lemma insert_row_length i (r : list Cell) (sorted : list (list Cell)) :
  length (SQL.insert_row null cell_leb i r sorted) = S (length sorted).
Proof.
  induction sorted as [|r' s IH]; simpl; [done|].
  destruct (cell_leb _ _); simpl; by rewrite ?IH.
Qed.

Lemma sort_rows_length i (rs : list (list Cell)) :
  length (SQL.sort_rows null cell_leb i rs) = length rs.
Proof.
  unfold SQL.sort_rows. induction rs as [|r rs IH]; simpl; [done|].
  by rewrite insert_row_length, IH.
Qed.

(** The count query returns one row per distinct label. *)
Lemma valueCounts_rows (caseSensitive : bool) (wine counts : SQL.DataFrame Cell) :
  SQL.columns wine = Main.colNames ->
  Main.sql_valueCounts null cell_leb count_cell caseSensitive
    (Main.register_wine caseSensitive (Main.rename_od280 caseSensitive wine) ∅)
  = Ok counts ->
  SQL.count counts =
  length (remove_dups ((fun r => nth 0 r null) <$> SQL.rows wine)).
Proof.
  intros Hcols.
  unfold Main.sql_valueCounts, SQL.sql_count_by, Main.register_wine,
    SQL.createOrReplaceTempView, SQL.table.
  rewrite lookup_insert_eq. cbn [mbind result_bind].
  unfold Main.rename_od280, SQL.withColumnRenamed. cbn [SQL.columns SQL.rows].
  rewrite Hcols.
  assert (Hres : SQL.resolve caseSensitive "target"
            ((fun c => if SQL.resolver caseSensitive c
                            "od280_od315_of_diluted_wines"
                       then "od280" else c) <$> Main.colNames) = Ok 0%nat)
    by (by destruct caseSensitive).
  rewrite Hres. cbn [mbind result_bind]. unfold SQL.orderBy.
  cbn [SQL.columns SQL.rows].
  assert (Hord : SQL.resolve caseSensitive "target" ["target"; "valueCounts"]
                 = Ok 0%nat) by (by destruct caseSensitive).
  rewrite Hord. cbn [mbind result_bind]. intros [= <-].
  unfold SQL.count. cbn [SQL.rows].
  rewrite sort_rows_length. unfold SQL.aggregate_count, SQL.group_keys.
  by rewrite length_fmap.
Qed.

Lemma insert_row_Permutation i (r : list Cell) (sorted : list (list Cell)) :
  SQL.insert_row null cell_leb i r sorted ≡ₚ r :: sorted.
Proof.
  induction sorted as [|r' s IH]; simpl; [done|].
  destruct (cell_leb _ _); [done|]. rewrite IH. apply perm_swap.
Qed.

Lemma sort_rows_Permutation i (rs : list (list Cell)) :
  SQL.sort_rows null cell_leb i rs ≡ₚ rs.
Proof.
  unfold SQL.sort_rows. induction rs as [|r rs IH]; simpl; [done|].
  by rewrite insert_row_Permutation, IH.
Qed.

Lemma valueCounts_value (caseSensitive : bool) (wine : SQL.DataFrame Cell) :
  SQL.columns wine = Main.colNames ->
  Main.sql_valueCounts null cell_leb count_cell caseSensitive
    (Main.register_wine caseSensitive (Main.rename_od280 caseSensitive wine) ∅)
  = Ok {| SQL.columns := ["target"; "valueCounts"];
          SQL.rows := SQL.sort_rows null cell_leb 0
                        (SQL.aggregate_count null count_cell 0 (SQL.rows wine)) |}.
Proof.
  intros Hcols.
  unfold Main.sql_valueCounts, SQL.sql_count_by, Main.register_wine,
    SQL.createOrReplaceTempView, SQL.table.
  rewrite lookup_insert_eq. cbn [mbind result_bind].
  unfold Main.rename_od280, SQL.withColumnRenamed. cbn [SQL.columns SQL.rows].
  rewrite Hcols.
  assert (Hres : SQL.resolve caseSensitive "target"
            ((fun c => if SQL.resolver caseSensitive c
                            "od280_od315_of_diluted_wines"
                       then "od280" else c) <$> Main.colNames) = Ok 0%nat)
    by (by destruct caseSensitive).
  rewrite Hres. cbn [mbind result_bind]. unfold SQL.orderBy.
  cbn [SQL.columns SQL.rows].
  assert (Hord : SQL.resolve caseSensitive "target" ["target"; "valueCounts"]
                 = Ok 0%nat) by (by destruct caseSensitive).
  by rewrite Hord.
Qed.

(** *** The inferred schema *)

Section schema.
Variable toInt : string -> bool.
Variable toLong : string -> bool.
Variable toDecimal : string -> option (nat * nat).
Variable toDouble : string -> bool.
Variable notNumber : string -> Schema.DataType.
Variable tryParseOther : Schema.DataType -> string -> Schema.DataType.
Variable compatibleOther :
  Schema.DataType -> Schema.DataType -> option Schema.DataType.

Local Abbreviation inferField :=
  (Schema.inferField toInt toLong toDecimal toDouble notNumber tryParseOther
     compatibleOther).
Local Abbreviation inferColumn :=
  (Schema.inferColumn toInt toLong toDecimal toDouble notNumber tryParseOther
     compatibleOther).
Local Abbreviation printSchema :=
  (Main.printSchema toInt toLong toDecimal toDouble notNumber tryParseOther
     compatibleOther).

Lemma column_fields (P : string -> Prop) (records : list (list string)) j :
  Forall (fun record => exists f, record !! j = Some f /\ P f) records ->
  Forall P (Schema.column records j) /\
  length (Schema.column records j) = length records.
Proof.
  unfold Schema.column.
  induction 1 as [|record records (f & Hf & HP) _ [IH1 IH2]]; csimpl; [done|].
  rewrite Hf. csimpl. split; [by constructor|by rewrite IH2].
Qed.

Lemma mergeDecimals_numeric p1 s1 p2 s2 :
  Schema.numeric (Schema.mergeDecimals p1 s1 p2 s2) = true.
Proof. unfold Schema.mergeDecimals. by destruct (_ <? _)%nat. Qed.

Lemma mergeIntegralDecimal_numeric t p s :
  Schema.numeric (Schema.mergeIntegralDecimal t p s) = true.
Proof.
  unfold Schema.mergeIntegralDecimal.
  destruct (Schema.isWiderThan p s t); [done|].
  case_decide; [done|apply mergeDecimals_numeric].
Qed.

(** Numbers keep a column numeric. *)
Lemma compatibleType_numeric t1 t2 :
  t1 = Schema.NullType \/ Schema.numeric t1 = true ->
  Schema.numeric t2 = true ->
  exists t, Schema.compatibleType compatibleOther t1 t2 = Some t /\
            Schema.numeric t = true.
Proof.
  intros H1 H2. unfold Schema.compatibleType.
  case_decide as Heq; [subst; by eexists|].
  destruct H1 as [->|H1].
  - destruct t2; try done; by eexists.
  - destruct t1, t2; try done; eexists; split; try reflexivity; try done;
      auto using mergeDecimals_numeric, mergeIntegralDecimal_numeric.
Qed.

Lemma inferField_numeric t field :
  t = Schema.NullType \/ Schema.numeric t = true ->
  field ≠ "" -> toDouble field = true ->
  Schema.numeric (inferField t field) = true.
Proof.
  intros Ht Hne Hd. unfold Schema.inferField.
  destruct (String.eqb_spec field ""); [done|].
  assert (Hchain : Schema.numeric (Schema.tryParseDouble toDouble notNumber field) = true /\
    Schema.numeric (Schema.tryParseDecimal toDecimal toDouble notNumber field) = true /\
    Schema.numeric (Schema.tryParseLong toLong toDecimal toDouble notNumber field) = true /\
    Schema.numeric (Schema.tryParseInteger toInt toLong toDecimal toDouble notNumber
                      field) = true).
  { unfold Schema.tryParseInteger, Schema.tryParseLong, Schema.tryParseDecimal,
      Schema.tryParseDouble. rewrite Hd.
    destruct (toDecimal field) as [[p s]|], (toLong field), (toInt field); done. }
  destruct Hchain as (Hdouble & Hdecimal & Hlong & Hint).
  assert (Hstep : forall t2, Schema.numeric t2 = true ->
    Schema.numeric (default Schema.StringType
                      (Schema.compatibleType compatibleOther t t2)) = true).
  { intros t2 H2. by destruct (compatibleType_numeric t t2 Ht H2) as (t' & -> & ?). }
  destruct Ht as [->|Ht]; [by apply Hstep|].
  destruct t; try done; by apply Hstep.
Qed.

Lemma inferField_integer t field :
  t = Schema.NullType \/ t = Schema.IntegerType ->
  field ≠ "" -> toInt field = true ->
  inferField t field = Schema.IntegerType.
Proof.
  intros Ht Hne Hi. unfold Schema.inferField.
  destruct (String.eqb_spec field ""); [done|].
  unfold Schema.tryParseInteger. by destruct Ht as [->| ->]; rewrite Hi.
Qed.

Lemma inferColumn_integer (records : list (list string)) j :
  records ≠ [] ->
  Forall (fun record => exists f,
            record !! j = Some f /\ f ≠ "" /\ toInt f = true) records ->
  inferColumn records j = Schema.IntegerType.
Proof.
  intros Hne Hall. destruct (column_fields _ records j Hall) as [Hfields Hlen].
  unfold Schema.inferColumn.
  destruct (Schema.column records j) as [|f fs]; [by destruct records|].
  apply Forall_cons_1 in Hfields as [[Hf Hi] Hfs]. cbn [foldl].
  rewrite inferField_integer by auto. clear Hlen.
  induction Hfs as [|f' fs [Hf' Hi'] _ IH]; [done|]. cbn [foldl].
  rewrite inferField_integer by auto. exact IH.
Qed.

Lemma inferColumn_numeric (records : list (list string)) j :
  records ≠ [] ->
  Forall (fun record => exists f,
            record !! j = Some f /\ f ≠ "" /\ toDouble f = true) records ->
  Schema.numeric (inferColumn records j) = true.
Proof.
  intros Hne Hall. destruct (column_fields _ records j Hall) as [Hfields Hlen].
  unfold Schema.inferColumn.
  assert (Hinv : forall t fs,
    Forall (fun f => f ≠ "" /\ toDouble f = true) fs ->
    Schema.numeric t = true ->
    Schema.numeric (foldl inferField t fs) = true).
  { intros t fs Hfs. revert t.
    induction Hfs as [|f fs [Hf Hd] _ IH]; intros t Ht; [done|]. cbn [foldl].
    apply IH. apply inferField_numeric; auto. }
  destruct (Schema.column records j) as [|f fs]; [by destruct records|].
  apply Forall_cons_1 in Hfields as [[Hf Hd] Hfs]. cbn [foldl].
  apply Hinv; [done|]. apply inferField_numeric; auto.
Qed.

Lemma printSchema_lookup (first : list string) rest j name :
  length first = 14%nat -> Main.colNames !! j = Some name ->
  printSchema (first :: rest) !! j
  = Some (name, Schema.finish (inferColumn (first :: rest) j)).
Proof.
  intros Hlen Hname. unfold Main.printSchema, Schema.infer.
  apply lookup_zip_with_Some. eexists _, _. split; [done|]. split; [done|].
  rewrite list_lookup_fmap, Hlen.
  pose proof (lookup_lt_Some _ _ _ Hname) as Hj. change (length Main.colNames)
    with 14%nat in Hj.
  by rewrite lookup_seq_lt.
Qed.

(** C3.  Whenever the read succeeds, the frame has exactly the 14 names of
    [colNames] as its columns, ['target'] first and 13 more; every record
    of the file is a row, the first record included (with [header=True] it
    would be taken out of the data).  The schema has the same 14 names
    with the types inferred from the records: [target] is an integer
    column when the first field of every record is an integer, and each of
    the 13 others a numeric column when its fields are numbers.  The class
    labels are the values of [target]: the count query returns one row for
    each of them, three rows for a file with three labels. *)
Theorem C3_wine_is_headerless_with_14_columns
    (caseSensitive : bool) (records : list (list string))
    (wine : SQL.DataFrame Cell) :
  Main.read_wine null parse_field records = Ok wine ->
  SQL.columns wine = Main.colNames /\
  length (SQL.columns wine) = 14%nat /\
  head (SQL.columns wine) = Some "target" /\
  length (tail (SQL.columns wine)) = 13%nat /\
  ("target" ∉ tail (SQL.columns wine)) /\
  SQL.count wine = length records /\
  (exists first rest,
     records = first :: rest /\ length first = 14%nat /\
     SQL.rows wine !! 0%nat = Some (imap (parse_field records) first)) /\
  S (SQL.count (SQL.csv null parse_field true records)) = length records /\
  (forall counts,
     Main.sql_valueCounts null cell_leb count_cell caseSensitive
       (Main.register_wine caseSensitive
          (Main.rename_od280 caseSensitive wine) ∅) = Ok counts ->
     SQL.count counts =
     length (remove_dups ((fun r => nth 0 r null) <$> SQL.rows wine))) /\
  fst <$> printSchema records = SQL.columns wine /\
  (Forall (fun record => exists f,
             record !! 0%nat = Some f /\ f ≠ "" /\ toInt f = true) records ->
   printSchema records !! 0%nat = Some ("target", Schema.IntegerType)) /\
  (forall j name, (1 <= j)%nat -> Main.colNames !! j = Some name ->
     Forall (fun record => exists f,
               record !! j = Some f /\ f ≠ "" /\ toDouble f = true) records ->
     exists t, printSchema records !! j = Some (name, t) /\
               Schema.numeric t = true) /\
  (forall labels,
     NoDup labels ->
     (forall l, l ∈ labels <->
        exists r, r ∈ SQL.rows wine /\ nth 0 r null = l) ->
     exists counts,
       Main.sql_valueCounts null cell_leb count_cell caseSensitive
         (Main.register_wine caseSensitive
            (Main.rename_od280 caseSensitive wine) ∅) = Ok counts /\
       (fun r => nth 0 r null) <$> SQL.rows counts ≡ₚ labels /\
       SQL.count counts = length labels) /\
  (forall a b c,
     NoDup [a; b; c] ->
     (forall l, l ∈ [a; b; c] <->
        exists r, r ∈ SQL.rows wine /\ nth 0 r null = l) ->
     exists counts,
       Main.sql_valueCounts null cell_leb count_cell caseSensitive
         (Main.register_wine caseSensitive
            (Main.rename_od280 caseSensitive wine) ∅) = Ok counts /\
       SQL.count counts = 3%nat).
Proof.
  intros Hread.
  destruct (read_wine_inv records wine Hread)
    as (first & rest & -> & Hlen & Hwine).
  assert (Hcols : SQL.columns wine = Main.colNames) by by rewrite Hwine.
  assert (Hlabels : forall labels,
     NoDup labels ->
     (forall l, l ∈ labels <->
        exists r, r ∈ SQL.rows wine /\ nth 0 r null = l) ->
     exists counts,
       Main.sql_valueCounts null cell_leb count_cell caseSensitive
         (Main.register_wine caseSensitive
            (Main.rename_od280 caseSensitive wine) ∅) = Ok counts /\
       (fun r => nth 0 r null) <$> SQL.rows counts ≡ₚ labels /\
       SQL.count counts = length labels).
  { intros labels Hnd Hl. eexists. split; [by apply valueCounts_value|].
    cbn [SQL.rows]. unfold SQL.count. cbn [SQL.rows].
    assert (Hkeys : (fun r : list Cell => nth 0 r null)
                      <$> SQL.sort_rows null cell_leb 0
                            (SQL.aggregate_count null count_cell 0 (SQL.rows wine))
                    ≡ₚ labels).
    { rewrite sort_rows_Permutation. unfold SQL.aggregate_count.
      rewrite <- list_fmap_compose.
      assert (Hid : ((fun r : list Cell => nth 0 r null)
                       ∘ (fun k => [k; count_cell
                            (length (SQL.group_rows null 0 k (SQL.rows wine)))]))
                    <$> SQL.group_keys null 0 (SQL.rows wine)
                    = SQL.group_keys null 0 (SQL.rows wine)).
      { rewrite <- (list_fmap_id (SQL.group_keys null 0 (SQL.rows wine))) at 2.
        by apply list_fmap_ext. }
      rewrite Hid. apply NoDup_Permutation;
        [apply NoDup_remove_dups|done|].
      intros l. unfold SQL.group_keys. rewrite elem_of_remove_dups, Hl.
      rewrite list_elem_of_fmap. split; intros (r & ? & ?); by exists r. }
    split; [exact Hkeys|].
    rewrite <- (Permutation_length Hkeys). by rewrite length_fmap. }
  split; [exact Hcols|]. rewrite Hcols.
  split; [done|]. split; [done|]. split; [done|].
  split.
  { vm_compute. intros Hin.
    repeat (apply elem_of_cons in Hin as [Hin|Hin]; [discriminate|]).
    by apply elem_of_nil in Hin. }
  split.
  { rewrite Hwine. unfold SQL.count. cbn [SQL.rows]. apply length_fmap. }
  split.
  { exists first, rest. split; [done|]. split; [done|].
    rewrite Hwine. cbn [SQL.rows]. simpl.
    rewrite <- Hlen. by rewrite parse_record_exact. }
  split.
  { unfold SQL.count, SQL.csv. cbn [SQL.rows]. simpl. f_equal. apply length_fmap. }
  split.
  { intros counts. by apply valueCounts_rows. }
  split.
  { unfold Main.printSchema, Schema.infer. rewrite fst_zip; [done|].
    by rewrite length_fmap, length_seq, Hlen. }
  split.
  { intros Hint. rewrite (printSchema_lookup first rest 0 "target") by done.
    by rewrite inferColumn_integer. }
  split.
  { intros j name Hj Hname Hnum. eexists. split; [by apply printSchema_lookup|].
    pose proof (inferColumn_numeric (first :: rest) j ltac:(done) Hnum) as Ht.
    by destruct (inferColumn (first :: rest) j). }
  split; [exact Hlabels|].
  intros a b c Hnd Hl. destruct (Hlabels [a; b; c] Hnd Hl) as (counts & Hq & _ & Hn).
  by exists counts.
Qed.

End schema.

(** *** Renaming a column *)

(** C7.  On the wine frame the rename changes the name at one position
    (the thirteenth column becomes ['od280']) and nothing else: the other
    names, their order and number, the row count and the rows stay. *)
Theorem C7_rename_changes_only_one_column_name
    (caseSensitive : bool) (wine : SQL.DataFrame Cell) :
  SQL.columns wine = Main.colNames ->
  SQL.rows (Main.rename_od280 caseSensitive wine) = SQL.rows wine /\
  SQL.count (Main.rename_od280 caseSensitive wine) = SQL.count wine /\
  length (SQL.columns (Main.rename_od280 caseSensitive wine))
    = length (SQL.columns wine) /\
  SQL.columns (Main.rename_od280 caseSensitive wine) !! 12%nat = Some "od280" /\
  SQL.columns wine !! 12%nat = Some "od280_od315_of_diluted_wines" /\
  (forall i, i ≠ 12%nat ->
     SQL.columns (Main.rename_od280 caseSensitive wine) !! i
       = SQL.columns wine !! i).
Proof.
  intros Hcols. unfold Main.rename_od280, SQL.withColumnRenamed, SQL.count.
  cbn [SQL.columns SQL.rows]. rewrite Hcols.
  split; [done|]. split; [done|].
  destruct caseSensitive; (split; [done|]); (split; [done|]);
    (split; [done|]); intros i Hi;
    do 14 (destruct i as [|i]; [done || reflexivity|]); reflexivity.
Qed.

(** *** The two formulations of the average-alcohol query *)

Lemma group_values_of_projection (ikey ival : nat) (k : Cell)
    (rs : list (list Cell)) :
  (fun r => nth 1 r null)
    <$> SQL.group_rows null 0 k
          ((fun r => (fun i => nth i r null) <$> [ikey; ival]) <$> rs) =
  (fun r => nth ival r null) <$> SQL.group_rows null ikey k rs.
Proof.
  unfold SQL.group_rows. induction rs as [|r rs IH]; csimpl in *; [done|].
  destruct (bool_decide (nth ikey r null = k)); csimpl; by rewrite IH.
Qed.

Lemma aggregate_of_projection (ikey ival : nat) (scale : Z)
    (rs : list (list Cell)) :
  SQL.aggregate_round_avg null avg round 0 1 scale
    ((fun r => (fun i => nth i r null) <$> [ikey; ival]) <$> rs) =
  SQL.aggregate_round_avg null avg round ikey ival scale rs.
Proof.
  unfold SQL.aggregate_round_avg, SQL.group_keys.
  rewrite <- list_fmap_compose.
  assert (Hkeys : ((fun r : list Cell => nth 0 r null)
                     ∘ (fun r => (fun i => nth i r null) <$> [ikey; ival]))
                  <$> rs = (fun r => nth ikey r null) <$> rs).
  { apply list_fmap_ext. intros _ r _. reflexivity. }
  rewrite Hkeys. apply list_fmap_ext. intros _ k _.
  by rewrite group_values_of_projection.
Qed.

Lemma resolve_target_selected caseSensitive :
  SQL.resolve caseSensitive "target" ["target"; "alcohol"] = Ok 0%nat.
Proof. by destruct caseSensitive. Qed.

Lemma resolve_alcohol_selected caseSensitive :
  SQL.resolve caseSensitive "alcohol" ["target"; "alcohol"] = Ok 1%nat.
Proof. by destruct caseSensitive. Qed.

(** C9.  For every frame registered as the view [wine], the SQL query and
    the DataFrame chain give the same result: the same error when a
    column cannot be resolved, and otherwise the same table (the columns
    [target] and [avgAlcohol], one row per label with the rounded average,
    sorted by label). *)
Theorem C9_sql_query_equals_dataframe_chain
    (caseSensitive : bool) (wine : SQL.DataFrame Cell)
    (catalog : gmap string (SQL.DataFrame Cell)) :
  Main.sql_avgAlcohol null avg round cell_leb caseSensitive
    (Main.register_wine caseSensitive wine catalog)
  = Main.api_avgAlcohol null avg round cell_leb caseSensitive wine /\
  (forall itarget ialcohol,
     SQL.resolve caseSensitive "target" (SQL.columns wine) = Ok itarget ->
     SQL.resolve caseSensitive "alcohol" (SQL.columns wine) = Ok ialcohol ->
     Main.api_avgAlcohol null avg round cell_leb caseSensitive wine =
     Ok {| SQL.columns := ["target"; "avgAlcohol"];
           SQL.rows := SQL.sort_rows null cell_leb 0
                         (SQL.aggregate_round_avg null avg round
                            itarget ialcohol 2 (SQL.rows wine)) |}).
Proof.
  assert (Hsql : Main.sql_avgAlcohol null avg round cell_leb caseSensitive
                   (Main.register_wine caseSensitive wine catalog) =
    (ikey ← SQL.resolve caseSensitive "target" (SQL.columns wine);
     ival ← SQL.resolve caseSensitive "alcohol" (SQL.columns wine);
     SQL.orderBy null cell_leb caseSensitive "target"
       {| SQL.columns := ["target"; "avgAlcohol"];
          SQL.rows := SQL.aggregate_round_avg null avg round ikey ival 2
                        (SQL.rows wine) |})).
  { unfold Main.sql_avgAlcohol, SQL.sql_round_avg_by, Main.register_wine,
      SQL.createOrReplaceTempView, SQL.table.
    by rewrite lookup_insert_eq. }
  assert (Hapi : Main.api_avgAlcohol null avg round cell_leb caseSensitive wine =
    (ikey ← SQL.resolve caseSensitive "target" (SQL.columns wine);
     ival ← SQL.resolve caseSensitive "alcohol" (SQL.columns wine);
     SQL.orderBy null cell_leb caseSensitive "target"
       {| SQL.columns := ["target"; "avgAlcohol"];
          SQL.rows := SQL.aggregate_round_avg null avg round ikey ival 2
                        (SQL.rows wine) |})).
  { unfold Main.api_avgAlcohol, SQL.select. cbn [mapM].
    destruct (SQL.resolve caseSensitive "target" (SQL.columns wine))
      as [ikey|e]; [|done].
    destruct (SQL.resolve caseSensitive "alcohol" (SQL.columns wine))
      as [ival|e]; [|done].
    cbn [mbind result_bind mret result_ret].
    unfold SQL.groupBy. cbn [SQL.columns SQL.rows].
    rewrite resolve_target_selected. cbn [mbind result_bind].
    unfold SQL.agg_round_avg.
    cbn [SQL.grouped SQL.grouping SQL.grouping_index SQL.columns SQL.rows].
    rewrite resolve_alcohol_selected. cbn [mbind result_bind].
    by rewrite aggregate_of_projection. }
  split; [by rewrite Hsql, Hapi|].
  intros itarget ialcohol Ht Ha. rewrite Hapi, Ht, Ha.
  cbn [mbind result_bind]. by destruct caseSensitive.
Qed.

End frames.
End Frames.

(** ** The machine-learning cells of main.ipynb *)

Module Learning.



Lemma params_explicit :
  ML.params =
  [ [(ML.numTrees, 50); (ML.maxDepth, 5)];
    [(ML.numTrees, 50); (ML.maxDepth, 10)];
    [(ML.numTrees, 50); (ML.maxDepth, 15)];
    [(ML.numTrees, 100); (ML.maxDepth, 5)];
    [(ML.numTrees, 100); (ML.maxDepth, 10)];
    [(ML.numTrees, 100); (ML.maxDepth, 15)];
    [(ML.numTrees, 150); (ML.maxDepth, 5)];
    [(ML.numTrees, 150); (ML.maxDepth, 10)];
    [(ML.numTrees, 150); (ML.maxDepth, 15)] ].
Proof. reflexivity. Qed.



Lemma existsb_Forall_false {A} (f : A -> bool) (l : list A) :
  Forall (fun x => f x = false) l -> existsb f l = false.
Proof. induction 1 as [|x l Hx _ IH]; [done|]. simpl. by rewrite Hx, IH. Qed.


Section learning.
Context {Cell : Type} `{EqDecision Cell}.
Variable null : Cell.
Variable caseSensitive : bool.
Variable invalid : Cell -> bool.
Variable as_double : Cell -> Cell.
Variable vector : list Cell -> Cell.
Variable Forest : Type.
Variable forest_fit : ML.RandomForestClassifier -> SQL.DataFrame Cell -> Forest.
Variable forest_transform : Forest -> SQL.DataFrame Cell -> SQL.DataFrame Cell.
Variable evaluate : SQL.DataFrame Cell -> Q.
Variable rand : Z -> nat -> Q.
Variable cv_seed : Z.
Variable mean : list Q -> Q.






(** *** The feature vector *)

Lemma input_values_tail (r : list Cell) :
  length r = 14%nat ->
  ML.input_values null [1; 2; 3; 4; 5; 6; 7; 8; 9; 10; 11; 12; 13]%nat r
  = drop 1 r.
Proof.
  intros Hr. do 14 (destruct r as [|? r]; [discriminate|]).
  destruct r; [reflexivity|discriminate].
Qed.

(** C5.  On the wine frame (after the rename) the assembler's input
    columns are the columns without the first: the 13 feature columns, in
    column order, without ['target'].  On a frame with these columns whose
    feature cells are valid, the column ['features'] holds for each row
    the vector of the row's cells without the first, in order. *)
Theorem C5_features_are_all_columns_but_target
    (wine df : SQL.DataFrame Cell) :
  SQL.columns wine = <[12%nat := "od280"]> Main.colNames ->
  SQL.columns df = SQL.columns wine ->
  Forall (fun r => length r = 14%nat) (SQL.rows df) ->
  Forall (fun r => Forall (fun c => invalid c = false) (drop 1 r)) (SQL.rows df) ->
  ML.inputCols (ML.assembler wine) = drop 1 (SQL.columns wine) /\
  ML.inputCols (ML.assembler wine) =
    [ "alcohol"; "malic_acid"; "ash"; "alcalinity_of_ash"; "magnesium";
      "total_phenols"; "flavanoids"; "nonflavanoid_phenols";
      "proanthocyanins"; "color_intensity"; "hue"; "od280"; "proline" ] /\
  length (ML.inputCols (ML.assembler wine)) = 13%nat /\
  ("target" ∉ ML.inputCols (ML.assembler wine)) /\
  ML.outputCol (ML.assembler wine) = "features" /\
  ML.assembler_transform null caseSensitive invalid as_double vector
    (ML.assembler wine) df =
  Ok {| SQL.columns := SQL.columns df ++ ["features"];
        SQL.rows := (fun r => r ++ [vector (as_double <$> drop 1 r)])
                      <$> SQL.rows df |}.
Proof.
  intros Hwine Hdf Hlen Hvalid.
  assert (Hin : ML.inputCols (ML.assembler wine) =
    [ "alcohol"; "malic_acid"; "ash"; "alcalinity_of_ash"; "magnesium";
      "total_phenols"; "flavanoids"; "nonflavanoid_phenols";
      "proanthocyanins"; "color_intensity"; "hue"; "od280"; "proline" ]).
  { unfold ML.assembler. cbn [ML.inputCols]. by rewrite Hwine. }
  split; [reflexivity|]. split; [exact Hin|]. split; [by rewrite Hin|].
  split.
  { rewrite Hin. rewrite !elem_of_cons, elem_of_nil. intros Ht.
    repeat (destruct Ht as [Ht|Ht]; [discriminate|]). done. }
  split; [reflexivity|].
  unfold ML.assembler_transform. rewrite Hin, Hdf, Hwine.
  assert (Hidx : mapM (fun name => SQL.resolve caseSensitive name
                         (<[12%nat := "od280"]> Main.colNames))
                   [ "alcohol"; "malic_acid"; "ash"; "alcalinity_of_ash";
                     "magnesium"; "total_phenols"; "flavanoids";
                     "nonflavanoid_phenols"; "proanthocyanins";
                     "color_intensity"; "hue"; "od280"; "proline" ]
                 = Ok [1; 2; 3; 4; 5; 6; 7; 8; 9; 10; 11; 12; 13]%nat).
  { destruct caseSensitive; vm_compute; reflexivity. }
  rewrite Hidx. cbn [mbind result_bind ML.handleInvalid ML.assembler ML.outputCol].
  change (String.eqb "error" "error") with true. cbn match.
  rewrite existsb_Forall_false.
  - do 2 f_equal. apply Forall_fmap_ext_1.
    eapply Forall_impl; [exact Hlen|]. intros r Hr. cbn beta.
    by rewrite input_values_tail.
  - rewrite Forall_forall in Hlen, Hvalid. apply Forall_forall. intros r Hr.
    rewrite input_values_tail by auto. apply existsb_Forall_false. auto.
Qed.

End learning.

(** *** The random split *)

Section split.
Context {Cell : Type} `{EqDecision Cell}.
Variable sort_within_partitions : list (list Cell) -> list (list Cell).
Variable draw : Z -> nat -> Q.
Variable null : Cell.
Variable caseSensitive : bool.
Variable invalid : Cell -> bool.
Variable as_double : Cell -> Cell.
Variable vector : list Cell -> Cell.
Variable Forest : Type.
Variable forest_fit : ML.RandomForestClassifier -> SQL.DataFrame Cell -> Forest.
Variable forest_transform : Forest -> SQL.DataFrame Cell -> SQL.DataFrame Cell.
Variable evaluate : SQL.DataFrame Cell -> Q.

(** Keeping the rows a test selects and the rows it rejects splits the
    list. *)
Lemma select_complement {A} (sel : nat -> bool) (l : list A) :
  concat (imap (fun i r => if sel i then [r] else []) l)
    ++ concat (imap (fun i r => if negb (sel i) then [r] else []) l)
  ≡ₚ l.
Proof.
  revert sel. induction l as [|x l IH]; intros sel; [done|].
  rewrite !imap_cons. cbn [concat].
  specialize (IH (sel ∘ S)). unfold compose in IH.
  destruct (sel 0%nat); cbn [negb app].
  - by constructor.
  - rewrite <- Permutation_middle. by constructor.
Qed.




Lemma Qle_bool_proper_r (a b x : Q) :
  (a == b)%Q -> Qle_bool x a = Qle_bool x b.
Proof.
  intros Hab. destruct (Qle_bool x b) eqn:Hb.
  - apply Qle_bool_iff. rewrite Hab. by apply Qle_bool_iff.
  - apply not_true_is_false. intros Ha%Qle_bool_iff.
    rewrite Hab in Ha. apply Qle_bool_iff in Ha. congruence.
Qed.




End split.
End Learning.

(** ** The model run on the rows the notebook prints *)

Module Run.
Import Values.

(** Reading the five records gives the five rows, the first included. *)
Example read_first_rows :
  Main.read_wine VNull parse_field first_rows = Ok wine5.
Proof. vm_compute. reflexivity. Qed.

(** The schema inferred from the five records is the one the notebook
    prints for the file. *)
Example schema_first_rows :
  Main.printSchema toInt toLong toDecimal toDouble notNumber tryParseOther
    compatibleOther first_rows
  = Main.printSchema_output.
Proof. vm_compute. reflexivity. Qed.

Example no_duplicates : Main.check_duplicates wine5 = Ok wine5.
Proof. vm_compute. reflexivity. Qed.

Example duplicate_row_raises :
  Main.check_duplicates
    {| SQL.columns := ["target"; "alcohol"];
       SQL.rows := [[VInt 1; VDouble (66 # 5)]; [VInt 2; VDouble (12 # 1)];
                    [VInt 1; VDouble (66 # 5)]] |}
  = Raise AssertionError.
Proof. vm_compute. reflexivity. Qed.

(** The data cells run through on the five records, and stop at the
    assertion when a record is repeated. *)
Example data_cells_first_rows :
  Main.wine_frame <$>
    Main.data_cells VNull parse_field avg round leb count_cell false first_rows
  = Ok (Main.rename_od280 false wine5).
Proof. vm_compute. reflexivity. Qed.

Example data_cells_repeated_record :
  Main.data_cells VNull parse_field avg round leb count_cell false
    (first_rows ++ take 1 first_rows)
  = Raise AssertionError.
Proof. vm_compute. reflexivity. Qed.

(** Both formulations of the query on the five rows: one class, average
    (14.23 + 13.2 + 13.16 + 14.37 + 13.24) / 5 = 13.64. *)
Example avgAlcohol_first_rows :
  Main.api_avgAlcohol VNull avg round leb false (Main.rename_od280 false wine5)
  = Ok {| SQL.columns := ["target"; "avgAlcohol"];
          SQL.rows := [[VInt 1; VDouble (341 # 25)]] |} /\
  Main.sql_avgAlcohol VNull avg round leb false
    (Main.register_wine false (Main.rename_od280 false wine5) ∅)
  = Ok {| SQL.columns := ["target"; "avgAlcohol"];
          SQL.rows := [[VInt 1; VDouble (341 # 25)]] |}.
Proof.
  split; vm_compute; reflexivity.
Qed.

(** The count query on the five rows: one class with five rows. *)
Example valueCounts_first_rows :
  Main.sql_valueCounts VNull leb count_cell false
    (Main.register_wine false (Main.rename_od280 false wine5) ∅)
  = Ok {| SQL.columns := ["target"; "valueCounts"];
          SQL.rows := [[VInt 1; VInt 5]] |}.
Proof. vm_compute. reflexivity. Qed.

(** Groups are ordered by label and averaged one by one. *)
Example avgAlcohol_two_classes :
  Main.api_avgAlcohol VNull avg round leb false
    {| SQL.columns := ["alcohol"; "target"];
       SQL.rows := [[VDouble (25 # 2); VInt 2]; [VDouble (1423 # 100); VInt 1];
                    [VDouble (619 # 50); VInt 2]; [VDouble (1321 # 100); VInt 1]] |}
  = Ok {| SQL.columns := ["target"; "avgAlcohol"];
          SQL.rows := [[VInt 1; VDouble (343 # 25)];
                       [VInt 2; VDouble (311 # 25)]] |}.
Proof. vm_compute. reflexivity. Qed.

Lemma C3_wine_witness :
  SQL.columns wine5 = Main.colNames /\ SQL.count wine5 = 5%nat /\
  Main.printSchema toInt toLong toDecimal toDouble notNumber tryParseOther
    compatibleOther first_rows !! 0%nat
  = Some ("target", Schema.IntegerType).
Proof.
  assert (Hread : Main.read_wine VNull parse_field first_rows = Ok wine5)
    by (vm_compute; reflexivity).
  pose proof (Frames.C3_wine_is_headerless_with_14_columns
                VNull parse_field leb count_cell
                toInt toLong toDecimal toDouble notNumber tryParseOther
                compatibleOther false first_rows wine5 Hread) as H.
  split; [exact (proj1 H)|].
  split; [exact (proj1 (proj2 (proj2 (proj2 (proj2 (proj2 H))))))|].
  apply (proj1 (proj2 (proj2 (proj2 (proj2 (proj2 (proj2 (proj2 (proj2
           (proj2 (proj2 H))))))))))).
  repeat (constructor;
          [eexists; split; [reflexivity|split; [discriminate|reflexivity]]|]).
  constructor.
Defined.

Lemma C7_rename_witness :
  SQL.columns (Main.rename_od280 false wine5) !! 12%nat = Some "od280".
Proof.
  exact (proj1 (proj2 (proj2 (proj2
    (Frames.C7_rename_changes_only_one_column_name false wine5 eq_refl))))).
Defined.

(** The assembled frame of the five rows: the thirteen feature cells of
    each row, as doubles, in a last column. *)
Example features_first_row :
  (fun df => last <$> head (SQL.rows df))
    <$> ML.assembler_transform VNull false invalid as_double vector
          (ML.assembler (Main.rename_od280 false wine5))
          (Main.rename_od280 false wine5)
  = Ok (Some (Some (VVector
      [1423 # 100; 171 # 100; 243 # 100; 78 # 5; 127 # 1; 14 # 5; 153 # 50;
       7 # 25; 229 # 100; 141 # 25; 26 # 25; 98 # 25; 1065 # 1]%Q))).
Proof. vm_compute. reflexivity. Qed.

Lemma C5_features_witness :
  ML.inputCols (ML.assembler (Main.rename_od280 false wine5))
  = drop 1 (SQL.columns (Main.rename_od280 false wine5)).
Proof.
  refine (proj1 (Learning.C5_features_are_all_columns_but_target
    VNull false invalid as_double vector
    (Main.rename_od280 false wine5) (Main.rename_od280 false wine5)
    eq_refl eq_refl _ _)).
  - repeat constructor.
  - repeat constructor.
Defined.

Example split_first_rows :
  (fun tt : SQL.DataFrame Value * SQL.DataFrame Value =>
     (SQL.count tt.1, SQL.count tt.2))
    <$> ML.split_wine (fun rs => rs) draw5 wine5
  = Ok (3%nat, 2%nat).
Proof. vm_compute. reflexivity. Qed.

(** The recorded averages have their first maximum at position 0, the map
    [numTrees = 50, maxDepth = 5] that the notebook prints as the best. *)
Example recorded_best :
  ML.argmax ML.avgMetrics_output = 0%nat /\
  nth (ML.argmax ML.avgMetrics_output) ML.params []
    = [(ML.numTrees, ML.best_output.1); (ML.maxDepth, ML.best_output.2)].
Proof. split; vm_compute; reflexivity. Qed.


End Run.

(** * Further properties of the notebooks' cells *)

(** ** [takeOrdered] *)

Module OrderedFacts.
Section ordered.
Context {A : Type}.
Variable key : A -> Z.

Local Abbreviation ins := (Ordered.insert_by key).
Local Abbreviation srt := (Ordered.sorted_by key).
Local Abbreviation le_key := (fun a b : A => key a <= key b).

Lemma insert_by_Permutation x l : ins x l ≡ₚ x :: l.
Proof.
  induction l as [|y l IH]; simpl; [done|].
  destruct (key x <=? key y); [done|].
  rewrite IH. apply perm_swap.
Qed.

Lemma sorted_by_Permutation l : srt l ≡ₚ l.
Proof.
  induction l as [|x l IH]; simpl; [done|].
  by rewrite insert_by_Permutation, IH.
Qed.

Lemma insert_by_sorted x l :
  StronglySorted le_key l -> StronglySorted le_key (ins x l).
Proof.
  induction l as [|y l IH]; intros Hl; simpl.
  - repeat constructor.
  - apply StronglySorted_cons in Hl as [Hy Hl].
    destruct (Z.leb_spec (key x) (key y)) as [Hxy|Hxy].
    + apply StronglySorted_cons. split.
      * constructor; [done|]. eapply Forall_impl; [exact Hy|].
        intros z Hz. simpl in *. lia.
      * by apply StronglySorted_cons.
    + apply StronglySorted_cons. split; [|by apply IH].
      rewrite insert_by_Permutation. constructor; [lia|done].
Qed.

Lemma sorted_by_sorted l : StronglySorted le_key (srt l).
Proof.
  induction l as [|x l IH]; simpl; [constructor|]. by apply insert_by_sorted.
Qed.

(** Inserting below a lower bound of the list. *)
Lemma insert_by_head x l :
  match l with [] => True | y :: _ => key x <= key y end -> ins x l = x :: l.
Proof.
  destruct l as [|y l]; simpl; [done|]. intros Hy.
  by rewrite (proj2 (Z.leb_le _ _) Hy).
Qed.

Lemma sorted_by_idem l : StronglySorted le_key l -> srt l = l.
Proof.
  induction 1 as [|x l Hl IH Hx]; simpl; [done|].
  rewrite IH. apply insert_by_head. destruct l as [|y l]; [done|].
  by apply Forall_cons_1 in Hx as [? _].
Qed.

(** An element skips a prefix of smaller keys. *)
Lemma insert_by_skip x s l :
  Forall (fun z => key z < key x) s -> ins x (s ++ l) = s ++ ins x l.
Proof.
  induction 1 as [|z s Hz _ IH]; simpl; [done|].
  rewrite (proj2 (Z.leb_gt _ _) Hz). by rewrite IH.
Qed.

Lemma insert_by_comm x y l :
  key y < key x -> ins y (ins x l) = ins x (ins y l).
Proof.
  intros Hyx. induction l as [|z l IH]; simpl.
  - rewrite (proj2 (Z.leb_le (key y) (key x))) by lia.
    by rewrite (proj2 (Z.leb_gt (key x) (key y))) by lia.
  - destruct (Z.leb_spec (key x) (key z)) as [Hxz|Hxz]; simpl.
    + rewrite (proj2 (Z.leb_le (key y) (key x))) by lia.
      rewrite (proj2 (Z.leb_le (key y) (key z))) by lia. simpl.
      rewrite (proj2 (Z.leb_gt (key x) (key y))) by lia.
      by rewrite (proj2 (Z.leb_le (key x) (key z))) by lia.
    + destruct (Z.leb_spec (key y) (key z)) as [Hyz|Hyz]; simpl.
      * rewrite (proj2 (Z.leb_gt (key x) (key y))) by lia.
        by rewrite (proj2 (Z.leb_gt (key x) (key z))) by lia.
      * rewrite (proj2 (Z.leb_gt (key x) (key z))) by lia. by rewrite IH.
Qed.

Lemma foldr_insert_insert x s t :
  foldr ins s (ins x t) = ins x (foldr ins s t).
Proof.
  induction t as [|z t IH]; simpl; [done|].
  destruct (Z.leb_spec (key x) (key z)) as [Hxz|Hxz]; simpl; [done|].
  rewrite IH. by apply insert_by_comm.
Qed.

Lemma foldr_insert_sorted s a : foldr ins s (srt a) = foldr ins s a.
Proof.
  induction a as [|x a IH]; simpl; [done|].
  by rewrite foldr_insert_insert, IH.
Qed.

Lemma sorted_by_app a b : srt (a ++ b) = foldr ins (srt b) a.
Proof. unfold Ordered.sorted_by. by rewrite foldr_app. Qed.

(** Truncating the list an element is inserted into. *)
Lemma take_insert_by n x l : take n (ins x l) = take n (ins x (take n l)).
Proof.
  revert n. induction l as [|y l IH]; intros n.
  - by rewrite take_nil.
  - destruct n as [|n]; [done|]. simpl.
    destruct (key x <=? key y); simpl.
    + f_equal. destruct n as [|n]; [done|]. simpl. f_equal.
      rewrite take_take. f_equal. lia.
    + f_equal. apply IH.
Qed.

Lemma take_foldr_insert n s a :
  take n (foldr ins s a) = take n (foldr ins (take n s) a).
Proof.
  induction a as [|x a IH]; simpl.
  - by rewrite take_take, Nat.min_id.
  - rewrite take_insert_by, IH, <- take_insert_by. done.
Qed.

(** The head of a list after insertions of elements above a bound. *)
Lemma foldr_insert_head x s t :
  match s with [] => True | y :: _ => key x <= key y end ->
  Forall (fun y => key x <= key y) t ->
  match foldr ins s t with [] => True | y :: _ => key x <= key y end.
Proof.
  intros Hs. induction 1 as [|y t Hy _ IH]; simpl; [done|].
  destruct (foldr ins s t) as [|z l]; simpl; [done|].
  by destruct (key y <=? key z).
Qed.

(** Where the least element of the inserted ones ends up. *)
Lemma foldr_insert_least x s :
  exists s1 s2,
    s = s1 ++ s2 /\
    forall t, Forall (fun y => key x <= key y) t ->
      foldr ins s (x :: t) = s1 ++ x :: foldr ins s2 t.
Proof.
  induction s as [|z s (s1 & s2 & Hs & IH)].
  - exists [], []. split; [done|]. intros t Ht. simpl.
    apply insert_by_head. by apply (foldr_insert_head x [] t).
  - destruct (Z.leb_spec (key x) (key z)) as [Hxz|Hxz].
    + exists [], (z :: s). split; [done|]. intros t Ht. simpl.
      apply insert_by_head. by apply (foldr_insert_head x (z :: s) t).
    + exists (z :: s1), s2. split; [by rewrite Hs|]. intros t Ht.
      assert (Hz : foldr ins (z :: s) t = z :: foldr ins s t).
      { clear IH. induction Ht as [|y t Hy _ IHt]; simpl; [done|].
        rewrite IHt. simpl. by rewrite (proj2 (Z.leb_gt (key y) (key z))) by lia. }
      simpl. rewrite Hz. simpl.
      rewrite (proj2 (Z.leb_gt (key x) (key z))) by lia.
      f_equal. by apply (IH t).
Qed.

(** Of a sorted list only the first [k] elements matter for the first
    [m <= k] elements after insertion. *)
Lemma take_foldr_insert_take t :
  StronglySorted le_key t ->
  forall s k m, (m <= k)%nat ->
    take m (foldr ins s (take k t)) = take m (foldr ins s t).
Proof.
  induction 1 as [|x t Ht IH Hx]; intros s k m Hmk.
  - by rewrite take_nil.
  - destruct k as [|k].
    { assert (m = 0%nat) as -> by lia. done. }
    destruct (foldr_insert_least x s) as (s1 & s2 & _ & Hdec).
    change (take (S k) (x :: t)) with (x :: take k t).
    rewrite (Hdec (take k t)) by by apply Forall_take.
    rewrite (Hdec t) by done.
    rewrite !take_app. f_equal.
    destruct (m - length s1)%nat as [|m'] eqn:Hm'; [done|].
    simpl. f_equal. apply IH. lia.
Qed.

Lemma sorted_take n l : StronglySorted le_key l -> StronglySorted le_key (take n l).
Proof.
  intros Hl. rewrite <- (take_drop n l) in Hl.
  by apply StronglySorted_app in Hl as (_ & Hl & _).
Qed.

Lemma nsmallest_app_r n a b :
  Ordered.nsmallest key n (a ++ Ordered.nsmallest key n b)
  = Ordered.nsmallest key n (a ++ b).
Proof.
  unfold Ordered.nsmallest. rewrite !sorted_by_app.
  rewrite sorted_by_idem.
  - by rewrite <- take_foldr_insert.
  - apply sorted_take, sorted_by_sorted.
Qed.

Lemma nsmallest_app_l n a b :
  Ordered.nsmallest key n (Ordered.nsmallest key n a ++ b)
  = Ordered.nsmallest key n (a ++ b).
Proof.
  unfold Ordered.nsmallest. rewrite !sorted_by_app.
  rewrite take_foldr_insert_take by (apply sorted_by_sorted || done).
  by rewrite foldr_insert_sorted.
Qed.

Lemma foldl_merge n acc (ps : rdd A) :
  foldl (fun a b => Ordered.nsmallest key n (a ++ b))
    (Ordered.nsmallest key n acc) (Ordered.nsmallest key n <$> ps)
  = Ordered.nsmallest key n (acc ++ concat ps).
Proof.
  revert acc. induction ps as [|p ps IH]; intros acc; csimpl.
  - by rewrite app_nil_r.
  - rewrite nsmallest_app_l, nsmallest_app_r, IH. by rewrite <- app_assoc.
Qed.

Lemma takeOrdered_positive (num : Z) (r : rdd A) :
  0 <= num ->
  Ordered.takeOrdered key num r
  = Ok (take (Z.to_nat num) (Ordered.sorted_by key (RDD.collect r))).
Proof.
  intros Hnum. unfold Ordered.takeOrdered, RDD.collect.
  rewrite (proj2 (Z.ltb_ge num 0)) by done.
  destruct (Z.eqb_spec num 0) as [->|Hnz]; [done|].
  destruct r as [|p ps]; [simpl; by rewrite take_nil|].
  cbn [orb length Nat.eqb]. csimpl. unfold Ordered.reduce.
  f_equal. apply (foldl_merge (Z.to_nat num) p ps).
Qed.

(** X11.  [takeOrdered(num, key)] raises [ValueError] for a negative
    [num] and otherwise returns the first [num] elements of the collection
    sorted stably by [key]: the per-partition selection and the merging do
    not show in the result, which is the same for every partitioning
    (and empty for [num = 0] or no data). *)
Theorem X11_takeOrdered_is_prefix_of_sorted_collection (num : Z) (r : rdd A) :
  Ordered.takeOrdered key num r =
  if num <? 0 then Raise ValueError
  else Ok (take (Z.to_nat num) (Ordered.sorted_by key (RDD.collect r))).
Proof.
  destruct (Z.ltb_spec num 0) as [Hneg|Hpos].
  - unfold Ordered.takeOrdered. by rewrite (proj2 (Z.ltb_lt num 0)).
  - by apply takeOrdered_positive.
Qed.

End ordered.

Section words.
Context {Str : Type} `{EqDecision Str}.
Variable lower : Str -> Str.
Variable split : Str -> list Str.

(** What [wordCount] collects, as an equivalence. *)
Lemma wordCount_pairs (parallelism : option nat) (portable_hash : Str -> Z)
    (lyrics : rdd Str) :
  parallelism ≠ Some 0%nat ->
  NoDup (RDD.collect (LowLevel.wordCount lower split parallelism portable_hash lyrics)).*1 /\
  forall t n,
    (t, n) ∈ RDD.collect (LowLevel.wordCount lower split parallelism portable_hash lyrics) <->
    t ∈ LowLevel.tokens lower split lyrics /\
    n = LowLevel.occurrences t (LowLevel.tokens lower split lyrics).
Proof.
  intros Hpar. unfold LowLevel.wordCount.
  set (n := RDD.defaultReducePartitions parallelism (LowLevel.lyrics3 lower split lyrics)).
  destruct (decide (n = 0%nat)) as [Hz|Hnz].
  - assert (Hnil : lyrics = []).
    { unfold n, RDD.defaultReducePartitions in Hz.
      destruct parallelism as [m|]; [congruence|].
      unfold LowLevel.lyrics3, LowLevel.lyrics2, LowLevel.lyrics1,
        RDD.map, RDD.flatMap in Hz.
      rewrite !length_map in Hz. by destruct lyrics. }
    rewrite Hz. subst lyrics. cbn. split; [apply NoDup_nil_2|].
    intros t m. rewrite !elem_of_nil. tauto.
  - destruct (ByKey.reduceByKey_add_spec n portable_hash
                (LowLevel.lyrics3 lower split lyrics) Hnz) as [Hnd Hin].
    split; [done|]. intros t m. rewrite Hin.
    by rewrite WordCount.collect_lyrics3, WordCount.keys_pair_one,
      WordCount.total_pair_one.
Qed.

Lemma sorted_by_count_desc (l : list (Str * Z)) :
  StronglySorted (fun a b => Ordered.by_count_desc a <= Ordered.by_count_desc b) l ->
  StronglySorted (fun a b : Str * Z => b.2 <= a.2) l.
Proof.
  induction 1 as [|x l Hl IH Hx]; constructor; [done|].
  eapply Forall_impl; [exact Hx|]. unfold Ordered.by_count_desc. intros; lia.
Qed.

(** X12.  The top-10 cell returns [min 10 d] pairs for a corpus of [d]
    different tokens; each pair is a token with its number of occurrences,
    no token is listed twice, the counts never increase along the list, and
    a token that is not listed occurs at most as often as every listed
    one. *)
Theorem X12_top10_lists_the_most_frequent_tokens
    (parallelism : option nat) (portable_hash : Str -> Z)
    (lyrics : rdd Str) :
  parallelism ≠ Some 0%nat ->
  exists top,
    Ordered.top10 lower split parallelism portable_hash lyrics = Ok top /\
    length top = (10 `min` length (remove_dups (LowLevel.tokens lower split lyrics)))%nat /\
    NoDup top.*1 /\
    (forall t n, (t, n) ∈ top ->
       t ∈ LowLevel.tokens lower split lyrics /\
       n = LowLevel.occurrences t (LowLevel.tokens lower split lyrics)) /\
    StronglySorted (fun a b : Str * Z => b.2 <= a.2) top /\
    (forall t p, t ∈ LowLevel.tokens lower split lyrics -> t ∉ top.*1 -> p ∈ top ->
       LowLevel.occurrences t (LowLevel.tokens lower split lyrics) <= p.2).
Proof.
  intros Hpar.
  destruct (wordCount_pairs parallelism portable_hash lyrics Hpar) as [Hnd Hin].
  set (out := RDD.collect (LowLevel.wordCount lower split parallelism portable_hash lyrics)) in *.
  set (S := Ordered.sorted_by Ordered.by_count_desc out).
  assert (HS : S ≡ₚ out) by apply sorted_by_Permutation.
  assert (Hsorted := sorted_by_sorted Ordered.by_count_desc out). fold S in Hsorted.
  exists (take 10 S). split.
  { unfold Ordered.top10. by rewrite takeOrdered_positive. }
  assert (Hsplit : S = take 10 S ++ drop 10 S) by by rewrite take_drop.
  split.
  { rewrite length_take. f_equal. rewrite HS.
    rewrite <- (length_fmap fst out). apply Permutation_length.
    apply NoDup_Permutation; [done|apply NoDup_remove_dups|].
    intros t. rewrite elem_of_remove_dups. split.
    - intros [[t' m] [-> Hm]]%list_elem_of_fmap_1. by apply Hin in Hm as [? _].
    - intros Ht. apply (list_elem_of_fmap_2' fst _ (t, LowLevel.occurrences t (LowLevel.tokens lower split lyrics)));
        [by apply Hin|done]. }
  assert (HndS : NoDup (take 10 S).*1 /\
                 forall x, x ∈ (take 10 S).*1 -> x ∉ (drop 10 S).*1).
  { assert (HndS : NoDup S.*1) by by rewrite HS.
    rewrite Hsplit, fmap_app in HndS. apply NoDup_app in HndS as (? & ? & _). done. }
  destruct HndS as [Hndtop Hdisj].
  split; [done|]. split.
  { intros t m Htm. apply Hin. rewrite <- HS, Hsplit. apply elem_of_app. by left. }
  split.
  { apply sorted_by_count_desc. by apply sorted_take. }
  intros t p Ht Hnot Hp.
  assert (Hpair : (t, LowLevel.occurrences t (LowLevel.tokens lower split lyrics)) ∈ S).
  { rewrite HS. by apply Hin. }
  rewrite Hsplit in Hpair. apply elem_of_app in Hpair as [Hpair|Hpair].
  { exfalso. apply Hnot. by apply (list_elem_of_fmap_2 fst) in Hpair. }
  rewrite Hsplit in Hsorted.
  pose proof (StronglySorted_app_1_elem_of _ _ _ _ _ Hsorted Hp Hpair) as Hle.
  unfold Ordered.by_count_desc in Hle. simpl in Hle. lia.
Qed.

End words.
End OrderedFacts.

(** ** Strings and tokens *)

Module TokenFacts.

(** *** The methods on code points *)

Section unicode.
Context {Char : Type}.
Variable isspace : Char -> bool.
Variable tolower_full : Char -> list Char.
Variable cased : Char -> bool.
Variable case_ignorable : Char -> bool.
Variable capital_sigma : Char -> bool.
Variable final_sigma small_sigma : Char.

Local Abbreviation split_from := (Unicode.split_from isspace).
Local Abbreviation split := (Unicode.split isspace).
Local Abbreviation is_final_sigma := (Unicode.is_final_sigma cased case_ignorable).
Local Abbreviation lower_from :=
  (Unicode.lower_from tolower_full cased case_ignorable capital_sigma
     final_sigma small_sigma).
Local Abbreviation lower :=
  (Unicode.lower tolower_full cased case_ignorable capital_sigma
     final_sigma small_sigma).

Lemma split_from_words (w s t : list Char) :
  Forall (fun c => isspace c = false) w ->
  t ∈ split_from w s ->
  t ≠ [] /\ Forall (fun c => isspace c = false) t.
Proof.
  revert w. induction s as [|c s IH]; intros w Hw; simpl.
  - destruct w; [by intros ?%elem_of_nil|].
    intros ->%list_elem_of_singleton. done.
  - destruct (isspace c) eqn:Hc.
    + destruct w as [|a w].
      * apply IH. constructor.
      * intros [->|Ht]%elem_of_cons; [done|].
        revert Ht. apply IH. constructor.
    + apply IH. apply Forall_app. split; [done|]. by constructor.
Qed.

Lemma split_from_blank (w s : list Char) :
  Forall (fun c => isspace c = true) s ->
  split_from w s = match w with [] => [] | _ => [w] end.
Proof.
  revert w. induction s as [|c s IH]; intros w Hs; simpl; [done|].
  apply Forall_cons_1 in Hs as [Hc Hs]. rewrite Hc.
  destruct w; rewrite (IH []) by done; done.
Qed.

Lemma split_from_app_space (w a b : list Char) (c : Char) :
  isspace c = true ->
  split_from w (a ++ c :: b) = split_from w a ++ split b.
Proof.
  intros Hc. revert w. induction a as [|x a IH]; intros w; simpl.
  - rewrite Hc. by destruct w.
  - destruct (isspace x); [|apply IH].
    destruct w; simpl; by rewrite IH.
Qed.

Lemma split_from_word (w a : list Char) :
  Forall (fun c => isspace c = false) a ->
  split_from w a = match w ++ a with [] => [] | _ => [w ++ a] end.
Proof.
  intros Ha. revert w. induction Ha as [|x a Hx _ IH]; intros w; simpl.
  - by rewrite app_nil_r.
  - rewrite Hx, IH, <- app_assoc. done.
Qed.

(** X6.  [split()] never returns an empty word or a word with a
    whitespace character in it; a text of whitespace only (also the empty
    text) gives no word; a text without whitespace is its own single word;
    and the words of two texts joined by a whitespace character are the
    words of the first followed by the words of the second. *)
Theorem X6_split_words (a b t : list Char) (c : Char) :
  (t ∈ split a -> t ≠ [] /\ Forall (fun x => isspace x = false) t) /\
  (Forall (fun x => isspace x = true) a -> split a = []) /\
  (a ≠ [] -> Forall (fun x => isspace x = false) a -> split a = [a]) /\
  (isspace c = true -> split (a ++ c :: b) = split a ++ split b).
Proof.
  split; [apply split_from_words; constructor|]. split; [|split].
  - intros Ha. by apply (split_from_blank []).
  - intros Hne Ha. unfold Unicode.split. rewrite split_from_word by done.
    by destruct a.
  - intros Hc. by apply (split_from_app_space []).
Qed.

(** Every text is free of whitespace or has a first whitespace
    character. *)
Lemma first_space (s : list Char) :
  Forall (fun c => isspace c = false) s \/
  exists a c b, s = a ++ c :: b /\
    Forall (fun x => isspace x = false) a /\ isspace c = true.
Proof.
  induction s as [|x s IH]; [by left|].
  destruct (isspace x) eqn:Hx.
  - right. exists [], x, s. done.
  - destruct IH as [Hs|(a & c & b & -> & Ha & Hc)].
    + left. by constructor.
    + right. exists (x :: a), c, b. split; [done|]. split; [|done].
      by constructor.
Qed.

Section caseless.
Hypothesis tables :
  Unicode.whitespace_is_caseless isspace tolower_full cased case_ignorable
    capital_sigma final_sigma small_sigma.

Lemma final_sigma_before (l r after : list Char) (c : Char) :
  isspace c = true ->
  is_final_sigma (l ++ c :: r) after = is_final_sigma l after.
Proof.
  intros Hc. destruct tables as (Hws & _). destruct (Hws c Hc) as (_ & _ & Hcased & Hign).
  unfold Unicode.is_final_sigma.
  induction l as [|x l IH]; simpl.
  - by rewrite Hign, Hcased.
  - destruct (case_ignorable x); [apply IH|done].
Qed.

Lemma final_sigma_after (before l r : list Char) (c : Char) :
  isspace c = true ->
  is_final_sigma before (l ++ c :: r) = is_final_sigma before l.
Proof.
  intros Hc. destruct tables as (Hws & _). destruct (Hws c Hc) as (_ & _ & Hcased & Hign).
  unfold Unicode.is_final_sigma.
  destruct (Unicode.skip_ignorable case_ignorable before) as [|y ?]; [done|].
  f_equal. induction l as [|x l IH]; simpl.
  - by rewrite Hign, Hcased.
  - destruct (case_ignorable x); [apply IH|done].
Qed.

Lemma lower_from_before (l r s : list Char) (c : Char) :
  isspace c = true ->
  lower_from (l ++ c :: r) s = lower_from l s.
Proof.
  intros Hc. revert l. induction s as [|x s IH]; intros l; simpl; [done|].
  rewrite final_sigma_before by done. f_equal. apply (IH (x :: l)).
Qed.

Lemma lower_from_app_space (before a b : list Char) (c : Char) :
  isspace c = true ->
  lower_from before (a ++ c :: b) = lower_from before a ++ c :: lower_from [] b.
Proof.
  intros Hc. revert before. induction a as [|x a IH]; intros before; simpl.
  - destruct tables as (Hws & _). destruct (Hws c Hc) as (-> & -> & _).
    simpl. f_equal. apply (lower_from_before [] before b c Hc).
  - rewrite final_sigma_after by done. rewrite IH, <- app_assoc. done.
Qed.

Lemma lower_from_word (before a : list Char) :
  Forall (fun c => isspace c = false) a ->
  Forall (fun c => isspace c = false) (lower_from before a) /\
  (a ≠ [] -> lower_from before a ≠ []).
Proof.
  destruct tables as (_ & Hother & Hfinal & Hsmall).
  intros Ha. revert before. induction Ha as [|x a Hx _ IH]; intros before.
  { split; [constructor|done]. }
  simpl. destruct (IH (x :: before)) as [IHa _].
  destruct (Hother x Hx) as [Hne Hlow].
  destruct (capital_sigma x).
  - split; [|done]. constructor; [|done]. by destruct (is_final_sigma _ _).
  - split; [by apply Forall_app|]. intros _.
    destruct (tolower_full x); [done|done].
Qed.

Lemma split_lower_word (a : list Char) :
  Forall (fun c => isspace c = false) a ->
  split_from [] (lower_from [] a)
  = List.map (fun w => lower_from [] w) (split_from [] a).
Proof.
  intros Ha. destruct (lower_from_word [] a Ha) as [Hlow Hne].
  rewrite (split_from_word [] a Ha), (split_from_word [] _ Hlow).
  cbn [app]. destruct a as [|x a]; [done|].
  specialize (Hne ltac:(done)).
  destruct (lower_from [] (x :: a)) eqn:Hl; [done|]. cbn [List.map].
  by rewrite Hl.
Qed.

Lemma split_lower (s : list Char) :
  split (lower s) = List.map (fun w => lower w) (split s).
Proof.
  unfold Unicode.split, Unicode.lower.
  remember (length s) as n eqn:Hn. revert s Hn.
  induction n as [n IH] using lt_wf_ind. intros s ->.
  destruct (first_space s) as [Hs|(a & c & b & -> & Ha & Hc)].
  - by apply split_lower_word.
  - rewrite lower_from_app_space by done.
    rewrite !split_from_app_space by done. rewrite List.map_app. f_equal.
    + by apply split_lower_word.
    + apply (IH (length b)); [|done]. rewrite length_app. simpl. lia.
Qed.

Lemma flat_map_split_lower (l : list (list Char)) :
  flat_map (fun x => split x) (List.map (fun x => lower x) l)
  = List.map (fun w => lower w) (flat_map (fun x => split x) l).
Proof.
  induction l as [|s l IH]; simpl; [done|].
  by rewrite List.map_app, split_lower, IH.
Qed.

(** X5.  Where whitespace has no case, lower-casing and splitting can be
    swapped: the words of the lower-cased text are the lower-cased words
    of the text (a sigma is final in a word exactly when it is final in
    the text).  Hence the cell that splits the lower-cased lines returns
    the lower-cased words of the raw lines, partition by partition. *)
Theorem X5_lower_and_split_commute (line : list Char) (lyrics : rdd (list Char)) :
  split (lower line) = List.map (fun w => lower w) (split line) /\
  LowLevel.lyrics2 (fun x => lower x) (fun x => split x) lyrics
  = RDD.map (fun w => lower w) (RDD.flatMap (fun x => split x) lyrics) /\
  LowLevel.tokens (fun x => lower x) (fun x => split x) lyrics
  = List.map (fun w => lower w) (flat_map (fun x => split x) (RDD.collect lyrics)).
Proof.
  split; [apply split_lower|]. split.
  - unfold LowLevel.lyrics2, LowLevel.lyrics1, RDD.map, RDD.flatMap.
    rewrite !List.map_map. apply List.map_ext. intros p.
    apply flat_map_split_lower.
  - apply flat_map_split_lower.
Qed.

End caseless.
End unicode.

(** *** Counting *)

Section words.
Context {Str : Type} `{EqDecision Str}.
Variable lower : Str -> Str.
Variable split : Str -> list Str.

Lemma occurrences_nonneg (t : Str) (l : list Str) : 0 <= LowLevel.occurrences t l.
Proof. induction l as [|x l IH]; simpl; [done|]. case_decide; lia. Qed.

Lemma occurrences_elem_of (t : Str) (l : list Str) : t ∈ l -> 1 <= LowLevel.occurrences t l.
Proof.
  induction l as [|x l IH]; [by intros ?%elem_of_nil|].
  intros Ht. simpl. pose proof (occurrences_nonneg t l).
  destruct (decide (x = t)) as [->|Hne]; [lia|].
  apply elem_of_cons in Ht as [->|Ht]; [done|]. apply IH in Ht. lia.
Qed.

Lemma occurrences_filter (t : Str) (l : list Str) :
  LowLevel.occurrences t l
  = Z.of_nat (length (List.filter (fun x => bool_decide (x = t)) l)).
Proof.
  induction l as [|x l IH]; simpl; [done|].
  destruct (decide (x = t)) as [->|Hne].
  - rewrite bool_decide_eq_true_2 by done. simpl. lia.
  - rewrite bool_decide_eq_false_2 by done. lia.
Qed.

Lemma sum_add {K} (f g : K -> Z) (ks : list K) :
  foldr Z.add 0 ((fun k => f k + g k) <$> ks)
  = foldr Z.add 0 (f <$> ks) + foldr Z.add 0 (g <$> ks).
Proof. induction ks as [|k ks IH]; csimpl; [done|]. rewrite IH. lia. Qed.

Lemma indicator_sum (x : Str) (ks : list Str) :
  NoDup ks ->
  foldr Z.add 0 ((fun k => if decide (x = k) then 1 else 0) <$> ks)
  = if decide (x ∈ ks) then 1 else 0.
Proof.
  induction 1 as [|k ks Hk Hks IH]; csimpl; [done|].
  rewrite IH. destruct (decide (x = k)) as [->|Hne].
  - rewrite decide_False by done. rewrite decide_True; [done|]. left.
  - destruct (decide (x ∈ ks)) as [Hin|Hnin].
    + rewrite decide_True; [done|]. by right.
    + rewrite decide_False; [done|]. by intros [?|?]%elem_of_cons.
Qed.

(** The occurrences of the members of a duplicate-free list that covers
    [l] add up to the length of [l]. *)
Lemma occurrences_sum (ks l : list Str) :
  NoDup ks -> (forall x, x ∈ l -> x ∈ ks) ->
  foldr Z.add 0 ((fun k => LowLevel.occurrences k l) <$> ks) = Z.of_nat (length l).
Proof.
  intros Hks. induction l as [|x l IH]; intros Hcover.
  - simpl. clear. induction ks as [|k ks IH]; csimpl; [done|]. by rewrite IH.
  - assert (Hx : x ∈ ks) by (apply Hcover; left).
    specialize (IH (fun y Hy => Hcover y (list_elem_of_further _ _ _ Hy))).
    transitivity (foldr Z.add 0
      ((fun k => (if decide (x = k) then 1 else 0) + LowLevel.occurrences k l)
         <$> ks)); [reflexivity|].
    rewrite (sum_add (fun k => if decide (x = k) then 1 else 0)
               (fun k => LowLevel.occurrences k l)).
    rewrite IH, indicator_sum by done. rewrite decide_True by done.
    rewrite length_cons. lia.
Qed.

(** X8.  The counts of [wordCount] add up to the number of tokens, every
    count is at least 1, and there are as many pairs as different
    tokens. *)
Theorem X8_wordCount_counts_add_up
    (parallelism : option nat) (portable_hash : Str -> Z)
    (lyrics : rdd Str) :
  parallelism ≠ Some 0%nat ->
  foldr Z.add 0
    (RDD.collect (LowLevel.wordCount lower split parallelism portable_hash lyrics)).*2
  = Z.of_nat (length (LowLevel.tokens lower split lyrics)) /\
  (forall t n,
     (t, n) ∈ RDD.collect (LowLevel.wordCount lower split parallelism portable_hash lyrics) ->
     1 <= n) /\
  length (RDD.collect (LowLevel.wordCount lower split parallelism portable_hash lyrics))
  = length (remove_dups (LowLevel.tokens lower split lyrics)).
Proof.
  intros Hpar.
  destruct (OrderedFacts.wordCount_pairs lower split parallelism portable_hash lyrics Hpar)
    as [Hnd Hin].
  set (out := RDD.collect (LowLevel.wordCount lower split parallelism portable_hash lyrics)) in *.
  assert (Hcounts : out.*2
            = (fun k => LowLevel.occurrences k (LowLevel.tokens lower split lyrics)) <$> out.*1).
  { rewrite <- list_fmap_compose. apply Forall_fmap_ext_1, Forall_forall.
    intros [t n] Htn. by apply Hin in Htn as [_ ->]. }
  assert (Hkeys : forall t, t ∈ out.*1 <-> t ∈ LowLevel.tokens lower split lyrics).
  { intros t. split.
    - intros [[t' m] [-> Hm]]%list_elem_of_fmap_1. by apply Hin in Hm as [? _].
    - intros Ht.
      apply (list_elem_of_fmap_2' fst _
               (t, LowLevel.occurrences t (LowLevel.tokens lower split lyrics)));
        [by apply Hin|done]. }
  split.
  { rewrite Hcounts. apply occurrences_sum; [done|]. intros x. apply Hkeys. }
  split.
  { intros t n Htn. apply Hin in Htn as [Ht ->]. by apply occurrences_elem_of. }
  rewrite <- (length_fmap fst out). apply Permutation_length.
  apply NoDup_Permutation; [done|apply NoDup_remove_dups|].
  intros t. by rewrite elem_of_remove_dups.
Qed.

(** X9.  When lower-casing and splitting can be swapped, words that
    differ only in the case of their letters are counted together: every
    key is the lower case of a word of the raw lines, and its count is the
    number of words of the raw lines whose lower case is the key. *)
Theorem X9_wordCount_folds_case
    (parallelism : option nat) (portable_hash : Str -> Z)
    (lyrics : rdd Str) (t : Str) (n : Z) :
  (forall line, split (lower line) = List.map lower (split line)) ->
  parallelism ≠ Some 0%nat ->
  (t, n) ∈ RDD.collect (LowLevel.wordCount lower split parallelism
                          portable_hash lyrics) ->
  (exists w, w ∈ flat_map split (RDD.collect lyrics) /\ t = lower w) /\
  n = Z.of_nat (length (List.filter (fun w => bool_decide (lower w = t))
                          (flat_map split (RDD.collect lyrics)))).
Proof.
  intros Hswap Hpar Htn.
  destruct (OrderedFacts.wordCount_pairs lower split parallelism portable_hash
              lyrics Hpar) as [_ Hin].
  apply Hin in Htn as [Ht ->].
  assert (Htok : LowLevel.tokens lower split lyrics
                 = List.map lower (flat_map split (RDD.collect lyrics))).
  { unfold LowLevel.tokens. generalize (RDD.collect lyrics) as l.
    induction l as [|s l IH]; simpl; [done|].
    by rewrite List.map_app, Hswap, IH. }
  rewrite Htok in *. split.
  - apply list_elem_of_In, in_map_iff in Ht as [w [<- Hw]].
    exists w. split; [by apply list_elem_of_In|done].
  - rewrite occurrences_filter. f_equal.
    generalize (flat_map split (RDD.collect lyrics)) as raw. clear.
    induction raw as [|w raw IH]; simpl; [done|].
    destruct (bool_decide (lower w = t)); simpl; by rewrite IH.
Qed.

End words.

(** *** The ASCII instance *)

Lemma ascii_split_lower (s : string) :
  Py.split (Py.lower s) = List.map Py.lower (Py.split s).
Proof.
  assert (Hsp : forall c, Py.isspace (Py.ascii_lower c) = Py.isspace c)
    by (by intros [[] [] [] [] [] [] [] []]).
  assert (Happ : forall a b, Py.lower (a +:+ b) = Py.lower a +:+ Py.lower b).
  { intros a b. induction a as [|c a IH]; simpl; [done|]. by rewrite IH. }
  unfold Py.split. change EmptyString with (Py.lower EmptyString) at 1.
  generalize EmptyString as w. induction s as [|c s IH]; intros w; simpl.
  - by destruct w.
  - rewrite Hsp. destruct (Py.isspace c).
    + destruct w as [|a w]; simpl; [apply (IH EmptyString)|].
      f_equal. apply (IH EmptyString).
    + rewrite <- IH, Happ. done.
Qed.

End TokenFacts.

(** ** Transformations of partitioned collections *)

Module RDDFacts.

(** X1.  [filter], [map] and [flatMap] keep the number of partitions, and
    what they collect is the list operation on what the source collects:
    the result does not depend on how the data is partitioned.  For the
    notebook's [filter] these are the even elements, in their order. *)
Theorem X1_narrow_transformations_ignore_partitioning
    {A B : Type} (p : A -> bool) (f : A -> B) (g : A -> list B)
    (r : rdd A) (ints : rdd Z) :
  length (RDD.filter p r) = length r /\
  length (RDD.map f r) = length r /\
  length (RDD.flatMap g r) = length r /\
  RDD.collect (RDD.filter p r) = List.filter p (RDD.collect r) /\
  RDD.collect (RDD.map f r) = List.map f (RDD.collect r) /\
  RDD.collect (RDD.flatMap g r) = flat_map g (RDD.collect r) /\
  (forall x, x ∈ RDD.collect (RDD.filter LowLevel.is_even ints) <->
             x ∈ RDD.collect ints /\ Z.even x = true).
Proof.
  unfold RDD.filter, RDD.map, RDD.flatMap. rewrite !length_map.
  split; [done|]. split; [done|]. split; [done|].
  split; [apply WordCount.collect_filter|].
  split; [apply WordCount.collect_map|].
  split; [apply WordCount.collect_flatMap|].
  intros x. fold (RDD.filter LowLevel.is_even ints).
  rewrite WordCount.collect_filter, list_elem_of_In, filter_In, <- list_elem_of_In.
  unfold LowLevel.is_even. rewrite Zeven_mod. tauto.
Qed.

Lemma select_sublist {A} (sel : nat -> bool) (l : list A) :
  concat (imap (fun i x => if sel i then [x] else []) l) `sublist_of` l.
Proof.
  revert sel. induction l as [|x l IH]; intros sel; [done|].
  rewrite imap_cons. cbn [concat].
  specialize (IH (sel ∘ S)). unfold compose in IH.
  destruct (sel 0%nat); simpl; by constructor.
Qed.

Lemma select_all {A} (sel : nat -> bool) (l : list A) :
  (forall i, sel i = true) ->
  concat (imap (fun i x => if sel i then [x] else []) l) = l.
Proof.
  intros Hsel. revert sel Hsel. induction l as [|x l IH]; intros sel Hsel; [done|].
  rewrite imap_cons. cbn [concat]. rewrite Hsel. simpl. f_equal.
  apply (IH (sel ∘ S)). intros i. apply Hsel.
Qed.

Lemma select_none {A} (sel : nat -> bool) (l : list A) :
  (forall i, sel i = false) ->
  concat (imap (fun i x => if sel i then [x] else []) l) = [].
Proof.
  intros Hsel. revert sel Hsel. induction l as [|x l IH]; intros sel Hsel; [done|].
  rewrite imap_cons. cbn [concat]. rewrite Hsel. simpl.
  apply (IH (sel ∘ S)). intros i. apply Hsel.
Qed.

Lemma imap_sublists {A} (f : nat -> list A -> list A) (r : rdd A) :
  (forall i p, f i p `sublist_of` p) -> concat (imap f r) `sublist_of` concat r.
Proof.
  revert f. induction r as [|p r IH]; intros f Hf; [done|].
  rewrite imap_cons. cbn [concat]. apply sublist_app; [apply Hf|].
  apply (IH (f ∘ S)). intros i q. apply Hf.
Qed.

Lemma imap_partitions {A} (f : nat -> list A -> list A) (r : rdd A) :
  (forall i p, f i p = p) -> imap f r = r.
Proof.
  revert f. induction r as [|p r IH]; intros f Hf; [done|].
  rewrite imap_cons, Hf. f_equal. apply (IH (f ∘ S)). intros i q. apply Hf.
Qed.

Lemma imap_partitions_nil {A} (f : nat -> list A -> list A) (r : rdd A) :
  (forall i p, f i p = []) -> concat (imap f r) = [].
Proof.
  revert f. induction r as [|p r IH]; intros f Hf; [done|].
  rewrite imap_cons, Hf. cbn [concat]. simpl.
  apply (IH (f ∘ S)). intros i q. apply Hf.
Qed.

(** X3.  Sampling without replacement keeps the partitions and returns a
    sub-sequence of the collection: no element is invented, repeated or
    moved.  With draws in [0,1), a fraction of 1 or more keeps everything
    and a fraction of 0 keeps nothing. *)
Theorem X3_sample_without_replacement_is_a_subsequence
    {A : Type} (g : Rng) (fraction : Q) (seed : Z) (r : rdd A) :
  length (RDD.sample g false fraction seed r) = length r /\
  RDD.collect (RDD.sample g false fraction seed r) `sublist_of` RDD.collect r /\
  ((forall split i, (0 <= uniform g seed split i)%Q /\
                    (uniform g seed split i < 1)%Q) ->
   ((1 <= fraction)%Q -> RDD.sample g false fraction seed r = r) /\
   ((fraction == 0)%Q -> RDD.collect (RDD.sample g false fraction seed r) = [])).
Proof.
  unfold RDD.sample, RDD.collect. split; [apply length_imap|]. split.
  - apply imap_sublists. intros split p. unfold RDD.sample_partition.
    apply (select_sublist (fun i => Qltb (uniform g seed split i) fraction)).
  - intros Hdraw. split; intros Hf.
    + apply imap_partitions. intros split p. unfold RDD.sample_partition.
      apply (select_all (fun i => Qltb (uniform g seed split i) fraction)).
      intros i. destruct (Hdraw split i) as [_ Hlt]. unfold Qltb.
      apply negb_true_iff, not_true_is_false. intros Hle%Qle_bool_iff.
      apply (Qlt_irrefl 1). eapply Qle_lt_trans; [|exact Hlt].
      by eapply Qle_trans.
    + apply imap_partitions_nil. intros split p. unfold RDD.sample_partition.
      apply (select_none (fun i => Qltb (uniform g seed split i) fraction)).
      intros i. destruct (Hdraw split i) as [Hge _]. unfold Qltb.
      apply negb_false_iff, Qle_bool_iff. by rewrite Hf.
Qed.

(** X4.  [flatMap] with [lambda x: (x, str(x))] flattens what [map] with
    the same lambda returns: each element is followed by its string, and
    the collection becomes twice as long. *)
Theorem X4_flatMap_flattens_the_pairs_of_map (r : rdd Z) :
  RDD.collect (RDD.flatMap LowLevel.with_str_items r)
  = flat_map (fun p : Z * string => [Py.PyInt p.1; Py.PyStr p.2])
      (RDD.collect (RDD.map LowLevel.with_str r)) /\
  length (RDD.collect (RDD.flatMap LowLevel.with_str_items r))
  = (2 * length (RDD.collect r))%nat /\
  length (RDD.collect (RDD.map LowLevel.with_str r)) = length (RDD.collect r).
Proof.
  rewrite WordCount.collect_flatMap, WordCount.collect_map.
  generalize (RDD.collect r) as l. intros l. split; [|split].
  - induction l as [|x l IH]; simpl; [done|]. by rewrite IH.
  - induction l as [|x l IH]; simpl; [done|]. rewrite IH. lia.
  - apply length_map.
Qed.

Section by_key.
Context {K V : Type} `{EqDecision K}.

Lemma mergeCombiners_keys (func : V -> V -> V) (l d : list (K * V)) :
  NoDup d.*1 ->
  NoDup (foldl (fun d kc => RDD.upsert d kc.1 kc.2 (fun c => func c kc.2)) d l).*1 /\
  forall k,
    k ∈ (foldl (fun d kc => RDD.upsert d kc.1 kc.2 (fun c => func c kc.2)) d l).*1
    <-> k ∈ d.*1 \/ k ∈ l.*1.
Proof.
  revert d. induction l as [|[k' v] l IH]; intros d Hd; simpl.
  - split; [done|]. intros k. rewrite elem_of_nil. tauto.
  - destruct (IH (RDD.upsert d k' v (fun c => func c v))
                (ByKey.upsert_NoDup d k' v _ Hd)) as [Hnd Hk].
    split; [done|]. intros k. rewrite Hk, ByKey.upsert_elem_of_keys.
    csimpl. rewrite elem_of_cons. tauto.
Qed.

(** X10.  For every combining function [reduceByKey] returns exactly
    [numPartitions] partitions; a partition holds no key twice and only
    keys that the partition function sends to it; and (for a non-zero
    number of partitions) the keys of the result are the keys of the
    source. *)
Theorem X10_reduceByKey_places_every_key_once
    (func : V -> V -> V) (n : nat) (pf : K -> Z) (r : rdd (K * V)) :
  length (RDD.reduceByKey func n pf r) = n /\
  (forall j p, RDD.reduceByKey func n pf r !! j = Some p ->
     NoDup p.*1 /\ forall k, k ∈ p.*1 -> RDD.bucket n pf k = j) /\
  (n ≠ 0%nat ->
   forall k, k ∈ (RDD.collect (RDD.reduceByKey func n pf r)).*1
             <-> k ∈ (RDD.collect r).*1).
Proof.
  unfold RDD.reduceByKey, RDD.combineByKey, RDD.partitionBy.
  rewrite List.map_map.
  set (L := concat (List.map (RDD.mergeValues (fun x => x) func) r)).
  set (f := fun j => RDD.mergeCombiners func
              (List.filter (fun kc : K * V => Nat.eqb (RDD.bucket n pf kc.1) j) L)).
  assert (Hf : forall j, NoDup (f j).*1 /\
             forall k, k ∈ (f j).*1 <-> RDD.bucket n pf k = j /\ k ∈ L.*1).
  { intros j. unfold f, RDD.mergeCombiners.
    destruct (mergeCombiners_keys func
                (List.filter (fun kc : K * V => Nat.eqb (RDD.bucket n pf kc.1) j) L)
                [] (NoDup_nil_2)) as [Hnd Hk].
    split; [done|]. intros k. rewrite Hk. csimpl. rewrite elem_of_nil.
    assert (Hb : k ∈ (List.filter
                        (fun kc : K * V => Nat.eqb (RDD.bucket n pf kc.1) j) L).*1
                 <-> RDD.bucket n pf k = j /\ k ∈ L.*1).
    { clear. induction L as [|[k' v] L IH]; csimpl.
      - rewrite elem_of_nil. tauto.
      - destruct (Nat.eqb_spec (RDD.bucket n pf k') j) as [Hb|Hb]; csimpl;
          rewrite ?elem_of_cons, IH; intuition congruence. }
    rewrite Hb. tauto. }
  assert (HL : forall k, k ∈ L.*1 <-> k ∈ (concat r).*1).
  { intros k. unfold L. clear. induction r as [|p r IH]; simpl; [done|].
    rewrite !fmap_app, !elem_of_app, IH. unfold RDD.mergeValues.
    destruct (mergeCombiners_keys func p [] (NoDup_nil_2)) as [_ Hk].
    rewrite (Hk k). csimpl. rewrite elem_of_nil. tauto. }
  split; [by rewrite length_map, length_seq|]. split.
  - intros j p Hp. apply list_lookup_fmap_Some_1 in Hp as (j' & -> & Hj').
    apply lookup_seq in Hj' as [-> _]. simpl.
    destruct (Hf j) as [Hnd Hk]. split; [done|]. intros k Hin.
    by apply Hk in Hin as [? _].
  - intros Hn k. unfold RDD.collect. rewrite <- HL. split.
    + intros [[k' v] [-> Hin]]%list_elem_of_fmap_1.
      apply list_elem_of_In, in_concat in Hin as [p [Hp Hin]].
      apply in_map_iff in Hp as [j [<- _]]. apply list_elem_of_In in Hin.
      apply (list_elem_of_fmap_2 fst) in Hin. by apply Hf in Hin as [_ ?].
    + intros Hk.
      assert (Hkj : k ∈ (f (RDD.bucket n pf k)).*1) by by apply Hf.
      apply list_elem_of_fmap_1 in Hkj as [[k' v] [-> Hin]].
      apply (list_elem_of_fmap_2' fst _ (k', v)); [|done].
      apply list_elem_of_In, in_concat. exists (f (RDD.bucket n pf k')). split.
      * apply in_map_iff. exists (RDD.bucket n pf k'). split; [done|].
        apply in_seq. pose proof (ByKey.bucket_lt n pf k' Hn). lia.
      * by apply list_elem_of_In.
Qed.

End by_key.
End RDDFacts.

(** ** What a new RDD collects *)

Module LineageFacts.
Import Lineage.

(** What an action computes for the RDD a transformation call returns. *)
Lemma compute_transform e t src nodes :
  mjoin (eval_all e (transform t src nodes).2 !! (transform t src nodes).1)
  = mjoin (eval_all e nodes !! src) ≫= apply e t.
Proof.
  unfold transform. simpl. rewrite Immutable.eval_all_snoc.
  rewrite lookup_app_r by by rewrite Immutable.eval_all_length.
  by rewrite Immutable.eval_all_length, Nat.sub_diag.
Qed.

(** X13.  The RDD a [map], [filter] or [flatMap] call returns collects to
    the mapped, filtered or flattened collection of its source, for every
    lineage of the source.  If the lambda raises on an element of the
    source, or the source itself cannot be computed, collecting the new RDD
    fails. *)
Theorem X13_new_rdd_collects_the_transformed_source
    (e : Env) (nodes : list Node) (src : nat)
    (f : Py.PyVal -> Py.PyVal) (p : Py.PyVal -> bool)
    (g : Py.PyVal -> list Py.PyVal) (bad : Py.PyVal -> option Py.PyVal)
    (t : Transformation) :
  (forall xs, collect e nodes src = Some xs ->
     collect e (transform (Map (fun x => Some (f x))) src nodes).2 (length nodes)
       = Some (List.map f xs) /\
     collect e (transform (Filter (fun x => Some (p x))) src nodes).2 (length nodes)
       = Some (List.filter p xs) /\
     collect e (transform (FlatMap (fun x => Some (g x))) src nodes).2 (length nodes)
       = Some (flat_map g xs) /\
     (forall x, x ∈ xs -> bad x = None ->
        collect e (transform (Map bad) src nodes).2 (length nodes) = None)) /\
  (collect e nodes src = None ->
   collect e (transform t src nodes).2 (length nodes) = None).
Proof.
  assert (Hnew : forall t', collect e (transform t' src nodes).2 (length nodes)
            = RDD.collect <$> (mjoin (eval_all e nodes !! src) ≫= apply e t')).
  { intros t'. unfold collect.
    by rewrite <- (compute_transform e t' src nodes). }
  split.
  - intros xs Hxs. unfold collect in Hxs.
    destruct (mjoin (eval_all e nodes !! src)) as [r|] eqn:Hr; [|done].
    injection Hxs as <-. rewrite !Hnew. cbn [mbind option_bind apply].
    split; [|split; [|split]].
    + rewrite Immutable.mapM_partitions_total. cbn. f_equal.
      apply WordCount.collect_map.
    + rewrite (Immutable.mapM_partitions_total (fun x => (x, p x))). cbn. f_equal.
      rewrite WordCount.collect_map, WordCount.collect_filter, WordCount.collect_map.
      apply Immutable.filter_tagged.
    + rewrite Immutable.mapM_partitions_total. cbn. f_equal.
      rewrite WordCount.collect_flatMap, WordCount.collect_map.
      generalize (RDD.collect r). intros l.
      induction l as [|x l IH]; simpl; [done|]. by rewrite IH.
    + intros x Hx Hbad. by rewrite (Immutable.mapM_partitions_raises bad r x).
  - intros Hnone. rewrite Hnew. unfold collect in Hnone.
    destruct (mjoin (eval_all e nodes !! src)) as [r|]; [discriminate|]. done.
Qed.

End LineageFacts.

(** ** More on the data-frame cells *)

Module FrameFacts.
Section frames.
Context {Cell : Type} `{EqDecision Cell}.
Variable null : Cell.
Variable parse_field : list (list string) -> nat -> string -> Cell.
Variable avg : list Cell -> Cell.
Variable round : Cell -> Z -> Cell.
Variable cell_leb : Cell -> Cell -> bool.
Variable count_cell : nat -> Cell.

(** X14.  The read fails with [IllegalArgumentException] on an empty file
    and on a file whose first record does not have exactly 14 fields; in
    every other case it succeeds, whatever the later records look like. *)
Theorem X14_read_wine_fails_unless_first_record_has_14_fields
    (records : list (list string)) :
  Main.read_wine null parse_field records =
  match records with
  | [] => Raise IllegalArgumentException
  | first :: _ =>
      if decide (length first = 14%nat)
      then Ok {| SQL.columns := Main.colNames;
                 SQL.rows := SQL.parse_record null parse_field records 14
                               <$> records |}
      else Raise IllegalArgumentException
  end.
Proof.
  destruct records as [|first rest].
  - unfold Main.read_wine, SQL.toDF. by case_decide.
  - case_decide as Hlen.
    + by apply Frames.read_wine_succeeds.
    + unfold Main.read_wine, SQL.toDF, SQL.csv. cbn [SQL.columns].
      unfold SQL.default_names. rewrite length_fmap, length_seq.
      rewrite decide_False; [done|]. intros Heq. apply Hlen. by rewrite <- Heq.
Qed.

Lemma parse_record_length data width (record : list string) :
  length (SQL.parse_record null parse_field data width record) = width.
Proof.
  unfold SQL.parse_record.
  rewrite length_app, length_imap, length_take, length_replicate. lia.
Qed.

(** X15.  Every row of the frame read has exactly 14 cells and there is
    one row per record.  A cell is the parsed field at its position; where
    a record is too short the cell is null, and fields beyond the 14th are
    dropped. *)
Theorem X15_rows_have_14_cells_short_records_are_padded
    (records : list (list string)) (wine : SQL.DataFrame Cell) :
  Main.read_wine null parse_field records = Ok wine ->
  Forall (fun r => length r = 14%nat) (SQL.rows wine) /\
  length (SQL.rows wine) = length records /\
  (forall i record, records !! i = Some record ->
     exists r, SQL.rows wine !! i = Some r /\
       (forall j field, (j < 14)%nat -> record !! j = Some field ->
          r !! j = Some (parse_field records j field)) /\
       (forall j, (length record <= j < 14)%nat -> r !! j = Some null)).
Proof.
  intros Hread.
  destruct (Frames.read_wine_inv null parse_field records wine Hread)
    as (first & rest & Hrec & _ & ->).
  cbn [SQL.rows]. split; [|split].
  - apply Forall_fmap, Forall_forall. intros record _. apply parse_record_length.
  - apply length_fmap.
  - intros i record Hi. eexists. split.
    { rewrite list_lookup_fmap, Hi. reflexivity. }
    unfold SQL.parse_record. split.
    + intros j field Hj Hfield.
      rewrite lookup_app_l by (rewrite length_imap, length_take;
        apply lookup_lt_Some in Hfield; lia).
      rewrite list_lookup_imap, lookup_take_lt by done. by rewrite Hfield.
    + intros j Hj.
      rewrite lookup_app_r by (rewrite length_imap, length_take; lia).
      apply lookup_replicate_2. rewrite length_imap, length_take. lia.
Qed.

(** *** Duplicates *)

(** X7.  Dropping the duplicates is what makes the check pass: the
    de-duplicated frame always passes, it has the same columns and the same
    rows up to repetition, never more rows, and dropping duplicates twice
    changes nothing more. *)
Theorem X7_dropDuplicates_passes_the_check (wine : SQL.DataFrame Cell) :
  Main.check_duplicates (SQL.dropDuplicates wine) = Ok (SQL.dropDuplicates wine) /\
  SQL.columns (SQL.dropDuplicates wine) = SQL.columns wine /\
  (forall r, r ∈ SQL.rows (SQL.dropDuplicates wine) <-> r ∈ SQL.rows wine) /\
  (SQL.count (SQL.dropDuplicates wine) <= SQL.count wine)%nat /\
  SQL.dropDuplicates (SQL.dropDuplicates wine) = SQL.dropDuplicates wine.
Proof.
  assert (Hidem : remove_dups (remove_dups (SQL.rows wine))
                  = remove_dups (SQL.rows wine)).
  { apply Frames.remove_dups_NoDup_id, NoDup_remove_dups. }
  split.
  { unfold Main.check_duplicates, SQL.count, SQL.dropDuplicates.
    cbn [SQL.rows SQL.columns]. rewrite Hidem. by rewrite Nat.eqb_refl. }
  split; [done|]. split; [intros r; apply elem_of_remove_dups|]. split.
  - apply Frames.remove_dups_length_le.
  - unfold SQL.dropDuplicates. cbn [SQL.rows SQL.columns]. by rewrite Hidem.
Qed.

(** *** The null check *)

Lemma null_count_zero i (rs : list (list Cell)) :
  Checks.null_count null i rs = 0%nat <-> Forall (fun r => nth i r null ≠ null) rs.
Proof.
  clear parse_field avg round cell_leb count_cell.
  unfold Checks.null_count. induction rs as [|r rs IH]; simpl.
  - split; [constructor|done].
  - rewrite Forall_cons. destruct (decide (nth i r null = null)) as [Heq|Hne].
    + rewrite bool_decide_eq_true_2 by done. simpl. split; [done|tauto].
    + rewrite bool_decide_eq_false_2 by done. rewrite IH. tauto.
Qed.

Lemma resolve_own_columns caseSensitive :
  mapM (fun c => SQL.resolve caseSensitive c Main.colNames) Main.colNames
  = Ok (seq 0 14).
Proof. destruct caseSensitive; vm_compute; reflexivity. Qed.

(** X16.  On the wine frame the null check returns one row under the
    frame's own column names; the cell of a column is the count of the
    rows in which that column is null (zeros for a frame without rows),
    and all counts are zero exactly when no cell of the frame is null. *)
Theorem X16_null_check_counts_nulls_per_column
    (caseSensitive : bool) (wine : SQL.DataFrame Cell) :
  SQL.columns wine = Main.colNames ->
  Forall (fun r => length r = 14%nat) (SQL.rows wine) ->
  Checks.null_counts null count_cell caseSensitive wine =
    Ok {| SQL.columns := Main.colNames;
          SQL.rows := [(fun i => count_cell (Checks.null_count null i (SQL.rows wine)))
                         <$> seq 0 14] |} /\
  (Forall (fun i => Checks.null_count null i (SQL.rows wine) = 0%nat) (seq 0 14) <->
   Forall (Forall (fun c => c ≠ null)) (SQL.rows wine)).
Proof.
  intros Hcols Hlen. split.
  - unfold Checks.null_counts. rewrite Hcols, resolve_own_columns. done.
  - rewrite !Forall_forall. split.
    + intros Hzero r Hr. apply Forall_forall. intros c Hc.
      apply list_elem_of_In, (In_nth _ _ null) in Hc as (i & Hi & <-).
      rewrite Forall_forall in Hlen. rewrite (Hlen r Hr) in Hi.
      assert (Hi' : i ∈ seq 0 14) by (apply elem_of_seq; lia).
      apply Hzero, null_count_zero in Hi'. rewrite Forall_forall in Hi'. by apply Hi'.
    + intros Hnonnull i Hi. apply null_count_zero, Forall_forall. intros r Hr.
      specialize (Hnonnull r Hr). rewrite Forall_forall in Hnonnull.
      rewrite Forall_forall in Hlen.
      apply Hnonnull, list_elem_of_In, nth_In. rewrite (Hlen r Hr).
      apply elem_of_seq in Hi. lia.
Qed.

(** *** The grouped queries *)

Lemma insert_row_Sorted i (r : list Cell) (sorted : list (list Cell)) :
  (forall a b, cell_leb a b = false -> cell_leb b a = true) ->
  Sorted (fun a b => cell_leb (nth i a null) (nth i b null) = true) sorted ->
  Sorted (fun a b => cell_leb (nth i a null) (nth i b null) = true)
    (SQL.insert_row null cell_leb i r sorted).
Proof.
  intros Htotal. induction 1 as [|r' s Hs IH Hhd]; simpl.
  - repeat constructor.
  - destruct (cell_leb (nth i r null) (nth i r' null)) eqn:Hle.
    + constructor; [by constructor|by constructor].
    + constructor; [done|].
      destruct s as [|r'' s]; simpl.
      * constructor. by apply Htotal.
      * destruct (cell_leb (nth i r null) (nth i r'' null)).
        -- constructor. by apply Htotal.
        -- constructor. by inversion Hhd.
Qed.

Lemma sort_rows_Sorted i (rs : list (list Cell)) :
  (forall a b, cell_leb a b = false -> cell_leb b a = true) ->
  Sorted (fun a b => cell_leb (nth i a null) (nth i b null) = true)
    (SQL.sort_rows null cell_leb i rs).
Proof.
  intros Htotal. unfold SQL.sort_rows.
  induction rs as [|r rs IH]; simpl; [constructor|].
  by apply insert_row_Sorted.
Qed.

(** The sizes of the groups of a key column add up to the number of rows. *)
Lemma group_sizes_sum i (ks : list Cell) (rs : list (list Cell)) :
  NoDup ks -> (forall r, r ∈ rs -> nth i r null ∈ ks) ->
  sum_list ((fun k => length (SQL.group_rows null i k rs)) <$> ks) = length rs.
Proof.
  intros Hks. unfold SQL.group_rows.
  induction rs as [|r rs IH]; intros Hcover.
  - simpl. clear. induction ks as [|k ks IH]; csimpl; [done|]. by rewrite IH.
  - assert (Hr : nth i r null ∈ ks) by (apply Hcover; left).
    specialize (IH (fun y Hy => Hcover y (list_elem_of_further _ _ _ Hy))).
    simpl. rewrite <- IH. clear IH Hcover.
    induction Hks as [|k ks Hk Hks IHks]; [by apply elem_of_nil in Hr|].
    csimpl. destruct (decide (nth i r null = k)) as [Heq|Hne].
    + rewrite bool_decide_eq_true_2 by done. simpl. do 2 f_equal.
      clear IHks Hr Hks. subst k.
      induction ks as [|k' ks IH]; csimpl; [done|].
      apply not_elem_of_cons in Hk as [Hne Hk].
      rewrite bool_decide_eq_false_2 by done. by rewrite IH.
    + rewrite bool_decide_eq_false_2 by done.
      apply elem_of_cons in Hr as [?|Hr]; [done|].
      rewrite IHks by done. lia.
Qed.

Lemma group_nonempty i k (rs : list (list Cell)) :
  k ∈ SQL.group_keys null i rs -> (1 <= length (SQL.group_rows null i k rs))%nat.
Proof.
  unfold SQL.group_keys, SQL.group_rows. rewrite elem_of_remove_dups.
  intros [r [-> Hr]]%list_elem_of_fmap_1.
  induction rs as [|r' rs IH]; [by apply elem_of_nil in Hr|].
  simpl. destruct (decide (r = r')) as [<-|Hne].
  - rewrite bool_decide_eq_true_2 by done. simpl. lia.
  - apply elem_of_cons in Hr as [?|Hr]; [done|].
    destruct (bool_decide _); simpl; [lia|by apply IH].
Qed.

(** X17.  The count query returns, in some order, one row per different
    label with the number of rows that carry the label; every such number
    is at least 1 and together they add up to the number of rows of the
    frame. *)
Theorem X17_valueCounts_add_up_to_the_row_count
    (caseSensitive : bool) (wine counts : SQL.DataFrame Cell) :
  SQL.columns wine = Main.colNames ->
  Main.sql_valueCounts null cell_leb count_cell caseSensitive
    (Main.register_wine caseSensitive (Main.rename_od280 caseSensitive wine) ∅)
  = Ok counts ->
  SQL.columns counts = ["target"; "valueCounts"] /\
  SQL.rows counts ≡ₚ
    (fun k => [k; count_cell (length (SQL.group_rows null 0 k (SQL.rows wine)))])
      <$> SQL.group_keys null 0 (SQL.rows wine) /\
  NoDup (SQL.group_keys null 0 (SQL.rows wine)) /\
  sum_list ((fun k => length (SQL.group_rows null 0 k (SQL.rows wine)))
              <$> SQL.group_keys null 0 (SQL.rows wine))
  = SQL.count wine /\
  Forall (fun k => (1 <= length (SQL.group_rows null 0 k (SQL.rows wine)))%nat)
    (SQL.group_keys null 0 (SQL.rows wine)).
Proof.
  intros Hcols Hq. rewrite Frames.valueCounts_value in Hq by done. injection Hq as <-.
  cbn [SQL.columns SQL.rows]. split; [done|]. split.
  { apply Frames.sort_rows_Permutation. }
  split; [apply NoDup_remove_dups|]. split.
  - apply group_sizes_sum; [apply NoDup_remove_dups|].
    intros r Hr. apply elem_of_remove_dups.
    by apply (list_elem_of_fmap_2 (fun r => nth 0 r null)).
  - apply Forall_forall. intros k. apply group_nonempty.
Qed.

Lemma api_avgAlcohol_value (caseSensitive : bool) (wine : SQL.DataFrame Cell)
    (itarget ialcohol : nat) :
  SQL.resolve caseSensitive "target" (SQL.columns wine) = Ok itarget ->
  SQL.resolve caseSensitive "alcohol" (SQL.columns wine) = Ok ialcohol ->
  Main.api_avgAlcohol null avg round cell_leb caseSensitive wine =
  Ok {| SQL.columns := ["target"; "avgAlcohol"];
        SQL.rows := SQL.sort_rows null cell_leb 0
                      (SQL.aggregate_round_avg null avg round
                         itarget ialcohol 2 (SQL.rows wine)) |}.
Proof.
  intros Ht Ha. unfold Main.api_avgAlcohol, SQL.select. cbn [mapM].
  rewrite Ht, Ha. cbn [mbind result_bind mret result_ret].
  unfold SQL.groupBy. cbn [SQL.columns SQL.rows].
  rewrite Frames.resolve_target_selected. cbn [mbind result_bind].
  unfold SQL.agg_round_avg.
  cbn [SQL.grouped SQL.grouping SQL.grouping_index SQL.columns SQL.rows].
  rewrite Frames.resolve_alcohol_selected. cbn [mbind result_bind].
  rewrite Frames.aggregate_of_projection.
  unfold SQL.orderBy. cbn [SQL.columns SQL.rows]. by destruct caseSensitive.
Qed.

(** X18.  When [target] and [alcohol] each denote one column, the
    DataFrame chain returns the columns [target] and [avgAlcohol] and, for
    every different label, one row holding the label and the rounded
    average of the alcohol cells of the rows with that label; no label
    comes twice, and under a total order the rows ascend by label. *)
Theorem X18_avgAlcohol_has_one_sorted_row_per_label
    (caseSensitive : bool) (wine : SQL.DataFrame Cell) (itarget ialcohol : nat) :
  SQL.resolve caseSensitive "target" (SQL.columns wine) = Ok itarget ->
  SQL.resolve caseSensitive "alcohol" (SQL.columns wine) = Ok ialcohol ->
  (forall a b, cell_leb a b = false -> cell_leb b a = true) ->
  exists out,
    Main.api_avgAlcohol null avg round cell_leb caseSensitive wine = Ok out /\
    SQL.columns out = ["target"; "avgAlcohol"] /\
    SQL.rows out ≡ₚ
      (fun k => [k; round (avg ((fun r => nth ialcohol r null)
                                  <$> SQL.group_rows null itarget k (SQL.rows wine))) 2])
        <$> SQL.group_keys null itarget (SQL.rows wine) /\
    NoDup ((fun r => nth 0 r null) <$> SQL.rows out) /\
    Sorted (fun a b => cell_leb (nth 0 a null) (nth 0 b null) = true) (SQL.rows out).
Proof.
  intros Ht Ha Htotal. eexists. split; [by apply api_avgAlcohol_value|].
  cbn [SQL.columns SQL.rows]. split; [done|]. split.
  { apply Frames.sort_rows_Permutation. }
  split; [|by apply sort_rows_Sorted].
  rewrite Frames.sort_rows_Permutation. unfold SQL.aggregate_round_avg.
  rewrite <- list_fmap_compose.
  assert (Hid : ((fun r : list Cell => nth 0 r null)
                   ∘ (fun k => [k; round (avg ((fun r => nth ialcohol r null)
                        <$> SQL.group_rows null itarget k (SQL.rows wine))) 2]))
                <$> SQL.group_keys null itarget (SQL.rows wine)
                = SQL.group_keys null itarget (SQL.rows wine)).
  { rewrite <- (list_fmap_id (SQL.group_keys null itarget (SQL.rows wine))) at 2.
    by apply list_fmap_ext. }
  rewrite Hid. apply NoDup_remove_dups.
Qed.

Lemma resolve_cases caseSensitive name cols :
  (exists i, SQL.resolve caseSensitive name cols = Ok i /\
             SQL.matching caseSensitive name cols 0 = [i]) \/
  (SQL.resolve caseSensitive name cols = Raise AnalysisException /\
   forall i, SQL.matching caseSensitive name cols 0 ≠ [i]).
Proof.
  unfold SQL.resolve.
  destruct (SQL.matching caseSensitive name cols 0) as [|i [|j l]];
    [right|left; by exists i|right]; (split; [done|congruence]).
Qed.

(** X19.  A name resolves when exactly one column matches it and is an
    [AnalysisException] otherwise.  Both formulations of the average query
    raise [AnalysisException] when [target] or [alcohol] does not resolve,
    and the SQL queries raise it when no view [wine] is registered. *)
Theorem X19_queries_raise_AnalysisException
    (caseSensitive : bool) (wine : SQL.DataFrame Cell)
    (catalog : gmap string (SQL.DataFrame Cell)) (name : string) :
  (SQL.resolve caseSensitive name (SQL.columns wine) = Raise AnalysisException <->
   forall i, SQL.matching caseSensitive name (SQL.columns wine) 0 ≠ [i]) /\
  (SQL.resolve caseSensitive "target" (SQL.columns wine) = Raise AnalysisException \/
   SQL.resolve caseSensitive "alcohol" (SQL.columns wine) = Raise AnalysisException ->
   Main.api_avgAlcohol null avg round cell_leb caseSensitive wine
     = Raise AnalysisException /\
   Main.sql_avgAlcohol null avg round cell_leb caseSensitive
     (Main.register_wine caseSensitive wine catalog) = Raise AnalysisException) /\
  (catalog !! SQL.view_key caseSensitive "wine" = None ->
   Main.sql_avgAlcohol null avg round cell_leb caseSensitive catalog
     = Raise AnalysisException /\
   Main.sql_valueCounts null cell_leb count_cell caseSensitive catalog
     = Raise AnalysisException).
Proof.
  split; [|split].
  - destruct (resolve_cases caseSensitive name (SQL.columns wine))
      as [(i & Hi & Hm)|[Hr Hm]].
    + rewrite Hi, Hm. split; [done|]. intros Hne. by destruct (Hne i).
    + by rewrite Hr.
  - intros Hfail.
    assert (Hsql : Main.sql_avgAlcohol null avg round cell_leb caseSensitive
                     (Main.register_wine caseSensitive wine catalog) =
      (ikey ← SQL.resolve caseSensitive "target" (SQL.columns wine);
       ival ← SQL.resolve caseSensitive "alcohol" (SQL.columns wine);
       SQL.orderBy null cell_leb caseSensitive "target"
         {| SQL.columns := ["target"; "avgAlcohol"];
            SQL.rows := SQL.aggregate_round_avg null avg round ikey ival 2
                          (SQL.rows wine) |})).
    { unfold Main.sql_avgAlcohol, SQL.sql_round_avg_by, Main.register_wine,
        SQL.createOrReplaceTempView, SQL.table.
      by rewrite lookup_insert_eq. }
    rewrite Hsql. unfold Main.api_avgAlcohol, SQL.select. cbn [mapM].
    destruct (resolve_cases caseSensitive "target" (SQL.columns wine))
      as [(it & Hit & _)|[Hrt _]]; [|by rewrite Hrt].
    rewrite Hit. destruct Hfail as [Hf|Hf]; [congruence|]. by rewrite Hf.
  - intros Hnone.
    unfold Main.sql_avgAlcohol, SQL.sql_round_avg_by, Main.sql_valueCounts,
      SQL.sql_count_by, SQL.table.
    by rewrite Hnone.
Qed.

(** *** Renaming *)

Lemma rename_no_match caseSensitive existing new (cols : list string) :
  Forall (fun c => SQL.resolver caseSensitive c existing = false) cols ->
  (fun c => if SQL.resolver caseSensitive c existing then new else c) <$> cols
  = cols.
Proof.
  induction 1 as [|c cols Hc _ IH]; csimpl; [done|]. by rewrite Hc, IH.
Qed.

(** X20.  Renaming a column that the frame does not have changes nothing.
    On the wine frame the rename cell can therefore be run again without
    effect, and renaming ['od280'] back gives the frame before the
    rename. *)
Theorem X20_rename_is_repeatable_and_reversible
    (caseSensitive : bool) (existing new : string) (df wine : SQL.DataFrame Cell) :
  (Forall (fun c => SQL.resolver caseSensitive c existing = false) (SQL.columns df) ->
   SQL.withColumnRenamed caseSensitive existing new df = df) /\
  (SQL.columns wine = Main.colNames ->
   Main.rename_od280 caseSensitive (Main.rename_od280 caseSensitive wine)
     = Main.rename_od280 caseSensitive wine /\
   SQL.withColumnRenamed caseSensitive "od280" "od280_od315_of_diluted_wines"
     (Main.rename_od280 caseSensitive wine) = wine).
Proof.
  split.
  - intros Hno. unfold SQL.withColumnRenamed. rewrite rename_no_match by done.
    by destruct df.
  - intros Hcols. destruct wine as [cols rs]. simpl in Hcols. subst cols.
    unfold Main.rename_od280, SQL.withColumnRenamed. cbn [SQL.columns SQL.rows].
    split; f_equal; by destruct caseSensitive.
Qed.

End frames.
End FrameFacts.

(** ** More on the learning cells *)

Module LearningFacts.

(** *** The parameter grid *)

Lemma build_length (grid : list (ML.Param * list Z)) :
  length (ML.build grid)
  = foldr (fun g n => (length g.2 * n)%nat) 1%nat grid.
Proof.
  induction grid as [|[p vs] g IH]; [done|]. cbn [ML.build foldr snd].
  rewrite <- IH. clear IH. induction vs as [|v vs IHvs]; [done|].
  cbn [flat_map]. rewrite length_app, List.length_map, IHvs. simpl. lia.
Qed.

Lemma build_elem_of (grid : list (ML.Param * list Z)) (pm : list (ML.Param * Z)) :
  pm ∈ ML.build grid <->
  Forall2 (fun pv g => pv.1 = g.1 /\ pv.2 ∈ g.2) pm grid.
Proof.
  revert pm. induction grid as [|[p vs] g IH]; intros pm; cbn [ML.build].
  - rewrite list_elem_of_singleton. split; [by intros ->|].
    by intros ->%Forall2_nil_inv_r.
  - rewrite list_elem_of_In, in_flat_map. split.
    + intros (v & Hv & Hpm). apply in_map_iff in Hpm as (pm' & <- & Hpm').
      constructor; [by split; [|apply list_elem_of_In]|].
      by apply IH, list_elem_of_In.
    + intros Hall. apply Forall2_cons_inv_r in Hall
        as ([q v] & pm' & [Hq Hv] & Hpm' & ->).
      simpl in Hq, Hv. subst q. exists v.
      split; [by apply list_elem_of_In|].
      apply in_map_iff. exists pm'. split; [done|].
      by apply list_elem_of_In, IH.
Qed.

(** X21.  [build] returns the product of the value lists: as many maps as
    the product of the lengths of the lists, and a map is returned exactly
    when it gives every parameter of the grid, in the order of the grid,
    one of the values listed for it.  A parameter with an empty list
    leaves no map. *)
Theorem X21_build_is_the_product_of_the_value_lists
    (grid : list (ML.Param * list Z)) :
  length (ML.build grid)
    = foldr (fun g n => (length g.2 * n)%nat) 1%nat grid /\
  (forall pm, pm ∈ ML.build grid <->
     Forall2 (fun pv g => pv.1 = g.1 /\ pv.2 ∈ g.2) pm grid) /\
  ((exists p, (p, []) ∈ grid) -> ML.build grid = []).
Proof.
  split; [apply build_length|]. split; [apply build_elem_of|].
  intros [p Hp]. apply length_zero_iff_nil. rewrite build_length.
  induction grid as [|g grid IH]; [by apply elem_of_nil in Hp|].
  cbn [foldr]. apply elem_of_cons in Hp as [<-|Hp]; [done|].
  rewrite IH by done. lia.
Qed.

Lemma addGrid_keys_elem_of p vs (grid : list (ML.Param * list Z)) q :
  q ∈ (ML.addGrid p vs grid).*1 <-> q = p \/ q ∈ grid.*1.
Proof.
  induction grid as [|[p' vs'] g IH]; cbn [ML.addGrid].
  - csimpl. rewrite list_elem_of_singleton, elem_of_nil. tauto.
  - destruct (decide (p' = p)) as [->|Hne]; csimpl.
    + rewrite !elem_of_cons. tauto.
    + rewrite !elem_of_cons, IH. tauto.
Qed.

(** X22.  [addGrid] keeps one entry per parameter: a parameter already in
    the grid gets the new value list at its old place (the old list is
    lost), a new parameter is added last, and the lists of the other
    parameters stay. *)
Theorem X22_addGrid_overwrites_the_values_of_a_parameter
    (p : ML.Param) (vs : list Z) (grid : list (ML.Param * list Z)) :
  NoDup grid.*1 ->
  NoDup (ML.addGrid p vs grid).*1 /\
  (ML.addGrid p vs grid).*1
    = (if decide (p ∈ grid.*1) then grid.*1 else grid.*1 ++ [p]) /\
  (forall q ws, (q, ws) ∈ ML.addGrid p vs grid <->
     (q = p /\ ws = vs) \/ (q ≠ p /\ (q, ws) ∈ grid)).
Proof.
  intros Hnd. split; [|split].
  - induction grid as [|[p' vs'] g IH]; cbn [ML.addGrid].
    + csimpl. apply NoDup_singleton.
    + csimpl in Hnd. apply NoDup_cons in Hnd as [Hp' Hnd].
      destruct (decide (p' = p)) as [->|Hne]; csimpl.
      * by apply NoDup_cons.
      * apply NoDup_cons. split; [|by apply IH].
        rewrite addGrid_keys_elem_of. intros [?|?]; done.
  - clear Hnd. induction grid as [|[p' vs'] g IH]; cbn [ML.addGrid]; [done|].
    destruct (decide (p' = p)) as [->|Hne]; csimpl.
    + rewrite decide_True by left. done.
    + rewrite IH. destruct (decide (p ∈ g.*1)) as [Hin|Hnin].
      * rewrite decide_True by by right. done.
      * rewrite decide_False; [done|].
        intros [?|?]%elem_of_cons; done.
  - intros q ws. induction grid as [|[p' vs'] g IH]; cbn [ML.addGrid].
    + rewrite list_elem_of_singleton, elem_of_nil. split.
      * intros [= -> ->]. by left.
      * intros [[-> ->]|[_ []]]. done.
    + csimpl in Hnd. apply NoDup_cons in Hnd as [Hp' Hnd].
      specialize (IH Hnd).
      destruct (decide (p' = p)) as [->|Hne].
      * rewrite !elem_of_cons. split.
        -- intros [[= -> ->]|Hin]; [by left|]. right. split; [|by right].
           intros ->. apply Hp'.
           by apply (list_elem_of_fmap_2 fst) in Hin.
        -- intros [[-> ->]|[Hq [[= ? ?]|Hin]]]; [by left|done|by right].
      * rewrite !elem_of_cons, IH. split.
        -- intros [[= -> ->]|[[-> ->]|[Hq Hin]]];
             [right; split; [done|by left]|by left|right; split; [done|by right]].
        -- intros [[-> ->]|[Hq [[= -> ->]|Hin]]];
             [right; by left|by left|right; right; by split].
Qed.

Lemma set_params_keep (pm : list (ML.Param * Z)) (rf : ML.RandomForestClassifier) :
  ML.featuresCol (foldl ML.set_param rf pm) = ML.featuresCol rf /\
  ML.labelCol (foldl ML.set_param rf pm) = ML.labelCol rf /\
  ML.predictionCol (foldl ML.set_param rf pm) = ML.predictionCol rf /\
  ML.rf_seed (foldl ML.set_param rf pm) = ML.rf_seed rf.
Proof.
  revert rf. induction pm as [|[p v] pm IH]; intros rf; [done|].
  cbn [foldl]. destruct (IH (ML.set_param rf (p, v))) as (-> & -> & -> & ->).
  by destruct p.
Qed.

(** X23.  Applying a parameter map to the pipeline touches only the
    number of trees and the depth of the classifier: the assembler, the
    three column names and the seed stay.  For a map of the notebook's
    grid the classifier gets exactly the map's two values. *)
Theorem X23_parameter_maps_set_only_trees_and_depth
    {Cell : Type} (pm : list (ML.Param * Z)) (p : ML.Pipeline)
    (wine : SQL.DataFrame Cell) :
  ML.assembler_stage (ML.with_params pm p) = ML.assembler_stage p /\
  ML.featuresCol (ML.classifier_stage (ML.with_params pm p))
    = ML.featuresCol (ML.classifier_stage p) /\
  ML.labelCol (ML.classifier_stage (ML.with_params pm p))
    = ML.labelCol (ML.classifier_stage p) /\
  ML.predictionCol (ML.classifier_stage (ML.with_params pm p))
    = ML.predictionCol (ML.classifier_stage p) /\
  ML.rf_seed (ML.classifier_stage (ML.with_params pm p))
    = ML.rf_seed (ML.classifier_stage p) /\
  (pm ∈ ML.params ->
   exists nt md,
     pm = [(ML.numTrees, nt); (ML.maxDepth, md)] /\
     ML.with_params pm (ML.pipe wine) =
     {| ML.assembler_stage := ML.assembler wine;
        ML.classifier_stage :=
          {| ML.featuresCol := "features"; ML.labelCol := "target";
             ML.predictionCol := "prediction";
             ML.rf_numTrees := nt; ML.rf_maxDepth := md; ML.rf_seed := 23 |} |}).
Proof.
  split; [done|]. unfold ML.with_params. cbn [ML.classifier_stage].
  destruct (set_params_keep pm (ML.classifier_stage p)) as (-> & -> & -> & ->).
  do 4 (split; [done|]).
  rewrite Learning.params_explicit, !elem_of_cons, elem_of_nil. intros Hin.
  repeat (destruct Hin as [->|Hin]; [by eexists _, _|]). done.
Qed.

(** *** The folds *)

Lemma concat_fmap_app {A I} (f g : I -> list A) (ixs : list I) :
  concat ((fun i => f i ++ g i) <$> ixs)
  ≡ₚ concat (f <$> ixs) ++ concat (g <$> ixs).
Proof.
  induction ixs as [|i ixs IH]; csimpl; [done|].
  rewrite IH, <- !(assoc_L (++)). apply Permutation_app_head.
  rewrite !(assoc_L (++)). apply Permutation_app_tail, Permutation_app_comm.
Qed.

Lemma concat_single_hit {A} (x : A) (b : nat -> bool) (i0 : nat) (ixs : list nat) :
  NoDup ixs -> i0 ∈ ixs -> (forall i, i ∈ ixs -> (b i = true <-> i = i0)) ->
  concat ((fun i => if b i then [x] else []) <$> ixs) = [x].
Proof.
  intros Hnd. revert i0. induction Hnd as [|i ixs Hi Hnd IH]; intros i0 Hin Hb.
  { by apply elem_of_nil in Hin. }
  csimpl. destruct (decide (i = i0)) as [->|Hne].
  - assert (b i0 = true) as -> by (apply Hb; [left|done]).
    simpl. f_equal. clear IH Hin.
    induction ixs as [|j ixs IHixs]; csimpl; [done|].
    apply not_elem_of_cons in Hi as [Hj Hi].
    apply NoDup_cons in Hnd as [_ Hnd].
    assert (b j = false) as ->.
    { apply not_true_is_false. intros Htrue.
      apply Hb in Htrue; [done|right; left]. }
    simpl. apply IHixs; [|done|done].
    intros i Hi'. apply Hb. apply elem_of_cons in Hi' as [->|Hi'];
      [left|right; by right].
  - assert (b i = false) as ->.
    { apply not_true_is_false. intros Htrue. apply Hb in Htrue; [done|left]. }
    simpl. apply (IH i0).
    + apply elem_of_cons in Hin as [?|?]; [done|done].
    + intros j Hj. apply Hb. by right.
Qed.

(** Selections by a family of tests of which exactly one holds at every
    position split the list. *)
Lemma selections_partition {A} (n : nat) (sel : nat -> nat -> bool) (l : list A) :
  (forall j, exists i, (i < n)%nat /\
     forall i', (i' < n)%nat -> (sel i' j = true <-> i' = i)) ->
  concat ((fun i => concat (imap (fun j r => if sel i j then [r] else []) l))
            <$> seq 0 n) ≡ₚ l.
Proof.
  revert sel. induction l as [|x l IH]; intros sel Hsel.
  - simpl. generalize (seq 0 n). intros ixs.
    induction ixs as [|i ixs IHixs]; csimpl; [done|]. done.
  - assert (Hcons : (fun i => concat (imap (fun j r => if sel i j then [r] else [])
                                       (x :: l)))
              = (fun i => (if sel i 0%nat then [x] else [])
                            ++ concat (imap (fun j r => if sel i (S j) then [r] else [])
                                         l))) by done.
    rewrite Hcons, concat_fmap_app.
    destruct (Hsel 0%nat) as (i0 & Hi0 & Hu).
    rewrite (concat_single_hit x (fun i => sel i 0%nat) i0).
    + simpl. constructor. apply (IH (fun i j => sel i (S j))).
      intros j. apply (Hsel (S j)).
    + apply NoDup_seq.
    + apply elem_of_seq. lia.
    + intros i Hi. apply Hu. apply elem_of_seq in Hi. lia.
Qed.

Lemma in_fold_5_unique (x : Q) :
  (0 <= x)%Q -> (x < 1)%Q ->
  exists i, (i < 5)%nat /\
    forall i', (i' < 5)%nat -> (ML.in_fold 5 i' x = true <-> i' = i).
Proof.
  intros H0 H1. destruct x as [xn xd].
  unfold Qle, Qlt in H0, H1. simpl in H0, H1.
  assert (Hspec : forall i', (i' < 5)%nat ->
    (ML.in_fold 5 i' (xn # xd) = true <->
     (Z.of_nat i' * Z.pos xd <= 5 * xn < (Z.of_nat i' + 1) * Z.pos xd))).
  { intros i' Hi'. unfold ML.in_fold, Qltb.
    rewrite andb_true_iff, negb_true_iff, Qle_bool_iff, <- not_true_iff_false,
      Qle_bool_iff.
    do 5 (destruct i' as [|i']; [unfold Qle; simpl; lia|]). lia. }
  exists (Z.to_nat (5 * xn / Z.pos xd)).
  assert (Hdiv := Z.div_mod (5 * xn) (Z.pos xd) ltac:(lia)).
  assert (Hmod := Z.mod_pos_bound (5 * xn) (Z.pos xd) ltac:(lia)).
  assert (Hq0 : 0 <= 5 * xn / Z.pos xd) by (apply Z.div_pos; lia).
  assert (Hq5 : 5 * xn / Z.pos xd < 5) by (apply Z.div_lt_upper_bound; lia).
  split; [lia|]. intros i' Hi'. rewrite (Hspec i' Hi'). split.
  - intros [Hlo Hhi]. nia.
  - intros ->. rewrite Z2Nat.id by done. nia.
Qed.

Section folds.
Context {Cell : Type}.
Variable rand : Z -> nat -> Q.
Variable cv_seed : Z.

(** X24.  With random numbers in [0,1) the five folds divide the rows of
    the frame: in every fold the training and the validation rows together
    are the rows of the frame, and the validation parts of the five folds
    together are the rows of the frame, so that every row is validated
    exactly once.  (The folds are taken without the column of random
    numbers that selects them.) *)
Theorem X24_five_folds_validate_every_row_once (df : SQL.DataFrame Cell) :
  (forall j, (0 <= rand cv_seed j)%Q /\ (rand cv_seed j < 1)%Q) ->
  Forall (fun fold => SQL.rows fold.1 ++ SQL.rows fold.2 ≡ₚ SQL.rows df)
         (ML.kFold rand cv_seed ML.numFolds df) /\
  concat ((fun fold => SQL.rows fold.2) <$> ML.kFold rand cv_seed ML.numFolds df)
  ≡ₚ SQL.rows df.
Proof.
  intros Hrand.
  assert (Hpick : forall i (keep : bool) (rs : list (list Cell)),
    imap (fun j r => if bool_decide (ML.in_fold ML.numFolds i (rand cv_seed j) = keep)
                     then [r] else []) rs
    = imap (fun j r => if (if keep then ML.in_fold ML.numFolds i (rand cv_seed j)
                           else negb (ML.in_fold ML.numFolds i (rand cv_seed j)))
                       then [r] else []) rs).
  { intros i keep rs. apply imap_ext. intros j r _. cbn beta.
    by destruct keep, (ML.in_fold ML.numFolds i (rand cv_seed j)). }
  split.
  - unfold ML.kFold. apply Forall_fmap, Forall_forall. intros i _.
    unfold compose. cbn [fst snd SQL.columns SQL.rows].
    rewrite !Hpick. rewrite Permutation_app_comm.
    apply (Learning.select_complement
             (fun j => ML.in_fold ML.numFolds i (rand cv_seed j))).
  - unfold ML.kFold. rewrite <- list_fmap_compose. unfold compose.
    cbn [fst snd SQL.columns SQL.rows].
    erewrite list_fmap_ext; [|intros ? i ?; by rewrite Hpick].
    apply (selections_partition ML.numFolds
             (fun i j => ML.in_fold ML.numFolds i (rand cv_seed j))).
    intros j. destruct (Hrand j). by apply in_fold_5_unique.
Qed.

End folds.

(** *** The best parameter map *)

Lemma Qltb_true (x y : Q) : Qltb x y = true <-> (x < y)%Q.
Proof.
  unfold Qltb. rewrite negb_true_iff, <- not_true_iff_false, Qle_bool_iff.
  split; [apply Qnot_le_lt|apply Qlt_not_le].
Qed.

Lemma Qltb_false (x y : Q) : Qltb x y = false <-> (y <= x)%Q.
Proof.
  unfold Qltb. rewrite negb_false_iff, Qle_bool_iff. done.
Qed.

(** [argmax_from] continues a scan: [best] is the first position of the
    largest value of the scanned part [pre]. *)
Lemma argmax_from_scan (l pre : list Q) (best : nat) :
  (best < length pre)%nat ->
  (forall j y, pre !! j = Some y -> (y <= nth best pre 0)%Q) ->
  (forall j y, (j < best)%nat -> pre !! j = Some y -> (y < nth best pre 0)%Q) ->
  let k := ML.argmax_from best (nth best pre 0%Q) (length pre) l in
  (k < length (pre ++ l))%nat /\
  (forall j y, (pre ++ l) !! j = Some y -> (y <= nth k (pre ++ l) 0)%Q) /\
  (forall j y, (j < k)%nat -> (pre ++ l) !! j = Some y ->
     (y < nth k (pre ++ l) 0)%Q).
Proof.
  revert pre best. induction l as [|x l IH]; intros pre best Hbest Hmax Hfirst.
  - cbn [ML.argmax_from]. rewrite app_nil_r. done.
  - cbn [ML.argmax_from].
    replace (pre ++ x :: l) with ((pre ++ [x]) ++ l) by by rewrite <- app_assoc.
    destruct (Qltb (nth best pre 0%Q) x) eqn:Hlt.
    + apply Qltb_true in Hlt.
      specialize (IH (pre ++ [x]) (length pre)).
      rewrite app_nth2, Nat.sub_diag in IH by lia. cbn [nth] in IH.
      rewrite length_app in IH. cbn [length] in IH.
      rewrite Nat.add_1_r in IH. apply IH; [lia| |].
      * intros j y Hy. apply lookup_app_Some in Hy as [Hy|[Hj Hy]].
        -- apply Qlt_le_weak. eapply Qle_lt_trans; [by eapply Hmax|done].
        -- apply list_lookup_singleton_Some in Hy as [_ <-]. apply Qle_refl.
      * intros j y Hj Hy. rewrite lookup_app_l in Hy by done.
        eapply Qle_lt_trans; [by eapply Hmax|done].
    + apply Qltb_false in Hlt.
      specialize (IH (pre ++ [x]) best).
      rewrite app_nth1 in IH by done.
      rewrite length_app in IH. cbn [length] in IH.
      rewrite Nat.add_1_r in IH. apply IH; [lia| |].
      * intros j y Hy. apply lookup_app_Some in Hy as [Hy|[Hj Hy]].
        -- by eapply Hmax.
        -- by apply list_lookup_singleton_Some in Hy as [_ <-].
      * intros j y Hj Hy. rewrite lookup_app_l in Hy by lia.
        by eapply Hfirst.
Qed.

Lemma argmax_first_maximum (l : list Q) :
  l ≠ [] ->
  (ML.argmax l < length l)%nat /\
  (forall j y, l !! j = Some y -> (y <= nth (ML.argmax l) l 0)%Q) /\
  (forall j y, (j < ML.argmax l)%nat -> l !! j = Some y ->
     (y < nth (ML.argmax l) l 0)%Q).
Proof.
  destruct l as [|x l]; [done|]. intros _. unfold ML.argmax.
  apply (argmax_from_scan l [x] 0%nat); simpl.
  - lia.
  - intros [|j] y; simpl; [intros [= <-]; apply Qle_refl|done].
  - lia.
Qed.

Section learning.
Context {Cell : Type} `{EqDecision Cell}.
Variable null : Cell.
Variable caseSensitive : bool.
Variable invalid : Cell -> bool.
Variable as_double : Cell -> Cell.
Variable vector : list Cell -> Cell.
Variable Forest : Type.
Variable forest_fit : ML.RandomForestClassifier -> SQL.DataFrame Cell -> Forest.
Variable forest_transform : Forest -> SQL.DataFrame Cell -> SQL.DataFrame Cell.
Variable evaluate : SQL.DataFrame Cell -> Q.
Variable rand : Z -> nat -> Q.
Variable cv_seed : Z.
Variable mean : list Q -> Q.

(** X25.  With at least one parameter map, the best model of a finished
    cross-validation is the pipeline fitted again on the whole frame with
    one map of the list: the map whose average metric is the largest, and
    the first such map when several share the largest average. *)
Theorem X25_best_model_is_refit_with_the_first_best_map
    (est : ML.Pipeline) (epm : list (list (ML.Param * Z))) (nFolds : nat)
    (df : SQL.DataFrame Cell) (cvm : ML.CrossValidatorModel Forest) :
  epm ≠ [] ->
  ML.cross_validate null caseSensitive invalid as_double vector Forest
    forest_fit forest_transform evaluate rand cv_seed mean est epm nFolds df
  = Ok cvm ->
  exists k pm best,
    epm !! k = Some pm /\
    ML.avgMetrics Forest cvm !! k = Some best /\
    ML.pipeline_fit null caseSensitive invalid as_double vector Forest
      forest_fit (ML.with_params pm est) df
    = Ok (ML.bestModel Forest cvm) /\
    (forall j y, ML.avgMetrics Forest cvm !! j = Some y -> (y <= best)%Q) /\
    (forall j y, (j < k)%nat -> ML.avgMetrics Forest cvm !! j = Some y ->
       (y < best)%Q).
Proof.
  intros Hepm Hcv. unfold ML.cross_validate in Hcv.
  destruct (ML.metrics_all null caseSensitive invalid as_double vector Forest
              forest_fit forest_transform evaluate rand cv_seed
              est epm nFolds df) as [metrics|e]; [|done].
  cbn [mbind result_bind] in Hcv.
  set (avgs := ML.mean_metrics mean metrics (length epm)) in *.
  assert (Hlen : length avgs = length epm).
  { unfold avgs, ML.mean_metrics. by rewrite length_fmap, length_seq. }
  assert (Havgs : avgs ≠ []).
  { intros Hnil. rewrite Hnil in Hlen. by destruct epm. }
  destruct (argmax_first_maximum avgs Havgs) as (Hk & Hmax & Hfirst).
  destruct (lookup_lt_is_Some_2 epm (ML.argmax avgs)) as [pm Hpm]; [lia|].
  rewrite (nth_lookup_Some _ _ _ _ Hpm) in Hcv.
  destruct (ML.pipeline_fit _ _ _ _ _ _ _ _ _) as [best|e] eqn:Hfit; [|done].
  cbn [mbind result_bind] in Hcv. injection Hcv as <-.
  cbn [ML.bestModel ML.avgMetrics].
  exists (ML.argmax avgs), pm, (nth (ML.argmax avgs) avgs 0%Q).
  split; [done|]. split; [|done].
  destruct (lookup_lt_is_Some_2 avgs (ML.argmax avgs) Hk) as [v Hv].
  by rewrite (nth_lookup_Some _ _ _ _ Hv).
Qed.

(** *** Invalid feature values *)

Lemma existsb_elem_of {A} (f : A -> bool) (l : list A) :
  existsb f l = true <-> exists x, x ∈ l /\ f x = true.
Proof.
  rewrite existsb_exists. split; intros (x & Hx & Hf); exists x;
    (split; [by apply list_elem_of_In|done]).
Qed.

Lemma assembler_error_cases (va : ML.VectorAssembler) (df : SQL.DataFrame Cell)
    (idxs : list nat) :
  ML.handleInvalid va = "error" ->
  mapM (fun name => SQL.resolve caseSensitive name (SQL.columns df))
       (ML.inputCols va) = Ok idxs ->
  ML.assembler_transform null caseSensitive invalid as_double vector va df =
  if existsb (fun r => existsb invalid (ML.input_values null idxs r)) (SQL.rows df)
  then Raise SparkException
  else Ok {| SQL.columns := SQL.columns df ++ [ML.outputCol va];
             SQL.rows := (fun r => r ++ [vector (as_double
                                           <$> ML.input_values null idxs r)])
                           <$> SQL.rows df |}.
Proof.
  intros Hh Hidx. unfold ML.assembler_transform. rewrite Hidx, Hh.
  cbn [mbind result_bind]. done.
Qed.

(** X26.  When the input columns resolve, the notebook's assembler
    (['error']) fails with [SparkException] exactly when some row has an
    invalid value in one of the input columns, and then fitting the
    pipeline and computing the transform of a fitted pipeline fail in the
    same way.  Otherwise it returns the frame with one more column,
    ['features'], and every row followed by one cell.  (Frames are values
    here: the failure of a transform is the failure of the job that
    computes its rows.) *)
Theorem X26_invalid_feature_value_fails_the_pipeline
    (wine df : SQL.DataFrame Cell) (idxs : list nat) (forest : Forest) :
  mapM (fun name => SQL.resolve caseSensitive name (SQL.columns df))
       (ML.inputCols (ML.assembler wine)) = Ok idxs ->
  (ML.assembler_transform null caseSensitive invalid as_double vector
     (ML.assembler wine) df = Raise SparkException <->
   exists r i, r ∈ SQL.rows df /\ i ∈ idxs /\ invalid (nth i r null) = true) /\
  (ML.assembler_transform null caseSensitive invalid as_double vector
     (ML.assembler wine) df = Raise SparkException ->
   ML.pipeline_fit null caseSensitive invalid as_double vector Forest
     forest_fit (ML.pipe wine) df = Raise SparkException /\
   ML.pipeline_transform null caseSensitive invalid as_double vector Forest
     forest_transform
     {| ML.fitted_assembler := ML.assembler wine; ML.fitted_forest := forest |} df
   = Raise SparkException) /\
  (forall out,
     ML.assembler_transform null caseSensitive invalid as_double vector
       (ML.assembler wine) df = Ok out ->
     SQL.columns out = SQL.columns df ++ ["features"] /\
     Forall2 (fun r o => exists v, o = r ++ [v]) (SQL.rows df) (SQL.rows out)).
Proof.
  intros Hidx.
  rewrite (assembler_error_cases (ML.assembler wine) df idxs eq_refl Hidx).
  split; [|split].
  - destruct (existsb _ (SQL.rows df)) eqn:Hbad.
    + split; [|done]. intros _.
      apply existsb_elem_of in Hbad as (r & Hr & Hbad).
      apply existsb_elem_of in Hbad as (c & Hc & Hinv).
      apply list_elem_of_fmap_1 in Hc as (i & -> & Hi). by exists r, i.
    + split; [done|]. intros (r & i & Hr & Hi & Hinv).
      assert (Htrue : existsb (fun r => existsb invalid
                                 (ML.input_values null idxs r)) (SQL.rows df)
                      = true); [|congruence].
      apply existsb_elem_of. exists r. split; [done|].
      apply existsb_elem_of. exists (nth i r null). split; [|done].
      by apply (list_elem_of_fmap_2 (fun i => nth i r null)).
  - intros Hfail. unfold ML.pipeline_fit, ML.pipeline_transform.
    cbn [ML.assembler_stage ML.pipe ML.fitted_assembler].
    rewrite (assembler_error_cases (ML.assembler wine) df idxs eq_refl Hidx).
    by rewrite Hfail.
  - intros out. destruct (existsb _ (SQL.rows df)); [done|].
    intros [= <-]. cbn [SQL.columns SQL.rows ML.outputCol ML.assembler].
    split; [done|]. apply Forall2_fmap_r, Forall_Forall2_diag, Forall_forall.
    intros r _. by eexists.
Qed.

End learning.

(** *** The random split *)

Lemma scan_left_length (acc : Q) (ws : list Q) :
  length (ML.scan_left acc ws) = S (length ws).
Proof.
  revert acc. induction ws as [|w ws IH]; intros acc; [done|].
  cbn [ML.scan_left length]. by rewrite IH.
Qed.

Lemma scan_left_lower (acc : Q) (ws : list Q) :
  Forall (fun w => (0 <= w)%Q) ws ->
  Forall (fun b => (acc <= b)%Q) (ML.scan_left acc ws).
Proof.
  intros Hws. revert acc. induction Hws as [|w ws Hw _ IH]; intros acc.
  - repeat constructor. apply Qle_refl.
  - cbn [ML.scan_left]. constructor; [apply Qle_refl|].
    eapply Forall_impl; [apply IH|]. intros b Hb. cbn beta in *.
    eapply Qle_trans; [|exact Hb].
    rewrite <- (Qplus_0_r acc) at 1. by apply Qplus_le_r.
Qed.

Lemma scan_left_sorted (acc : Q) (ws : list Q) :
  Forall (fun w => (0 <= w)%Q) ws ->
  StronglySorted Qle (ML.scan_left acc ws).
Proof.
  intros Hws. revert acc. induction Hws as [|w ws Hw Hws IH]; intros acc.
  - repeat constructor.
  - cbn [ML.scan_left]. constructor; [apply IH|].
    eapply Forall_impl; [by apply scan_left_lower|]. intros b Hb. cbn beta in *.
    eapply Qle_trans; [|exact Hb].
    rewrite <- (Qplus_0_r acc) at 1. by apply Qplus_le_r.
Qed.

Lemma sorted_lookup_le (l : list Q) (i j : nat) (x y : Q) :
  StronglySorted Qle l -> (i <= j)%nat ->
  l !! i = Some x -> l !! j = Some y -> (x <= y)%Q.
Proof.
  intros Hs. revert i j. induction Hs as [|a l Hs IH Ha]; intros i j Hij Hx Hy.
  { by rewrite lookup_nil in Hx. }
  destruct i as [|i], j as [|j]; simpl in Hx, Hy; try lia.
  - injection Hx as <-. injection Hy as <-. apply Qle_refl.
  - injection Hx as <-. rewrite Forall_forall in Ha.
    apply Ha. by eapply list_elem_of_lookup_2.
  - eapply (IH i j); [lia|done|done].
Qed.

Lemma lookup_zip_tail {A} (l : list A) (k : nat) (a b : A) :
  zip l (tail l) !! k = Some (a, b) <-> l !! k = Some a /\ l !! S k = Some b.
Proof.
  destruct l as [|x l]; [simpl; rewrite !lookup_nil; by intuition|].
  cbn [tail]. revert x k. induction l as [|y l IH]; intros x k.
  - simpl. rewrite lookup_nil. split; [done|].
    intros [_ Hb]. by destruct k.
  - destruct k as [|k]; simpl.
    + split; [by intros [= -> ->]|by intros [[= ->] [= ->]]].
    + apply IH.
Qed.

Lemma length_zip_tail {A} (l : list A) :
  length (zip l (tail l)) = Nat.pred (length l).
Proof.
  destruct l as [|x l]; [done|]. cbn [tail]. rewrite length_zip.
  cbn [length Nat.pred]. lia.
Qed.

Section split.
Context {Cell : Type}.
Variable sort_within_partitions : list (list Cell) -> list (list Cell).
Variable draw : Z -> nat -> Q.

(** X27.  [randomSplit] raises [ValueError] for a negative weight and
    [IllegalArgumentException] for weights that are all zero.  For
    weights that are not negative and not all zero it returns one frame
    per weight; every frame has the columns of the source, its rows are a
    subsequence of the sorted rows, and no row position is taken by two
    frames. *)
Theorem X27_randomSplit_gives_one_disjoint_frame_per_weight
    (weights : list Q) (seed : Z) (df : SQL.DataFrame Cell) :
  ((exists w, w ∈ weights /\ (w < 0)%Q) ->
   ML.randomSplit sort_within_partitions draw weights seed df = Raise ValueError) /\
  (Forall (fun w => (0 <= w)%Q) weights -> (0 < foldr Qplus 0 weights)%Q ->
   exists frames,
     ML.randomSplit sort_within_partitions draw weights seed df = Ok frames /\
     length frames = length weights /\
     Forall (fun f => SQL.columns f = SQL.columns df /\
                      SQL.rows f `sublist_of` sort_within_partitions (SQL.rows df))
            frames /\
     forall k k' lb ub lb' ub' i,
       (k < k')%nat ->
       zip (ML.normalized_cum_weights weights)
           (tail (ML.normalized_cum_weights weights)) !! k = Some (lb, ub) ->
       zip (ML.normalized_cum_weights weights)
           (tail (ML.normalized_cum_weights weights)) !! k' = Some (lb', ub') ->
       frames !! k = Some {| SQL.columns := SQL.columns df;
                             SQL.rows := ML.sample_range draw lb ub seed
                               (sort_within_partitions (SQL.rows df)) |} /\
       (ML.in_range draw lb ub seed i = true ->
        ML.in_range draw lb' ub' seed i = false)) /\
  (Forall (fun w => (0 <= w)%Q) weights -> (foldr Qplus 0 weights <= 0)%Q ->
   ML.randomSplit sort_within_partitions draw weights seed df
   = Raise IllegalArgumentException).
Proof.
  assert (Hcheck : Forall (fun w => (0 <= w)%Q) weights ->
                   existsb (fun w => Qltb w 0) weights = false).
  { intros Hpos. apply Learning.existsb_Forall_false.
    eapply Forall_impl; [exact Hpos|]. intros w Hw. by apply Qltb_false. }
  split; [|split].
  - intros (w & Hw & Hneg). unfold ML.randomSplit.
    assert (existsb (fun w => Qltb w 0) weights = true) as ->; [|done].
    apply existsb_exists. exists w. split; [by apply list_elem_of_In|].
    by apply Qltb_true.
  - intros Hpos Hsum. unfold ML.randomSplit. rewrite (Hcheck Hpos).
    assert (Qle_bool (foldr Qplus 0%Q weights) 0%Q = false) as ->.
    { apply not_true_iff_false. intros Hle%Qle_bool_iff.
      by apply Qle_not_lt in Hle. }
    eexists. split; [done|]. split.
    { rewrite length_fmap, length_zip_tail.
      unfold ML.normalized_cum_weights.
      by rewrite scan_left_length, length_fmap. }
    split.
    { apply Forall_fmap, Forall_forall. intros [lb ub] _.
      cbn [SQL.columns SQL.rows fst snd]. split; [done|].
      apply (RDDFacts.select_sublist (ML.in_range draw lb ub seed)). }
    intros k k' lb ub lb' ub' i Hk Hz Hz'. split.
    { rewrite list_lookup_fmap, Hz. done. }
    apply lookup_zip_tail in Hz as [_ Hub], Hz' as [Hlb' _].
    assert (Hle : (ub <= lb')%Q).
    { eapply (sorted_lookup_le _ (S k) k'); [|lia|done|done].
      apply scan_left_sorted, Forall_fmap.
      eapply Forall_impl; [exact Hpos|]. intros w Hw. cbn.
      apply Qle_shift_div_l; [done|]. by rewrite Qmult_0_l. }
    unfold ML.in_range. rewrite andb_true_iff, andb_false_iff.
    intros [_ Hlt%Qltb_true]. left.
    apply not_true_iff_false. intros Hge%Qle_bool_iff.
    apply (Qlt_irrefl (draw seed i)).
    eapply Qlt_le_trans; [exact Hlt|]. by eapply Qle_trans.
  - intros Hpos Hsum. unfold ML.randomSplit. rewrite (Hcheck Hpos).
    by apply Qle_bool_iff in Hsum as ->.
Qed.

End split.

End LearningFacts.

(** ** More on the actions of lowLevelAPI.ipynb *)

Module ActionFacts.
Section take.
Context {A : Type}.
Variable estimate : nat -> nat -> nat -> Z.

Lemma numPartsToTry_positive (num partsScanned found : nat) :
  (1 <= Actions.numPartsToTry estimate num partsScanned found)%nat.
Proof.
  unfold Actions.numPartsToTry.
  destruct (Nat.eqb_spec partsScanned 0); [done|].
  destruct (Nat.eqb_spec found 0); lia.
Qed.

(** What a truncated batch loses lies behind the first [n] elements. *)
Lemma firstn_concat_truncated (n m : nat) (ps : list (list A)) :
  (m <= n)%nat ->
  firstn m (concat (firstn n <$> ps)) = firstn m (concat ps).
Proof.
  revert m. induction ps as [|p ps IH]; intros m Hm; [done|].
  csimpl. rewrite !take_app, take_take, length_take.
  rewrite Nat.min_l by done. f_equal.
  destruct (decide (length p <= n)%nat).
  - rewrite Nat.min_r by done. apply IH. lia.
  - rewrite Nat.min_l by lia.
    replace (m - n)%nat with 0%nat by lia.
    replace (m - length p)%nat with 0%nat by lia. done.
Qed.

Lemma truncated_or_long (n : nat) (ps : list (list A)) :
  concat (firstn n <$> ps) = concat ps \/
  (n <= length (concat (firstn n <$> ps)))%nat.
Proof.
  induction ps as [|p ps IH]; [by left|]. csimpl.
  destruct (decide (length p <= n)%nat).
  - rewrite take_ge by done. destruct IH as [->|IH]; [by left|].
    right. rewrite length_app. lia.
  - right. rewrite length_app, length_take. lia.
Qed.

Lemma firstn_min_length {B} (a : nat) (l : list B) :
  firstn (Nat.min a (length l)) l = firstn a l.
Proof.
  destruct (decide (a <= length l)%nat).
  - by rewrite Nat.min_l.
  - rewrite Nat.min_r by lia. by rewrite !take_ge by lia.
Qed.

Lemma batch_extends (s n : nat) (r : rdd A) :
  concat (firstn (s + n) r)
  = concat (firstn s r)
      ++ concat (firstn (Nat.min (s + n) (length r) - s) (skipn s r)).
Proof.
  rewrite <- concat_app. f_equal.
  replace (Nat.min (s + n) (length r) - s)%nat
    with (Nat.min n (length (skipn s r))) by (rewrite length_drop; lia).
  rewrite firstn_min_length.
  rewrite <- (take_drop s r) at 1.
  destruct (decide (s <= length r)%nat).
  - rewrite take_app, length_take, Nat.min_l by done.
    rewrite take_take, Nat.min_r by lia.
    by replace (s + n - s)%nat with n by lia.
  - rewrite (drop_ge r s) by lia.
    rewrite app_nil_r, take_nil, app_nil_r.
    rewrite take_take. f_equal. lia.
Qed.

Lemma take_loop_prefix (num : nat) (r : rdd A) (fuel : nat)
    (items : list A) (s : nat) :
  (length r <= s + fuel)%nat ->
  items = concat (firstn s r) \/
    ((num <= length items)%nat /\
     firstn num items = firstn num (concat (firstn s r))) ->
  firstn num (Actions.take_loop estimate fuel num r items s)
  = firstn num (concat r).
Proof.
  assert (Hdone : forall (items : list A) (s : nat),
    items = concat (firstn s r) \/
      ((num <= length items)%nat /\
       firstn num items = firstn num (concat (firstn s r))) ->
    (num <= length items)%nat \/ (length r <= s)%nat ->
    firstn num items = firstn num (concat r)).
  { clear. intros items s Hinv [Hlong|Hall].
    - assert (Heq : firstn num items = firstn num (concat (firstn s r)))
        by (destruct Hinv as [->|[_ ?]]; done).
      rewrite Heq. rewrite <- (take_drop s r) at 2.
      rewrite concat_app, take_app.
      assert (Hlen : (num <= length (concat (firstn s r)))%nat).
      { apply (f_equal length) in Heq. rewrite !length_take in Heq. lia. }
      replace (num - length (concat (firstn s r)))%nat with 0%nat by lia.
      by rewrite take_0, app_nil_r.
    - rewrite take_ge in Hinv by done.
      destruct Hinv as [->|[_ ?]]; done. }
  revert items s. induction fuel as [|fuel IH]; intros items s Hfuel Hinv.
  - cbn [Actions.take_loop]. apply (Hdone items s Hinv). right. lia.
  - cbn [Actions.take_loop].
    destruct (Nat.ltb_spec (length items) num) as [Hshort|Hlong]; cbn [andb];
      [|apply (Hdone items s Hinv); by left].
    destruct (Nat.ltb_spec s (length r)) as [Hmore|Hall];
      [|apply (Hdone items s Hinv); by right].
    pose proof (numPartsToTry_positive num s (length items)) as Hn.
    set (n := Actions.numPartsToTry estimate num s (length items)) in *.
    apply IH; [lia|].
    destruct Hinv as [Hitems|[? _]]; [|lia].
    unfold Actions.takeUpToNumLeft. rewrite batch_extends.
    set (batch := firstn (Nat.min (s + n) (length r) - s) (skipn s r)).
    destruct (truncated_or_long (num - length items) batch) as [->|Hfull].
    + left. by rewrite Hitems.
    + right. split; [rewrite length_app; lia|].
      rewrite <- Hitems, !take_app.
      by rewrite firstn_concat_truncated.
Qed.

(** X2.  [take] returns the first [num] elements of the collection in
    partition order (all of them when there are fewer), however the scan
    groups the partitions into batches. *)
Theorem X2_take_returns_the_first_elements (num : nat) (r : rdd A) :
  Actions.take estimate num r = RDD.take num r /\
  Actions.take estimate num r = firstn num (RDD.collect r) /\
  length (Actions.take estimate num r)
  = Nat.min num (length (RDD.collect r)).
Proof.
  assert (Heq : Actions.take estimate num r = firstn num (RDD.collect r)).
  { unfold Actions.take, RDD.collect. apply take_loop_prefix; [lia|by left]. }
  split; [exact Heq|]. split; [exact Heq|].
  rewrite Heq. apply length_take.
Qed.

End take.
End ActionFacts.

(** ** The added properties on concrete inputs *)

Module Instances.
Import Values.

Lemma leb_total (a b : Value) : leb a b = false -> leb b a = true.
Proof.
  unfold leb. destruct (number a) as [x|], (number b) as [y|]; try done.
  intros Hxy. apply Qle_bool_iff, Qlt_le_weak, Qnot_le_lt.
  intros Hle%Qle_bool_iff. congruence.
Qed.

Lemma draw5_unit (seed : Z) (i : nat) :
  (0 <= draw5 seed i)%Q /\ (draw5 seed i < 1)%Q.
Proof.
  unfold draw5. destruct (Nat.even i); split; reflexivity || discriminate.
Qed.

Lemma fragment_caseless :
  Unicode.whitespace_is_caseless Unicode.Fragment.isspace
    Unicode.Fragment.tolower_full Unicode.Fragment.cased
    Unicode.Fragment.case_ignorable Unicode.Fragment.capital_sigma
    Unicode.Fragment.final_sigma Unicode.Fragment.small_sigma.
Proof.
  split; [|split; [|done]].
  - intros c Hc.
    unfold Unicode.Fragment.isspace, Unicode.Fragment.capital_sigma,
      Unicode.Fragment.tolower_full, Unicode.Fragment.cased,
      Unicode.Fragment.case_ignorable, Unicode.Fragment.greek_capital in *.
    rewrite !orb_true_iff, !andb_true_iff, !Z.leb_le, !Z.eqb_eq in Hc.
    repeat match goal with
           | |- context [(?a <=? ?b)] => destruct (Z.leb_spec a b); try lia
           | |- context [(?a =? ?b)] => destruct (Z.eqb_spec a b); try lia
           end; done.
  - intros c Hc. unfold Unicode.Fragment.tolower_full.
    destruct (_ || _) eqn:Hup.
    + split; [done|]. repeat constructor.
      unfold Unicode.Fragment.isspace.
      unfold Unicode.Fragment.greek_capital in Hup.
      rewrite !orb_true_iff, !andb_true_iff, !Z.leb_le in Hup.
      repeat match goal with
             | |- context [(?a <=? ?b)] => destruct (Z.leb_spec a b); try lia
             | |- context [(?a =? ?b)] => destruct (Z.eqb_spec a b); try lia
             end; done.
    + destruct (c =? 304); [split; [done|repeat constructor]|].
      split; [done|]. by repeat constructor.
Qed.

(** The line "ΑΣ Σα": the first sigma ends a word and the second begins
    one, in the line as in the words. *)
Lemma X5_lower_split_witness :
  Unicode.Fragment.split (Unicode.Fragment.lower [913; 931; 32; 931; 945])
  = [[945; 962]; [963; 945]].
Proof.
  etrans; [exact (proj1 (TokenFacts.X5_lower_and_split_commute
                   Unicode.Fragment.isspace Unicode.Fragment.tolower_full
                   Unicode.Fragment.cased Unicode.Fragment.case_ignorable
                   Unicode.Fragment.capital_sigma Unicode.Fragment.final_sigma
                   Unicode.Fragment.small_sigma fragment_caseless
                   [913; 931; 32; 931; 945] []))|].
  reflexivity.
Defined.

Lemma X8_wordCount_witness :
  foldr Z.add 0
    (RDD.collect (LowLevel.wordCount Py.lower Py.split None (fun _ => 0)
                    [["Heroes in a"; "half shell"]; ["heroes"]])).*2
  = 6.
Proof.
  refine (proj1 (TokenFacts.X8_wordCount_counts_add_up Py.lower Py.split
                   None (fun _ => 0)
                   [["Heroes in a"; "half shell"]; ["heroes"]] _)).
  discriminate.
Defined.

(** The lines "ΑΣ ας" and "ας": one key, counted three times. *)
Lemma X9_wordCount_witness :
  (exists w, w ∈ flat_map Unicode.Fragment.split
                   (RDD.collect [[[913; 931; 32; 945; 962]]; [[945; 962]]]) /\
             [945; 962] = Unicode.Fragment.lower w) /\
  3 = Z.of_nat (length (List.filter
                          (fun w => bool_decide
                             (Unicode.Fragment.lower w = [945; 962]))
                          (flat_map Unicode.Fragment.split
                             (RDD.collect [[[913; 931; 32; 945; 962]];
                                           [[945; 962]]])))).
Proof.
  refine (TokenFacts.X9_wordCount_folds_case
            Unicode.Fragment.lower Unicode.Fragment.split None (fun _ => 0)
            [[[913; 931; 32; 945; 962]]; [[945; 962]]] [945; 962] 3 _ _ _).
  - apply (TokenFacts.split_lower _ _ _ _ _ _ _ fragment_caseless).
  - discriminate.
  - assert (Hc : RDD.collect
                   (LowLevel.wordCount Unicode.Fragment.lower
                      Unicode.Fragment.split None (fun _ => 0)
                      [[[913; 931; 32; 945; 962]]; [[945; 962]]])
                 = [([945; 962], 3)]) by (vm_compute; reflexivity).
    rewrite Hc. left.
Defined.

Lemma X12_top10_witness :
  exists top,
    Ordered.top10 Py.lower Py.split None (fun _ => 0)
      [["Heroes in a"; "half shell"]; ["heroes"]] = Ok top /\
    NoDup top.*1.
Proof.
  destruct (OrderedFacts.X12_top10_lists_the_most_frequent_tokens
              Py.lower Py.split
              None (fun _ => 0) [["Heroes in a"; "half shell"]; ["heroes"]])
    as (top & Htop & _ & Hnd & _); [discriminate|].
  by exists top.
Defined.

Lemma X15_rows_witness :
  Forall (fun r => length r = 14%nat) (SQL.rows wine5).
Proof.
  assert (Hread : Main.read_wine VNull parse_field first_rows = Ok wine5)
    by (vm_compute; reflexivity).
  exact (proj1 (FrameFacts.X15_rows_have_14_cells_short_records_are_padded
                  VNull parse_field first_rows wine5 Hread)).
Defined.

Lemma X16_null_check_witness :
  Checks.null_counts VNull count_cell false wine5 =
  Ok {| SQL.columns := Main.colNames;
        SQL.rows := [(fun i => count_cell (Checks.null_count VNull i (SQL.rows wine5)))
                       <$> seq 0 14] |}.
Proof.
  refine (proj1 (FrameFacts.X16_null_check_counts_nulls_per_column
                   VNull count_cell false wine5 eq_refl _)).
  repeat constructor.
Defined.

Lemma X17_valueCounts_witness :
  sum_list ((fun k => length (SQL.group_rows VNull 0 k (SQL.rows wine5)))
              <$> SQL.group_keys VNull 0 (SQL.rows wine5))
  = SQL.count wine5.
Proof.
  assert (Hq : Main.sql_valueCounts VNull leb count_cell false
                 (Main.register_wine false (Main.rename_od280 false wine5) ∅)
               = Ok {| SQL.columns := ["target"; "valueCounts"];
                       SQL.rows := [[VInt 1; VInt 5]] |})
    by (vm_compute; reflexivity).
  exact (proj1 (proj2 (proj2 (proj2
    (FrameFacts.X17_valueCounts_add_up_to_the_row_count
       VNull leb count_cell false wine5 _ eq_refl Hq))))).
Defined.

Lemma X18_avgAlcohol_witness :
  exists out,
    Main.api_avgAlcohol VNull avg round leb false wine5 = Ok out /\
    SQL.columns out = ["target"; "avgAlcohol"].
Proof.
  destruct (FrameFacts.X18_avgAlcohol_has_one_sorted_row_per_label
              VNull avg round leb false wine5 0%nat 1%nat
              eq_refl eq_refl leb_total)
    as (out & Hout & Hcols & _).
  by exists out.
Defined.

Lemma X22_addGrid_witness :
  (ML.addGrid ML.maxDepth [5; 10; 15]
     (ML.addGrid ML.numTrees [50; 100; 150] [])).*1
  = [ML.numTrees; ML.maxDepth].
Proof.
  refine (proj1 (proj2 (LearningFacts.X22_addGrid_overwrites_the_values_of_a_parameter
                          ML.maxDepth [5; 10; 15]
                          (ML.addGrid ML.numTrees [50; 100; 150] []) _))).
  apply NoDup_singleton.
Defined.

Lemma X24_folds_witness :
  concat ((fun fold => SQL.rows fold.2) <$> ML.kFold draw5 23 ML.numFolds wine5)
  ≡ₚ SQL.rows wine5.
Proof.
  exact (proj2 (LearningFacts.X24_five_folds_validate_every_row_once
                  draw5 23 wine5 (draw5_unit 23))).
Defined.

Lemma X25_best_model_witness :
  exists cvm k pm,
    ML.cross_validate VNull false invalid as_double vector unit
      (fun _ _ => tt) (fun _ df => df) (fun _ => 1%Q) draw5 23 mean
      (ML.pipe (Main.rename_od280 false wine5)) ML.params ML.numFolds
      (Main.rename_od280 false wine5) = Ok cvm /\
    ML.params !! k = Some pm.
Proof.
  destruct (ML.cross_validate VNull false invalid as_double vector unit
              (fun _ _ => tt) (fun _ df => df) (fun _ => 1%Q) draw5 23 mean
              (ML.pipe (Main.rename_od280 false wine5)) ML.params ML.numFolds
              (Main.rename_od280 false wine5))
    as [cvm|e] eqn:Hcv; [|vm_compute in Hcv; discriminate].
  destruct (LearningFacts.X25_best_model_is_refit_with_the_first_best_map
              VNull false invalid as_double vector unit
              (fun _ _ => tt) (fun _ df => df) (fun _ => 1%Q) draw5 23 mean
              (ML.pipe (Main.rename_od280 false wine5)) ML.params ML.numFolds
              (Main.rename_od280 false wine5) cvm)
    as (k & pm & best & Hpm & _); [discriminate|exact Hcv|].
  exists cvm, k, pm. split; [reflexivity|exact Hpm].
Defined.

Lemma X26_assembler_witness :
  ML.assembler_transform VNull false invalid as_double vector
    (ML.assembler (Main.rename_od280 false wine5))
    (Main.rename_od280 false wine5) = Raise SparkException <->
  exists r i, r ∈ SQL.rows (Main.rename_od280 false wine5) /\
              i ∈ [1; 2; 3; 4; 5; 6; 7; 8; 9; 10; 11; 12; 13]%nat /\
              invalid (nth i r VNull) = true.
Proof.
  exact (proj1 (LearningFacts.X26_invalid_feature_value_fails_the_pipeline
                  VNull false invalid as_double vector unit
                  (fun _ _ => tt) (fun _ df => df)
                  (Main.rename_od280 false wine5) (Main.rename_od280 false wine5)
                  [1; 2; 3; 4; 5; 6; 7; 8; 9; 10; 11; 12; 13]%nat tt eq_refl)).
Defined.

End Instances.
